(** * holophyly: fleet reconciliation and real-time monitoring engine

    A shallow embedding of the Go sources of the compose-fleet manager:
    the scanner and its parse cache ([internal/scanner]), the protection
    policy ([internal/project/protected.go]), the project manager
    ([manager.go]), the stats arithmetic ([stats.go]) and the websocket hub
    with its clients ([hub.go], [client.go]).

    Conventions of the embedding.
    - A Go [string] is a Rocq [string] (a sequence of bytes); Go compares
      strings byte-wise, which is [String.compare].  A [range] loop over a
      string reads runes with the UTF-8 decoder written out.
    - A [*model.Project] is an address into a store of project objects, so
      that the scanner cache, the scan result and the manager's map may
      share one object, as they do in the source.
    - [time.Time] instants are integers; [time.Now()] is an input.
    - External collaborators (the file system, the compose loader, the
      docker daemon, the [docker compose] binary, the SQLite file) supply
      their answers as inputs; every call that reaches the compose loader or
      the compose binary is recorded in a log of events.
    - [uint64] counters are integers with the wrap-around written out;
      [float64] is the primitive binary64 float. *)

From Stdlib Require Import ZArith Floats Ascii String.
From Stdlib Require OrderedTypeEx.
From stdpp Require Import gmap strings list sorting.

Local Open Scope Z_scope.

(** ** Go library functions used by the sources *)

Module Go.

Definition rune := Z.

(** [strings.HasPrefix]. *)
Fixpoint HasPrefix (s prefix : string) {struct prefix} : bool :=
  match prefix, s with
  | EmptyString, _ => true
  | String p prefix', String c s' => Ascii.eqb c p && HasPrefix s' prefix'
  | String _ _, EmptyString => false
  end.

(** [strings.Contains]: [substr] occurs somewhere in [s]. *)
Fixpoint Contains (s substr : string) : bool :=
  HasPrefix s substr ||
  match s with
  | EmptyString => false
  | String _ s' => Contains s' substr
  end.

(** [strings.TrimSuffix]. *)
Definition TrimSuffix (s suffix : string) : string :=
  let n := String.length s in
  let k := String.length suffix in
  if (k <=? n)%nat && String.eqb (String.substring (n - k) k s) suffix
  then String.substring 0 (n - k) s
  else s.

(** [uint64] arithmetic wraps modulo [2^64]. *)
Definition wrap64 (z : Z) : Z := z mod 2 ^ 64.
Definition sub64 (a b : Z) : Z := wrap64 (a - b).

(** The conversion [float64(n)] of an integer: round to nearest, ties to
    even, in binary64. *)
Definition float64 (z : Z) : float :=
  SF2Prim (binary_normalize prec emax z 0 false).

(** A byte of a string as a number, the conversion [byte(x)], which keeps
    the low eight bits, and the conversion [uint32(r)] of an [int32]. *)
Definition byte (b : ascii) : Z := Z.of_N (N_of_ascii b).
Definition toByte (x : Z) : ascii := ascii_of_N (Z.to_N (x mod 256)).
Definition uint32 (r : Z) : Z := r mod 2 ^ 32.

(** *** UTF-8 *)

Module utf8.

Definition RuneError : rune := 0xFFFD.
Definition RuneSelf : Z := 0x80.
Definition MaxRune : rune := 0x10FFFF.
Definition surrogateMin : Z := 0xD800.
Definition surrogateMax : Z := 0xDFFF.
Definition tx : Z := 0x80.
Definition t2 : Z := 0xC0.
Definition t3 : Z := 0xE0.
Definition t4 : Z := 0xF0.
Definition t5 : Z := 0xF8.
Definition maskx : Z := 0x3F.
Definition mask2 : Z := 0x1F.
Definition mask3 : Z := 0x0F.
Definition mask4 : Z := 0x07.
Definition rune1Max : Z := 0x7F.
Definition rune2Max : Z := 0x7FF.
Definition rune3Max : Z := 0xFFFF.
Definition locb : Z := 0x80.
Definition hicb : Z := 0xBF.

(** A continuation byte, [locb <= b && b <= hicb]. *)
Definition continues (b : ascii) : bool := (locb <=? byte b) && (byte b <=? hicb).

(** The runes that [for _, r := range s] yields.  A byte below [RuneSelf]
    is its own rune; otherwise the loop decodes two, three or four bytes,
    rejecting encodings that are too long, surrogates and values above
    [MaxRune]; a byte that starts no valid encoding yields [RuneError], and
    the loop advances by that one byte. *)
Fixpoint rangeRunes (s : list ascii) : list rune :=
  match s with
  | [] => []
  | s0 :: rest0 =>
      if byte s0 <? RuneSelf then byte s0 :: rangeRunes rest0
      else if (t2 <=? byte s0) && (byte s0 <? t3) then
        match rest0 with
        | s1 :: rest1 =>
            let r := Z.lor (Z.shiftl (Z.land (byte s0) mask2) 6)
                           (Z.land (byte s1) maskx) in
            if continues s1 && (rune1Max <? r)
            then r :: rangeRunes rest1
            else RuneError :: rangeRunes rest0
        | _ => RuneError :: rangeRunes rest0
        end
      else if (t3 <=? byte s0) && (byte s0 <? t4) then
        match rest0 with
        | s1 :: s2 :: rest2 =>
            let r := Z.lor (Z.lor (Z.shiftl (Z.land (byte s0) mask3) 12)
                                  (Z.shiftl (Z.land (byte s1) maskx) 6))
                           (Z.land (byte s2) maskx) in
            if continues s1 && continues s2 && (rune2Max <? r)
               && negb ((surrogateMin <=? r) && (r <=? surrogateMax))
            then r :: rangeRunes rest2
            else RuneError :: rangeRunes rest0
        | _ => RuneError :: rangeRunes rest0
        end
      else if (t4 <=? byte s0) && (byte s0 <? t5) then
        match rest0 with
        | s1 :: s2 :: s3 :: rest3 =>
            let r := Z.lor (Z.lor (Z.lor (Z.shiftl (Z.land (byte s0) mask4) 18)
                                         (Z.shiftl (Z.land (byte s1) maskx) 12))
                                  (Z.shiftl (Z.land (byte s2) maskx) 6))
                           (Z.land (byte s3) maskx) in
            if continues s1 && continues s2 && continues s3
               && (rune3Max <? r) && (r <=? MaxRune)
            then r :: rangeRunes rest3
            else RuneError :: rangeRunes rest0
        | _ => RuneError :: rangeRunes rest0
        end
      else RuneError :: rangeRunes rest0
  end.

(** The three bytes of a rune between [rune2Max] and [rune3Max]. *)
Definition threeBytes (r : rune) : list ascii :=
  [toByte (Z.lor t3 (byte (toByte (Z.shiftr r 12))));
   toByte (Z.lor tx (Z.land (byte (toByte (Z.shiftr r 6))) maskx));
   toByte (Z.lor tx (Z.land (byte (toByte r)) maskx))].

(** [utf8.AppendRune], which [strings.Builder.WriteRune] calls on the
    builder's buffer: a rune above [MaxRune], a negative one and a surrogate
    are written as [RuneError]. *)
Definition AppendRune (p : list ascii) (r : rune) : list ascii :=
  let i := uint32 r in
  if i <=? rune1Max then p ++ [toByte r]
  else if i <=? rune2Max then
    p ++ [toByte (Z.lor t2 (byte (toByte (Z.shiftr r 6))));
          toByte (Z.lor tx (Z.land (byte (toByte r)) maskx))]
  else if (MaxRune <? i) || ((surrogateMin <=? i) && (i <=? surrogateMax)) then
    p ++ threeBytes RuneError
  else if i <=? rune3Max then p ++ threeBytes r
  else
    p ++ [toByte (Z.lor t4 (byte (toByte (Z.shiftr r 18))));
          toByte (Z.lor tx (Z.land (byte (toByte (Z.shiftr r 12))) maskx));
          toByte (Z.lor tx (Z.land (byte (toByte (Z.shiftr r 6))) maskx));
          toByte (Z.lor tx (Z.land (byte (toByte r)) maskx))].

End utf8.

End Go.

(** ** internal/model/types.go *)

Module model.

Inductive Environment := EnvDevelopment | EnvProduction | EnvUnknown.

Inductive ProjectStatus :=
  StatusRunning | StatusStopped | StatusPartial | StatusUnknown.

(** [ProtectionReason] is a string type; the handler may store any text. *)
Definition ProtectionReason := string.
Definition ProtectionCloudflareTunnel : ProtectionReason := "cloudflare_tunnel".
Definition ProtectionUserMarked : ProtectionReason := "user_marked".
Definition ProtectionAutoDetected : ProtectionReason := "auto_detected".

Definition Time := Z.

Record PortMapping := {
  HostIP : string;
  HostPort : Z;
  ContainerPort : Z;
  Protocol : string
}.

Record ContainerStats := {
  CPUPercent : float;
  MemoryUsage : Z;
  MemoryLimit : Z;
  MemoryPercent : float;
  NetworkRx : Z;
  NetworkTx : Z;
  BlockRead : Z;
  BlockWrite : Z;
  PIDs : Z;
  Timestamp : Time
}.

Record Container := {
  ctrID : string;
  ctrName : string;
  ServiceName : string;
  Image : string;
  ctrStatus : string;
  State : string;
  Health : string;
  Ports : list PortMapping;
  Labels : gmap string string;
  Stats : option ContainerStats;
  ctrCreatedAt : Time;
  StartedAt : Time
}.

Record Project := {
  ID : string;
  Name : string;
  DisplayName : string;
  Path : string;
  ComposeFile : string;
  ComposeFilePath : string;
  Environment_ : Environment;
  Status : ProjectStatus;
  Protected : bool;
  ProtectionReason_ : ProtectionReason;
  Hidden : bool;
  Containers : list Container;
  Services : list string;
  CreatedAt : Time;
  UpdatedAt : Time
}.

End model.

Import model.

(** ** manager.go: aggregate status *)

Module status.

(** The [switch ctr.State] of the counting loop: which counter a container
    state feeds. *)
Definition isRunning (c : Container) : bool := String.eqb (State c) "running".

Definition isTerminal (c : Container) : bool :=
  String.eqb (State c) "exited" || String.eqb (State c) "dead"
  || String.eqb (State c) "created".

(** The loop of [determineProjectStatus], threading the two counters. *)
Fixpoint countStates (containers : list Container) (running stopped : Z) : Z * Z :=
  match containers with
  | [] => (running, stopped)
  | ctr :: rest =>
      if isRunning ctr then countStates rest (running + 1) stopped
      else if isTerminal ctr then countStates rest running (stopped + 1)
      else countStates rest running stopped
  end.

Definition determineProjectStatus (containers : list Container) : ProjectStatus :=
  if (Z.of_nat (length containers) =? 0) then StatusStopped
  else
    let '(running, stopped) := countStates containers 0 0 in
    if running =? Z.of_nat (length containers) then StatusRunning
    else if stopped =? Z.of_nat (length containers) then StatusStopped
    else StatusPartial.

End status.

(** ** Library functions taken as given

    The functions of the Go standard library (and of [crypto/sha256]) that
    the sources call and whose tables or algorithms are not part of this
    repository.  Every definition below that calls one of them takes the
    record as an argument, so the theorems hold for every implementation. *)

Record Lib := {
  filepath_Dir : string -> string;
  filepath_Base : string -> string;
  filepath_Ext : string -> string;
  filepath_Clean : string -> string;
  (** [filepath.Match pattern name]; [None] stands for [ErrBadPattern]. *)
  filepath_Match : string -> string -> option bool;
  strings_ToLower : string -> string;
  (** The code points a [for i, r := range s] loop yields, in order. *)
  runes : string -> list Go.rune;
  (** [hex.EncodeToString] of the first [n] bytes of the SHA-256 digest. *)
  sha256_hex : nat -> string -> string
}.

(** ** The store of [model.Project] objects

    A pointer is an index into the store; allocation appends. *)

Abbreviation ptr := nat (only parsing).

Definition alloc (h : list Project) (p : Project) : list Project * ptr :=
  (h ++ [p], length h).

(** ** internal/scanner/patterns.go *)

Module patterns.

Definition developmentPatterns : list string :=
  ["dev"; "development"; "local"; "test"; "testing"; "staging"; "stage"; "debug"].

Definition productionPatterns : list string :=
  ["prod"; "production"; "live"; "release"; "main"; "master"].

(** [splitByDelimiters].  The loop ranges over the runes of [s];
    [current] is the buffer of the [strings.Builder], to which every rune
    that is not a delimiter is written back as UTF-8.  A byte of [s] that
    starts no valid encoding is read as [RuneError] and so comes out as the
    three bytes of U+FFFD. *)
Fixpoint splitByDelimiters_aux (s : list Go.rune) (current : list ascii)
    (result : list string) : list string :=
  match s with
  | [] =>
      if (0 <? length current)%nat
      then result ++ [string_of_list_ascii current] else result
  | r :: rest =>
      if (r =? Go.byte "-") || (r =? Go.byte "_") || (r =? Go.byte ".")
      then
        if (0 <? length current)%nat
        then splitByDelimiters_aux rest [] (result ++ [string_of_list_ascii current])
        else splitByDelimiters_aux rest current result
      else splitByDelimiters_aux rest (Go.utf8.AppendRune current r) result
  end.

Definition splitByDelimiters (s : string) : list string :=
  splitByDelimiters_aux (Go.utf8.rangeRunes (list_ascii_of_string s)) [] [].

Definition containsPattern (s pattern : string) : bool :=
  if Go.Contains s pattern then true
  else existsb (fun part => String.eqb part pattern) (splitByDelimiters s).

Definition detectEnvironment (lib : Lib) (composePath : string) : Environment :=
  let filename := strings_ToLower lib (filepath_Base lib composePath) in
  let filenameWithoutExt := Go.TrimSuffix filename (filepath_Ext lib filename) in
  let dir := strings_ToLower lib (filepath_Base lib (filepath_Dir lib composePath)) in
  if existsb (containsPattern filenameWithoutExt) productionPatterns
  then EnvProduction
  else if existsb (containsPattern filenameWithoutExt) developmentPatterns
  then EnvDevelopment
  else if existsb (containsPattern dir) productionPatterns
  then EnvProduction
  else EnvDevelopment.

Definition cloudflarePatterns : list string :=
  ["cloudflare"; "cloudflared"; "cf-tunnel"; "cftunnel"; "tunnel"; "argo"].

Definition criticalPatterns : list string :=
  ["traefik"; "nginx-proxy"; "reverse-proxy"; "gateway"; "ingress"].

(** [IsProtectedByPattern]: [(false, "")] when nothing matches. *)
Definition IsProtectedByPattern (lib : Lib) (name : string)
    : bool * ProtectionReason :=
  let lower := strings_ToLower lib name in
  if existsb (Go.Contains lower) cloudflarePatterns
  then (true, ProtectionCloudflareTunnel)
  else if existsb (Go.Contains lower) criticalPatterns
  then (true, ProtectionAutoDetected)
  else (false, "").

End patterns.

(** ** internal/scanner/finder.go *)

Module scanner.

(** *** Project names *)

Definition isLowerLetter (r : Go.rune) : bool := (97 <=? r) && (r <=? 122).
Definition isDigit (r : Go.rune) : bool := (48 <=? r) && (r <=? 57).
Definition isDash (r : Go.rune) : bool := r =? 45.
Definition isUnderscore (r : Go.rune) : bool := r =? 95.

(** The test of the loop body: [r] is kept as it is. *)
Definition keeps (r : Go.rune) : bool :=
  isLowerLetter r || isDigit r || isDash r || isUnderscore r.

(** [result.WriteRune(r)] for a rune the loop keeps (an ASCII rune, one
    byte), [result.WriteRune('-')] otherwise. *)
Definition written (r : Go.rune) : ascii :=
  if keeps r then ascii_of_N (Z.to_N r) else "-"%char.

(** The [for i, r := range name] loop; [first] says that [i == 0], which
    holds for the first rune only. *)
Fixpoint sanitizeLoop (first : bool) (name : list Go.rune) (result : list ascii)
    : list ascii :=
  match name with
  | [] => result
  | r :: rest =>
      let result1 := result ++ [written r] in
      let result2 :=
        if first && negb (isLowerLetter r) && negb (isDigit r)
        then ["p"%char; "-"%char]
        else result1 in
      sanitizeLoop false rest result2
  end.

(** [strings.ReplaceAll(name, ".", "-")]: both are one ASCII byte. *)
Definition replaceDots (s : string) : string :=
  string_of_list_ascii
    (map (fun c => if Ascii.eqb c "." then "-"%char else c) (list_ascii_of_string s)).

Definition inCutset (c : ascii) : bool := Ascii.eqb c "-" || Ascii.eqb c "_".

Fixpoint trimLeft (s : list ascii) : list ascii :=
  match s with
  | c :: rest => if inCutset c then trimLeft rest else s
  | [] => []
  end.

Definition trimRight (s : list ascii) : list ascii := rev (trimLeft (rev s)).

(** [strings.Trim(s, "-_")]. *)
Definition trim (s : list ascii) : list ascii := trimRight (trimLeft s).

Definition sanitizeProjectName (lib : Lib) (name : string) : string :=
  let name := strings_ToLower lib name in
  let name := replaceDots name in
  let result := sanitizeLoop true (runes lib name) [] in
  let sanitized := string_of_list_ascii (trim result) in
  if String.eqb sanitized "" then "project" else sanitized.

Definition deriveProjectName (lib : Lib) (composePath : string) : string :=
  let dir := filepath_Dir lib composePath in
  let name := filepath_Base lib dir in
  sanitizeProjectName lib name.

Definition generateProjectID (lib : Lib) (composePath : string) : string :=
  sha256_hex lib 8 composePath.

End scanner.

(** ** The state of the process and the events it emits *)

(** Calls that leave the process: the compose loader parsing a file
    ([opts.LoadProject]) and the [docker compose] binary run on a definition
    file with the arguments that follow [-f file] ([runComposeCommand]). *)
Inductive Event :=
  | EvLoadProject (path : string)
  | EvCompose (composePath : string) (args : list string).

(** [scanner.CachedProject]. *)
Record CachedProject := {
  cachedProject : ptr;
  ModTime : Time;
  CheckSum : string
}.

(** A row of the [project_preferences] table ([store.ProjectPreference]). *)
Record ProjectPreference := {
  prefProjectID : string;
  prefDisplayName : string;
  prefHidden : bool
}.

Record World := {
  objects : list Project;              (* the [model.Project] objects *)
  cache : gmap string CachedProject;   (* [Scanner.cache] *)
  projects : gmap string ptr;          (* [Manager.projects] *)
  table : gmap string ProjectPreference; (* the rows behind [Manager.store] *)
  events : list Event
}.

Definition withObjects (h : list Project) (st : World) : World :=
  {| objects := h; cache := cache st; projects := projects st;
     table := table st; events := events st |}.

Definition withCache (c : gmap string CachedProject) (st : World) : World :=
  {| objects := objects st; cache := c; projects := projects st;
     table := table st; events := events st |}.

Definition withProjects (m : gmap string ptr) (st : World) : World :=
  {| objects := objects st; cache := cache st; projects := m;
     table := table st; events := events st |}.

Definition withTable (t : gmap string ProjectPreference) (st : World) : World :=
  {| objects := objects st; cache := cache st; projects := projects st;
     table := t; events := events st |}.

Definition emit (e : Event) (st : World) : World :=
  {| objects := objects st; cache := cache st; projects := projects st;
     table := table st; events := events st ++ [e] |}.

(** *** The scanner's parse cache (finder.go, continued) *)

Module finder.

(** What the compose loader answers for a path: [cli.NewProjectOptions]
    fails, [opts.LoadProject] fails, or the file loads and declares the
    listed services. *)
Inductive LoadOutcome :=
  | OptionsError
  | LoadError
  | Loaded (services : list string).

(** The file system as one scan sees it: [os.Stat] gives the modification
    time, [fileChecksum] the hex digest of the contents ([None] is an
    error), the loader its outcome. *)
Record FileSystem := {
  stat : string -> option Time;
  fileChecksum : string -> option string;
  loadProject : string -> LoadOutcome
}.

(** The result of [parseComposeFile]: an error, or a project pointer that
    may be [nil]. *)
Inductive Parsed :=
  | ParseErr
  | ParseOk (proj : option ptr).

(** The project built from a freshly loaded file; both time stamps are
    taken at [now]. *)
Definition newProject (lib : Lib) (path : string) (services : list string)
    (now : Time) : Project :=
  {| ID := scanner.generateProjectID lib path;
     Name := scanner.deriveProjectName lib path;
     DisplayName := "";
     Path := filepath_Dir lib path;
     ComposeFile := filepath_Base lib path;
     ComposeFilePath := path;
     Environment_ := patterns.detectEnvironment lib path;
     Status := StatusUnknown;
     Protected := false;
     ProtectionReason_ := "";
     Hidden := false;
     Containers := [];
     Services := services;
     CreatedAt := now;
     UpdatedAt := now |}.

(** The cache test of [parseComposeFile]. *)
Definition cacheValid (cached : option CachedProject) (modTime : Time)
    (checksum : string) : bool :=
  match cached with
  | Some c => (ModTime c =? modTime) && String.eqb (CheckSum c) checksum
  | None => false
  end.

Definition parseComposeFile (lib : Lib) (fs : FileSystem) (now : Time)
    (path : string) (st : World) : World * Parsed :=
  match stat fs path with
  | None => (st, ParseErr)
  | Some modTime =>
    match fileChecksum fs path with
    | None => (st, ParseErr)
    | Some checksum =>
      let cached := cache st !! path in
      if cacheValid cached modTime checksum
      then (st, ParseOk (cachedProject <$> cached))
      else
        match loadProject fs path with
        | OptionsError => (st, ParseErr)
        | LoadError => (emit (EvLoadProject path) st, ParseErr)
        | Loaded services =>
          let st := emit (EvLoadProject path) st in
          if (length services =? 0)%nat then (st, ParseOk None)
          else
            let '(h, proj) := alloc (objects st) (newProject lib path services now) in
            let entry := {| cachedProject := proj; ModTime := modTime;
                            CheckSum := checksum |} in
            (withCache (<[path := entry]> (cache st)) (withObjects h st),
             ParseOk (Some proj))
        end
    end
  end.

(** The inputs of one [Scan]: the YAML files the directory walk collected,
    the file system, the clock, and the index of the loop iteration at
    which the context is first seen cancelled, if it is. *)
Record ScanEnv := {
  yamlFiles : list string;
  fs : FileSystem;
  scanNow : Time;
  cancelAt : option nat
}.

Definition ctxDone (env : ScanEnv) (i : nat) : bool :=
  match cancelAt env with
  | Some k => (k <=? i)%nat
  | None => false
  end.

(** The second loop of [Scan]: [result.Projects] grows by every non-nil
    project; a parse error skips the file; a cancelled context returns
    the error [ctx.Err()] ([false] in the result). *)
Fixpoint scanLoop (lib : Lib) (env : ScanEnv) (i : nat) (files : list string)
    (st : World) (found : list ptr) : World * list ptr * bool :=
  match files with
  | [] => (st, found, true)
  | yamlPath :: rest =>
      if ctxDone env i then (st, found, false)
      else
        let '(st, r) := parseComposeFile lib (fs env) (scanNow env) yamlPath st in
        match r with
        | ParseErr => scanLoop lib env (S i) rest st found
        | ParseOk None => scanLoop lib env (S i) rest st found
        | ParseOk (Some proj) => scanLoop lib env (S i) rest st (found ++ [proj])
        end
  end.

Definition Scan (lib : Lib) (env : ScanEnv) (st : World)
    : World * list ptr * bool :=
  scanLoop lib env 0 (yamlFiles env) st [].

End finder.

(** ** internal/project/protected.go *)

Module protected.

Record ProtectionConfig := {
  Patterns : list string;
  Projects : list string
}.

Definition normalizePath (lib : Lib) (path : string) : string :=
  let path := filepath_Clean lib path in
  if Go.HasPrefix path "~/" then path else Go.TrimSuffix path "/".

(** The body of the loop over [p.Patterns] for one pattern. *)
Definition patternHits (lib : Lib) (projectPath pattern : string) : bool :=
  match filepath_Match lib (strings_ToLower lib pattern)
          (strings_ToLower lib (filepath_Base lib projectPath)) with
  | Some true => true
  | _ =>
      Go.Contains (strings_ToLower lib projectPath) (strings_ToLower lib pattern)
  end.

(** [IsProtected] on a receiver that may be [nil]. *)
Definition IsProtected (lib : Lib) (p : option ProtectionConfig)
    (projectPath : string) : bool :=
  match p with
  | None => false
  | Some p =>
      let normalizedPath := normalizePath lib projectPath in
      if existsb (fun protectedPath =>
                    String.eqb (normalizePath lib protectedPath) normalizedPath)
           (Projects p)
      then true
      else existsb (patternHits lib projectPath) (Patterns p)
  end.

End protected.

(** ** store.go *)

Module store.

(** [SetDisplayName]: an upsert that touches [display_name] only; [fail]
    is the error of the database, if it has one. *)
Definition SetDisplayName (fail : option string) (projectID displayName : string)
    (t : gmap string ProjectPreference)
    : gmap string ProjectPreference * option string :=
  match fail with
  | Some err => (t, Some err)
  | None =>
      let row :=
        match t !! projectID with
        | Some old => {| prefProjectID := projectID; prefDisplayName := displayName;
                         prefHidden := prefHidden old |}
        | None => {| prefProjectID := projectID; prefDisplayName := displayName;
                     prefHidden := false |}
        end in
      (<[projectID := row]> t, None)
  end.

(** [SetHidden]: an upsert that touches [hidden] only. *)
Definition SetHidden (fail : option string) (projectID : string) (hidden : bool)
    (t : gmap string ProjectPreference)
    : gmap string ProjectPreference * option string :=
  match fail with
  | Some err => (t, Some err)
  | None =>
      let row :=
        match t !! projectID with
        | Some old => {| prefProjectID := projectID;
                         prefDisplayName := prefDisplayName old;
                         prefHidden := hidden |}
        | None => {| prefProjectID := projectID; prefDisplayName := "";
                     prefHidden := hidden |}
        end in
      (<[projectID := row]> t, None)
  end.

(** [GetAllPreferences]: [nil] when the query or the decoding of a row
    fails ([fail]); otherwise the rows the cursor delivered, by project id.
    [delivered] holds of every row unless the iteration stopped early, in
    which case the rows read so far are returned with [rows.Err()]. *)
Definition GetAllPreferences (fail : bool) (delivered : string -> bool)
    (t : gmap string ProjectPreference)
    : option (gmap string ProjectPreference) :=
  if fail then None
  else Some (filter (fun row : string * ProjectPreference => delivered row.1 = true) t).

End store.

(** ** manager.go *)

Module manager.

Import protected.

(** The fixed fields of [Manager]: whether [m.store] is non-nil, and
    [m.protection], which may be [nil]. *)
Record Manager := {
  hasStore : bool;
  protection : option ProtectionConfig
}.

(** The errors the manager returns, with the values formatted into them. *)
Inductive Error :=
  | ErrScanning
  | ErrGettingContainers
  | ErrNotFound (id : string)
  | ErrProtectedStop (name : string) (reason : ProtectionReason)
  | ErrProtectedRestart (name : string) (reason : ProtectionReason)
  | ErrStarting (name output : string)
  | ErrStopping (name output : string)
  | ErrRestarting (name output : string)
  | ErrDocker
  | ErrSavingDisplayName (err : string)
  | ErrSavingHidden (err : string).

(** *** Field assignments through a project pointer *)

Definition setProtection (protected : bool) (reason : ProtectionReason)
    (p : Project) : Project :=
  {| ID := ID p; Name := Name p; DisplayName := DisplayName p; Path := Path p;
     ComposeFile := ComposeFile p; ComposeFilePath := ComposeFilePath p;
     Environment_ := Environment_ p; Status := Status p;
     Protected := protected; ProtectionReason_ := reason;
     Hidden := Hidden p; Containers := Containers p; Services := Services p;
     CreatedAt := CreatedAt p; UpdatedAt := UpdatedAt p |}.

Definition setDisplayName (displayName : string) (p : Project) : Project :=
  {| ID := ID p; Name := Name p; DisplayName := displayName; Path := Path p;
     ComposeFile := ComposeFile p; ComposeFilePath := ComposeFilePath p;
     Environment_ := Environment_ p; Status := Status p;
     Protected := Protected p; ProtectionReason_ := ProtectionReason_ p;
     Hidden := Hidden p; Containers := Containers p; Services := Services p;
     CreatedAt := CreatedAt p; UpdatedAt := UpdatedAt p |}.

Definition setHidden (hidden : bool) (p : Project) : Project :=
  {| ID := ID p; Name := Name p; DisplayName := DisplayName p; Path := Path p;
     ComposeFile := ComposeFile p; ComposeFilePath := ComposeFilePath p;
     Environment_ := Environment_ p; Status := Status p;
     Protected := Protected p; ProtectionReason_ := ProtectionReason_ p;
     Hidden := hidden; Containers := Containers p; Services := Services p;
     CreatedAt := CreatedAt p; UpdatedAt := UpdatedAt p |}.

Definition setContainers (containers : list Container) (status : ProjectStatus)
    (p : Project) : Project :=
  {| ID := ID p; Name := Name p; DisplayName := DisplayName p; Path := Path p;
     ComposeFile := ComposeFile p; ComposeFilePath := ComposeFilePath p;
     Environment_ := Environment_ p; Status := status;
     Protected := Protected p; ProtectionReason_ := ProtectionReason_ p;
     Hidden := Hidden p; Containers := containers; Services := Services p;
     CreatedAt := CreatedAt p; UpdatedAt := UpdatedAt p |}.

Definition setUpdatedAt (now : Time) (p : Project) : Project :=
  {| ID := ID p; Name := Name p; DisplayName := DisplayName p; Path := Path p;
     ComposeFile := ComposeFile p; ComposeFilePath := ComposeFilePath p;
     Environment_ := Environment_ p; Status := Status p;
     Protected := Protected p; ProtectionReason_ := ProtectionReason_ p;
     Hidden := Hidden p; Containers := Containers p; Services := Services p;
     CreatedAt := CreatedAt p; UpdatedAt := now |}.

(** *** applyProtection *)

(** The loop over [proj.Containers]: the container name is tried before
    its image, the first hit returns. *)
Fixpoint protectByContainers (lib : Lib) (containers : list Container)
    (proj : Project) : Project :=
  match containers with
  | [] => proj
  | ctr :: rest =>
      let '(protected, reason) := patterns.IsProtectedByPattern lib (ctrName ctr) in
      if protected then setProtection true reason proj
      else
        let '(protected, reason) := patterns.IsProtectedByPattern lib (Image ctr) in
        if protected then setProtection true reason proj
        else protectByContainers lib rest proj
  end.

Definition applyProtection (lib : Lib) (m : Manager) (proj : Project) : Project :=
  if Protected proj then proj
  else if match protection m with
          | Some _ => IsProtected lib (protection m) (Path proj)
          | None => false
          end
  then setProtection true ProtectionUserMarked proj
  else protectByContainers lib (Containers proj) proj.

(** *** Refresh *)

(** What the daemon and the compose binary answer during one call:
    [GetContainersByComposeProject] ([None] is its error), the project
    name [GetComposeProjectName] resolves for a definition file, whether
    [GetAllPreferences] fails and which rows it delivers, the outcome of a
    compose subcommand on a definition file ([Some output] is a failure
    with its error output), and the clock. *)
Record Daemon := {
  containersByProject : option (gmap string (list Container));
  GetComposeProjectName : string -> string;
  preferencesFail : bool;
  preferencesDelivered : string -> bool;
  runCompose : string -> list string -> option string;
  now : Time
}.

(** The containers of a project and its status, as both [Refresh] and
    [refreshProject] compute them. *)
Definition attach (d : Daemon) (containers : gmap string (list Container))
    (proj : Project) : Project :=
  let projectName := GetComposeProjectName d (ComposeFilePath proj) in
  match containers !! projectName with
  | Some cs => setContainers cs (status.determineProjectStatus cs) proj
  | None => setContainers [] StatusStopped proj
  end.

(** The body of the loop over [result.Projects]: [old] is [m.projects],
    read but not written during the pass; the object behind [proj] is
    updated in place and entered in [newProjects]. *)
Definition refreshOne (lib : Lib) (m : Manager) (d : Daemon)
    (containers : gmap string (list Container))
    (prefs : option (gmap string ProjectPreference))
    (old : gmap string ptr)
    (acc : list Project * gmap string ptr) (proj : ptr)
    : list Project * gmap string ptr :=
  let '(h, newProjects) := acc in
  match h !! proj with
  | None => acc
  | Some p =>
      let p :=
        match old !! ID p with
        | Some existing =>
            match h !! existing with
            | Some e => setProtection (Protected e) (ProtectionReason_ e) p
            | None => p
            end
        | None => p
        end in
      let p :=
        match prefs with
        | Some prefs =>
            match prefs !! ID p with
            | Some pref =>
                setHidden (prefHidden pref) (setDisplayName (prefDisplayName pref) p)
            | None => p
            end
        | None => p
        end in
      let p := attach d containers p in
      let p := applyProtection lib m p in
      let p := setUpdatedAt (now d) p in
      (<[proj := p]> h, <[ID p := proj]> newProjects)
  end.

Definition Refresh (lib : Lib) (m : Manager) (env : finder.ScanEnv) (d : Daemon)
    (st : World) : World * option Error :=
  let '(st, result, ok) := finder.Scan lib env st in
  if negb ok then (st, Some ErrScanning)
  else
    match containersByProject d with
    | None => (st, Some ErrGettingContainers)
    | Some containers =>
        let prefs :=
          if hasStore m
          then store.GetAllPreferences (preferencesFail d) (preferencesDelivered d)
                 (table st)
          else None in
        let '(h, newProjects) :=
          fold_left (refreshOne lib m d containers prefs (projects st))
            result (objects st, ∅) in
        (withProjects newProjects (withObjects h st), None)
    end.

End manager.

(** *** manager.go: listing, lifecycle and preference operations *)

Module ops.

Import manager.

(** The zero [model.Project], read through a pointer that names no
    object; pointers held by the manager always name one. *)
Definition zeroProject : Project :=
  {| ID := ""; Name := ""; DisplayName := ""; Path := ""; ComposeFile := "";
     ComposeFilePath := ""; Environment_ := EnvUnknown; Status := StatusUnknown;
     Protected := false; ProtectionReason_ := ""; Hidden := false;
     Containers := []; Services := []; CreatedAt := 0; UpdatedAt := 0 |}.

Definition deref (h : list Project) (p : ptr) : Project :=
  default zeroProject (h !! p).

(** Go's [>] on strings. *)
Definition gtString (a b : string) : bool :=
  match String.compare a b with Gt => true | _ => false end.

(** The comparison of the sorting loop of [ListProjects]. *)
Definition swapNeeded (a b : Project) : bool :=
  if gtString (Name a) (Name b) then true
  else if String.eqb (Name a) (Name b)
  then gtString (ComposeFile a) (ComposeFile b)
  else false.

Section Sort.
Context {A : Type} (swap : A -> A -> bool).

(** The inner loop [for j := ...; j < len(projects); j++] with [n]
    iterations left. *)
Fixpoint innerLoop (i j n : nat) (projects : list A) : list A :=
  match n with
  | O => projects
  | S n' =>
      let projects :=
        match projects !! i, projects !! j with
        | Some a, Some b =>
            if swap a b then <[j := a]> (<[i := b]> projects) else projects
        | _, _ => projects
        end in
      innerLoop i (S j) n' projects
  end.

(** The outer loop [for i := ...; i < len(projects); i++] with [n]
    iterations left. *)
Fixpoint outerLoop (i n : nat) (projects : list A) : list A :=
  match n with
  | O => projects
  | S n' =>
      outerLoop (S i) n'
        (innerLoop i (S i) (length projects - S i) projects)
  end.

Definition sortLoop (projects : list A) : list A :=
  outerLoop 0 (length projects) projects.
End Sort.

(** [ListProjects]: [order] is the sequence in which [range m.projects]
    yields the values of the map, which the language leaves open. *)
Definition ListProjects (order : list ptr) (st : World) : list ptr :=
  sortLoop (fun a b => swapNeeded (deref (objects st) a) (deref (objects st) b))
    order.

Definition GetProject (id : string) (st : World) : Error + ptr :=
  match projects st !! id with
  | Some proj => inr proj
  | None => inl (ErrNotFound id)
  end.

(** [runComposeCommand]: the invocation is recorded, the daemon gives its
    outcome. *)
Definition runComposeCommand (d : Daemon) (composePath : string)
    (args : list string) (st : World) : World * option string :=
  (emit (EvCompose composePath args) st, runCompose d composePath args).

Definition ComposeUp (d : Daemon) (composePath : string) :=
  runComposeCommand d composePath ["up"; "-d"; "--remove-orphans"].

Definition ComposeDown (d : Daemon) (composePath : string) :=
  runComposeCommand d composePath ["down"].

Definition ComposeRestart (d : Daemon) (composePath : string) :=
  runComposeCommand d composePath ["restart"].

Definition refreshProject (d : Daemon) (id : string) (st : World)
    : World * option Error :=
  match containersByProject d with
  | None => (st, Some ErrDocker)
  | Some containers =>
      match projects st !! id with
      | None => (st, None)
      | Some proj =>
          let p := deref (objects st) proj in
          let p := attach d containers p in
          let p := setUpdatedAt (now d) p in
          (withObjects (<[proj := p]> (objects st)) st, None)
      end
  end.

Definition StartProject (d : Daemon) (id : string) (st : World)
    : World * option Error :=
  match GetProject id st with
  | inl err => (st, Some err)
  | inr proj =>
      let p := deref (objects st) proj in
      let '(st, failed) := ComposeUp d (ComposeFilePath p) st in
      match failed with
      | Some output => (st, Some (ErrStarting (Name p) output))
      | None => refreshProject d id st
      end
  end.

Definition StopProject (d : Daemon) (id : string) (force : bool) (st : World)
    : World * option Error :=
  match GetProject id st with
  | inl err => (st, Some err)
  | inr proj =>
      let p := deref (objects st) proj in
      if Protected p && negb force
      then (st, Some (ErrProtectedStop (Name p) (ProtectionReason_ p)))
      else
        let '(st, failed) := ComposeDown d (ComposeFilePath p) st in
        match failed with
        | Some output => (st, Some (ErrStopping (Name p) output))
        | None => refreshProject d id st
        end
  end.

Definition RestartProject (d : Daemon) (id : string) (st : World)
    : World * option Error :=
  match GetProject id st with
  | inl err => (st, Some err)
  | inr proj =>
      let p := deref (objects st) proj in
      if Protected p
      then (st, Some (ErrProtectedRestart (Name p) (ProtectionReason_ p)))
      else
        let '(st, failed) := ComposeRestart d (ComposeFilePath p) st in
        match failed with
        | Some output => (st, Some (ErrRestarting (Name p) output))
        | None => refreshProject d id st
        end
  end.

Definition SetProjectProtection (id : string) (protected : bool)
    (reason : ProtectionReason) (now : Time) (st : World)
    : World * option Error :=
  match projects st !! id with
  | None => (st, Some (ErrNotFound id))
  | Some proj =>
      let p := deref (objects st) proj in
      let p := setProtection protected (if protected then reason else "") p in
      let p := setUpdatedAt now p in
      (withObjects (<[proj := p]> (objects st)) st, None)
  end.

(** [dbFail] is the error the database gives to the store's write, if it
    gives one. *)
Definition SetProjectDisplayName (m : Manager) (dbFail : option string)
    (id displayName : string) (now : Time) (st : World)
    : World * option Error :=
  match projects st !! id with
  | None => (st, Some (ErrNotFound id))
  | Some proj =>
      let '(t, err) :=
        if hasStore m then store.SetDisplayName dbFail id displayName (table st)
        else (table st, None) in
      match err with
      | Some e => (withTable t st, Some (ErrSavingDisplayName e))
      | None =>
          let p := deref (objects st) proj in
          let p := setDisplayName displayName p in
          let p := setUpdatedAt now p in
          (withObjects (<[proj := p]> (objects st)) (withTable t st), None)
      end
  end.

Definition SetProjectHidden (m : Manager) (dbFail : option string)
    (id : string) (hidden : bool) (now : Time) (st : World)
    : World * option Error :=
  match projects st !! id with
  | None => (st, Some (ErrNotFound id))
  | Some proj =>
      let '(t, err) :=
        if hasStore m then store.SetHidden dbFail id hidden (table st)
        else (table st, None) in
      match err with
      | Some e => (withTable t st, Some (ErrSavingHidden e))
      | None =>
          let p := deref (objects st) proj in
          let p := setHidden hidden p in
          let p := setUpdatedAt now p in
          (withObjects (<[proj := p]> (objects st)) (withTable t st), None)
      end
  end.

End ops.

(** ** stats.go *)

Module stats.

(** The fields of [container.StatsResponse] that the CPU computation
    reads; the counters are [uint64], [OnlineCPUs] is [uint32]. *)
Record StatsResponse := {
  TotalUsage : Z;
  PercpuUsage : list Z;
  SystemUsage : Z;
  OnlineCPUs : Z
}.

Definition isZero (x : float) : bool := PrimFloat.eqb x 0.

Definition calculateCPUPercent (prev : option StatsResponse)
    (curr : option StatsResponse) : float :=
  match prev, curr with
  | Some prev, Some curr =>
      let cpuDelta := Go.float64 (Go.sub64 (TotalUsage curr) (TotalUsage prev)) in
      let systemDelta := Go.float64 (Go.sub64 (SystemUsage curr) (SystemUsage prev)) in
      if PrimFloat.ltb 0 systemDelta && PrimFloat.ltb 0 cpuDelta
      then
        let cpuCount := Go.float64 (OnlineCPUs curr) in
        let cpuCount :=
          if isZero cpuCount
          then Go.float64 (Z.of_nat (length (PercpuUsage curr)))
          else cpuCount in
        let cpuCount := if isZero cpuCount then 1%float else cpuCount in
        ((cpuDelta / systemDelta) * cpuCount * 100)%float
      else 0%float
  | _, _ => 0%float
  end.

End stats.

(** ** client.go and hub.go *)

Module websocket.

(** The capacity of a client's [send] channel. *)
Definition sendCapacity : nat := 256.

(** A [*Client]: its subscription map, the messages waiting in the [send]
    channel, and whether the channel has been closed. *)
Record Client := {
  subscriptions : gmap string bool;
  send : list string;
  closed : bool
}.

Definition NewClient : Client :=
  {| subscriptions := ∅; send := []; closed := false |}.

Definition Subscribe (projectID : string) (c : Client) : Client :=
  {| subscriptions := <[projectID := true]> (subscriptions c);
     send := send c; closed := closed c |}.

Definition Unsubscribe (projectID : string) (c : Client) : Client :=
  {| subscriptions := delete projectID (subscriptions c);
     send := send c; closed := closed c |}.

Definition IsSubscribed (projectID : string) (c : Client) : bool :=
  if (size (subscriptions c) =? 0)%nat then true
  else default false (subscriptions c !! projectID).

(** [select { case client.send <- data: ... default: ... }]: the send goes
    through when the channel has room. *)
Definition trySend (data : string) (c : Client) : option Client :=
  if (length (send c) <? sendCapacity)%nat
  then Some {| subscriptions := subscriptions c; send := send c ++ [data];
               closed := closed c |}
  else None.

Definition close (c : Client) : Client :=
  {| subscriptions := subscriptions c; send := send c; closed := true |}.

(** The hub: the client objects by address, and [Hub.clients]. *)
Record Hub := {
  clientObjects : list Client;
  clients : gmap nat bool
}.

(** The clients in the order a [range h.clients] loop visits them. *)
Definition ranged (h : Hub) : list nat := (map_to_list (clients h)).*1.

(** The body of the loop of [BroadcastToSubscribers] for one client. *)
Definition deliverToSubscriber (projectID data : string)
    (objs : list Client) (client : nat) : list Client :=
  match objs !! client with
  | Some c =>
      if IsSubscribed projectID c
      then match trySend data c with
           | Some c' => <[client := c']> objs
           | None => objs
           end
      else objs
  | None => objs
  end.

Definition BroadcastToSubscribers (projectID data : string) (h : Hub) : Hub :=
  {| clientObjects :=
       fold_left (deliverToSubscriber projectID data) (ranged h) (clientObjects h);
     clients := clients h |}.

(** The body of the [broadcast] case of [Run] for one client: a client
    whose channel is full is closed and removed. *)
Definition deliverOrDrop (data : string) (h : Hub) (client : nat) : Hub :=
  match clientObjects h !! client with
  | Some c =>
      match trySend data c with
      | Some c' =>
          {| clientObjects := <[client := c']> (clientObjects h);
             clients := clients h |}
      | None =>
          {| clientObjects := <[client := close c]> (clientObjects h);
             clients := delete client (clients h) |}
      end
  | None => h
  end.

(** What the event loop of [Run] takes from its channels: the cancelled
    context, a client to register or unregister, a message that
    [Hub.Broadcast] queued. *)
Inductive Request :=
  | Done
  | Register (client : nat)
  | Unregister (client : nat)
  | Broadcast (message : string).

(** One turn of the [select] of [Run]; after [Done] the loop returns. *)
Definition Run (r : Request) (h : Hub) : Hub :=
  match r with
  | Done =>
      {| clientObjects :=
           fold_left (fun objs client => alter close client objs) (ranged h)
             (clientObjects h);
         clients := ∅ |}
  | Register client =>
      {| clientObjects := clientObjects h;
         clients := <[client := true]> (clients h) |}
  | Unregister client =>
      match clients h !! client with
      | Some _ =>
          {| clientObjects := alter close client (clientObjects h);
             clients := delete client (clients h) |}
      | None => h
      end
  | Broadcast message => fold_left (deliverOrDrop message) (ranged h) h
  end.

End websocket.

(** ** An instance of the library functions for closed examples

    The examples below run the definitions on ASCII text and on cleaned,
    absolute Unix paths without glob metacharacters.  On such inputs
    [strings.ToLower] changes the letters [A-Z] only, a [range] loop yields
    one rune per byte, [filepath.Base], [filepath.Ext] and [filepath.Dir] cut
    at the last separator, [filepath.Clean] changes nothing and
    [filepath.Match] is equality.  SHA-256 is not computed: the examples
    never compare digests of different paths, and the stand-in tags the
    path itself. *)

Module sample.

Definition lowerByte (c : ascii) : ascii :=
  let n := N_of_ascii c in
  if ((65 <=? n) && (n <=? 90))%N then ascii_of_N (n + 32) else c.

Definition ToLower (s : string) : string :=
  string_of_list_ascii (map lowerByte (list_ascii_of_string s)).

Definition runesOf (s : string) : list Go.rune :=
  map (fun c => Z.of_N (N_of_ascii c)) (list_ascii_of_string s).

Definition isSlash (c : ascii) : bool := Ascii.eqb c "/".

(** The reversed path up to its last separator, and what follows it. *)
Fixpoint cutRev (r : list ascii) (tail : list ascii) : list ascii * list ascii :=
  match r with
  | [] => ([], tail)
  | c :: r' => if isSlash c then (r, tail) else cutRev r' (c :: tail)
  end.

Fixpoint dropSlashes (r : list ascii) : list ascii :=
  match r with
  | c :: r' => if isSlash c then dropSlashes r' else r
  | [] => []
  end.

Definition Base (path : string) : string :=
  if String.eqb path "" then "."
  else
    let '(_, name) := cutRev (dropSlashes (rev (list_ascii_of_string path))) [] in
    if (length name =? 0)%nat then "/" else string_of_list_ascii name.

Definition Dir (path : string) : string :=
  let '(front, _) := cutRev (rev (list_ascii_of_string path)) [] in
  match front with
  | [] => "."
  | _ :: front' =>
      match dropSlashes front' with
      | [] => "/"
      | d => string_of_list_ascii (rev d)
      end
  end.

Fixpoint extRev (r : list ascii) (tail : list ascii) : list ascii :=
  match r with
  | [] => []
  | c :: r' =>
      if isSlash c then []
      else if Ascii.eqb c "." then c :: tail
      else extRev r' (c :: tail)
  end.

Definition Ext (path : string) : string :=
  string_of_list_ascii (extRev (rev (list_ascii_of_string path)) []).

Definition lib : Lib :=
  {| filepath_Dir := Dir;
     filepath_Base := Base;
     filepath_Ext := Ext;
     filepath_Clean := fun path => path;
     filepath_Match := fun pattern name => Some (String.eqb pattern name);
     strings_ToLower := ToLower;
     runes := runesOf;
     sha256_hex := fun n data => String.append "sha256:" data |}.

End sample.

(** ** patterns.go: classification by file name *)

Module classify.

Import patterns.

Definition detectEnvironmentFromName (name : string) : Environment :=
  if existsb (containsPattern name) productionPatterns then EnvProduction
  else if existsb (containsPattern name) developmentPatterns then EnvDevelopment
  else EnvUnknown.

Definition isBaseComposeFile (filename : string) : bool :=
  existsb (String.eqb filename)
    ["compose.yml"; "compose.yaml"; "docker-compose.yml"; "docker-compose.yaml"].

Record ComposeFileInfo := {
  Filename : string;
  infoEnvironment : Environment;
  IsOverride : bool;
  IsBase : bool
}.

Definition ClassifyComposeFile (lib : Lib) (filename : string) : ComposeFileInfo :=
  let lower := strings_ToLower lib filename in
  let withoutExt := Go.TrimSuffix lower (filepath_Ext lib lower) in
  {| Filename := filename;
     infoEnvironment := detectEnvironmentFromName withoutExt;
     IsOverride := Go.Contains lower "override";
     IsBase := isBaseComposeFile lower |}.

End classify.

(** ** finder.go: the directories and files of the walk *)

Module walk.

Definition defaultExcludes : list string :=
  ["node_modules"; ".git"; "vendor"; "__pycache__"; ".venv"; "venv"; ".cache";
   ".npm"; ".yarn"; "dist"; "build"; ".next"; ".nuxt"; "target"].

(** The exclude list [NewScanner] stores. *)
Definition NewScanner (exclude : list string) : list string :=
  if (length exclude =? 0)%nat then defaultExcludes else exclude.

(** The loop [for _, exc := range s.exclude] that returns on the first
    equal name. *)
Fixpoint listed (name : string) (exclude : list string) : bool :=
  match exclude with
  | [] => false
  | exc :: rest => if String.eqb name exc then true else listed name rest
  end.

Definition shouldExcludeDir (exclude : list string) (name : string) : bool :=
  if Go.HasPrefix name "." && negb (String.eqb name ".")
     && negb (String.eqb name "..")
  then
    if listed name exclude then true
    else if negb (String.eqb name ".docker") && negb (String.eqb name ".devcontainer")
    then true
    else listed name exclude
  else listed name exclude.

(** [ClearCache]. *)
Definition ClearCache (st : World) : World := withCache ∅ st.

End walk.

(** ** protected.go: changing the policy *)

Module policy.

Import protected.

(** The loop of [AddProtectedProject]: is a path with the same normal form
    already listed? *)
Fixpoint listedPath (lib : Lib) (normalized : string) (paths : list string) : bool :=
  match paths with
  | [] => false
  | existing :: rest =>
      if String.eqb (normalizePath lib existing) normalized then true
      else listedPath lib normalized rest
  end.

Definition AddProtectedProject (lib : Lib) (projectPath : string)
    (p : ProtectionConfig) : ProtectionConfig :=
  let normalized := normalizePath lib projectPath in
  if listedPath lib normalized (Projects p) then p
  else {| Patterns := Patterns p; Projects := Projects p ++ [projectPath] |}.

(** The loop of [RemoveProtectedProject], appending the paths it keeps. *)
Fixpoint keepOtherPaths (lib : Lib) (normalized : string) (paths filtered : list string)
    : list string :=
  match paths with
  | [] => filtered
  | existing :: rest =>
      if negb (String.eqb (normalizePath lib existing) normalized)
      then keepOtherPaths lib normalized rest (filtered ++ [existing])
      else keepOtherPaths lib normalized rest filtered
  end.

Definition RemoveProtectedProject (lib : Lib) (projectPath : string)
    (p : ProtectionConfig) : ProtectionConfig :=
  let normalized := normalizePath lib projectPath in
  {| Patterns := Patterns p;
     Projects := keepOtherPaths lib normalized (Projects p) [] |}.

Fixpoint listedPattern (pattern : string) (patterns : list string) : bool :=
  match patterns with
  | [] => false
  | existing :: rest =>
      if String.eqb existing pattern then true else listedPattern pattern rest
  end.

Definition AddPattern (pattern : string) (p : ProtectionConfig) : ProtectionConfig :=
  if listedPattern pattern (Patterns p) then p
  else {| Patterns := Patterns p ++ [pattern]; Projects := Projects p |}.

Fixpoint keepOtherPatterns (pattern : string) (patterns filtered : list string)
    : list string :=
  match patterns with
  | [] => filtered
  | existing :: rest =>
      if negb (String.eqb existing pattern)
      then keepOtherPatterns pattern rest (filtered ++ [existing])
      else keepOtherPatterns pattern rest filtered
  end.

Definition RemovePattern (pattern : string) (p : ProtectionConfig) : ProtectionConfig :=
  {| Patterns := keepOtherPatterns pattern (Patterns p) [];
     Projects := Projects p |}.

End policy.

(** ** store.go: reading and deleting rows *)

Module prefs.

(** [GetPreference]: [(nil, nil)] when there is no row, the error of the
    database when it has one. *)
Definition GetPreference (fail : option string) (projectID : string)
    (t : gmap string ProjectPreference)
    : option ProjectPreference * option string :=
  match fail with
  | Some err => (None, Some err)
  | None => (t !! projectID, None)
  end.

Definition DeletePreference (fail : option string) (projectID : string)
    (t : gmap string ProjectPreference)
    : gmap string ProjectPreference * option string :=
  match fail with
  | Some err => (t, Some err)
  | None => (delete projectID t, None)
  end.

End prefs.

(** ** containers.go: grouping by compose project *)

Module containers.

(** The body of the loop of [GetContainersByComposeProject]. *)
Definition groupOne (grouped : gmap string (list Container)) (ctr : Container)
    : gmap string (list Container) :=
  let projectName := default "" (Labels ctr !! "com.docker.compose.project") in
  let projectName :=
    if String.eqb projectName "" then "_standalone" else projectName in
  <[projectName := default [] (grouped !! projectName) ++ [ctr]]> grouped.

(** [GetContainersByComposeProject] on the containers [ListContainers]
    returned. *)
Definition GetContainersByComposeProject (listed : list Container)
    : gmap string (list Container) :=
  fold_left groupOne listed ∅.

End containers.

(** ** stats.go: the collector *)

Module collector.

Import stats.

Record NetworkStats := {
  RxBytes : Z;
  TxBytes : Z
}.

Record BlkioStatEntry := {
  Op : string;
  Value : Z
}.

(** A decoded [container.StatsResponse]: the CPU counters of
    [stats.StatsResponse] and the other fields [calculateStats] reads, all
    [uint64].  [Networks] lists the entries of the map in the order a
    [range] loop visits them. *)
Record Sample := {
  CPUStats : StatsResponse;
  MemUsage : Z;
  MemLimit : Z;
  PidsCurrent : Z;
  Networks : list (string * NetworkStats);
  IoServiceBytesRecursive : list BlkioStatEntry
}.

(** [+=] on [uint64]. *)
Definition add64 (a b : Z) : Z := Go.wrap64 (a + b).

Definition calculateNetworkIO (s : Sample) : Z * Z :=
  fold_left
    (fun (acc : Z * Z) (entry : string * NetworkStats) =>
       (add64 acc.1 (RxBytes entry.2), add64 acc.2 (TxBytes entry.2)))
    (Networks s) (0, 0).

Definition calculateBlockIO (s : Sample) : Z * Z :=
  fold_left
    (fun (acc : Z * Z) (bio : BlkioStatEntry) =>
       if String.eqb (Op bio) "read" || String.eqb (Op bio) "Read"
       then (add64 acc.1 (Value bio), acc.2)
       else if String.eqb (Op bio) "write" || String.eqb (Op bio) "Write"
       then (acc.1, add64 acc.2 (Value bio))
       else acc)
    (IoServiceBytesRecursive s) (0, 0).

(** [calculateStats]; [now] is what [time.Now()] returns. *)
Definition calculateStats (now : Time) (prev curr : option Sample)
    : option ContainerStats :=
  match curr with
  | None => None
  | Some c =>
      Some {| CPUPercent := calculateCPUPercent (CPUStats <$> prev) (Some (CPUStats c));
              MemoryUsage := MemUsage c;
              MemoryLimit := MemLimit c;
              MemoryPercent :=
                if 0 <? MemLimit c
                then (Go.float64 (MemUsage c) / Go.float64 (MemLimit c) * 100)%float
                else 0%float;
              NetworkRx := (calculateNetworkIO c).1;
              NetworkTx := (calculateNetworkIO c).2;
              BlockRead := (calculateBlockIO c).1;
              BlockWrite := (calculateBlockIO c).2;
              PIDs := PidsCurrent c;
              Timestamp := now |}
  end.

(** [GetStats] on [s.prevStats]: [answer] is the sample the daemon
    returned and the decoder read, [None] when either failed. *)
Definition GetStats (now : Time) (answer : option Sample) (containerID : string)
    (prevStats : gmap string Sample)
    : gmap string Sample * option ContainerStats :=
  match answer with
  | None => (prevStats, None)
  | Some stats =>
      (<[containerID := stats]> prevStats,
       calculateStats now (prevStats !! containerID) (Some stats))
  end.

Definition ClearPreviousStats (containerID : string)
    (prevStats : gmap string Sample) : gmap string Sample :=
  delete containerID prevStats.

(** The loop of [Manager.GetProjectStats] over [proj.Containers]: only
    running containers are asked, a failed call is skipped. *)
Definition statsOne (now : Time) (answer : string -> option Sample)
    (acc : gmap string Sample * gmap string ContainerStats) (ctr : Container)
    : gmap string Sample * gmap string ContainerStats :=
  if negb (String.eqb (State ctr) "running") then acc
  else
    match GetStats now (answer (ctrID ctr)) (ctrID ctr) acc.1 with
    | (prevStats, Some ctrStats) => (prevStats, <[ctrID ctr := ctrStats]> acc.2)
    | (prevStats, None) => (prevStats, acc.2)
    end.

(** [Manager.GetProjectStats]: the collector's map after the call, and the
    error or the stats by container ID. *)
Definition GetProjectStats (now : Time) (answer : string -> option Sample)
    (id : string) (st : World) (prevStats : gmap string Sample)
    : gmap string Sample * (manager.Error + gmap string ContainerStats) :=
  match ops.GetProject id st with
  | inl err => (prevStats, inl err)
  | inr proj =>
      let '(prevStats, stats) :=
        fold_left (statsOne now answer)
          (Containers (ops.deref (objects st) proj)) (prevStats, ∅) in
      (prevStats, inr stats)
  end.

End collector.

(** ** client.go: messages from the browser *)

Module protocol.

Import websocket.

(** A decoded JSON value as [encoding/json] stores it in an [any]: a
    string, an array, or anything else (null, a number, a boolean, an
    object). *)
#[warnings="-register-all"]
Inductive JSON :=
  | JString (s : string)
  | JArray (items : list JSON)
  | JOther.

(** The fields of [Message] that [handleMessage] reads. *)
Record Message := {
  Type_ : string;
  Payload : JSON
}.

Definition MsgSubscribe : string := "subscribe".
Definition MsgUnsubscribe : string := "unsubscribe".

(** The body of the loop over an array payload. *)
Definition subscribeItem (c : Client) (id : JSON) : Client :=
  match id with
  | JString projectID => Subscribe projectID c
  | _ => c
  end.

(** [handleMessage] on what [json.Unmarshal] decoded; [None] is its
    error. *)
Definition handleMessage (decoded : option Message) (c : Client) : Client :=
  match decoded with
  | None => c
  | Some msg =>
      if String.eqb (Type_ msg) MsgSubscribe then
        match Payload msg with
        | JString projectID => Subscribe projectID c
        | JArray ids => fold_left subscribeItem ids c
        | JOther => c
        end
      else if String.eqb (Type_ msg) MsgUnsubscribe then
        match Payload msg with
        | JString projectID => Unsubscribe projectID c
        | _ => c
        end
      else c
  end.

End protocol.

(** ** handlers.go *)

Module api.

Import manager.

(** What a handler writes: the project [GetProject] returned ([nil] when
    it failed), or the text of an error. *)
Inductive Body :=
  | BodyProject (proj : option nat)
  | BodyError (err : Error)
  | BodyText (message : string).

(** [proj, _ := h.manager.GetProject(id)]. *)
Definition lookupProject (id : string) (st : World) : option nat :=
  match ops.GetProject id st with
  | inr proj => Some proj
  | inl _ => None
  end.

Definition StartProject (d : Daemon) (id : string) (st : World)
    : World * (Z * Body) :=
  let '(st, err) := ops.StartProject d id st in
  match err with
  | Some e => (st, (500, BodyError e))
  | None => (st, (200, BodyProject (lookupProject id st)))
  end.

(** [forceParam] is the value of the query parameter [force], empty when
    it is absent. *)
Definition StopProject (d : Daemon) (id forceParam : string) (st : World)
    : World * (Z * Body) :=
  let force := String.eqb forceParam "true" in
  let '(st, err) := ops.StopProject d id force st in
  match err with
  | Some e =>
      let status :=
        if negb force then
          match lookupProject id st with
          | Some proj =>
              if Protected (ops.deref (objects st) proj) then 403 else 500
          | None => 500
          end
        else 500 in
      (st, (status, BodyError e))
  | None => (st, (200, BodyProject (lookupProject id st)))
  end.

Definition RestartProject (d : Daemon) (id : string) (st : World)
    : World * (Z * Body) :=
  let '(st, err) := ops.RestartProject d id st in
  match err with
  | Some e => (st, (500, BodyError e))
  | None => (st, (200, BodyProject (lookupProject id st)))
  end.

(** [decoded] is the request body as the JSON decoder read it: the fields
    [protected] and [reason], or [None] when decoding failed. *)
Definition SetProjectProtection (id : string) (decoded : option (bool * string))
    (now : Time) (st : World) : World * (Z * Body) :=
  match decoded with
  | None => (st, (400, BodyText "invalid request body"))
  | Some (protected, reqReason) =>
      let reason :=
        if negb (String.eqb reqReason "") then reqReason
        else ProtectionUserMarked in
      let '(st, err) := ops.SetProjectProtection id protected reason now st in
      match err with
      | Some e => (st, (404, BodyError e))
      | None => (st, (200, BodyProject (lookupProject id st)))
      end
  end.

End api.

(** ** system.go: disk usage *)

Module storage.

(** The fields of [types.DiskUsage] that [GetStorageInfo] reads; sizes and
    counts are [int64]. *)
Record ImageSummary := {
  imgID : string;
  imgSize : Z;
  imgContainers : Z;
  RepoTags : list string
}.

Record VolumeUsage := {
  usageSize : Z;
  RefCount : Z
}.

Record Volume := {
  volName : string;
  volDriver : string;
  UsageData : option VolumeUsage
}.

Record CacheRecord := {
  cacheID : string;
  cacheType : string;
  cacheSize : Z;
  cacheInUse : bool
}.

Record DiskUsage := {
  Images : list ImageSummary;
  ContainerSizes : list Z;      (* [SizeRw] of each container *)
  Volumes : list Volume;
  BuildCache : list CacheRecord
}.

Record ImageInfo := {
  infoID : string;
  Repository : string;
  Tag : string;
  infoSize : Z;
  InUse : bool
}.

Record VolumeInfo := {
  volInfoName : string;
  volInfoDriver : string;
  volInfoSize : Z;
  volInUse : bool
}.

Record CacheInfo := {
  cacheInfoID : string;
  cacheInfoType : string;
  cacheInfoSize : Z;
  cacheInfoInUse : bool
}.

Record StorageInfo := {
  ImagesSize : Z;
  ContainersSize : Z;
  VolumesSize : Z;
  BuildCacheSize : Z;
  TotalSize : Z;
  Reclaimable : Z;
  DetailImages : list ImageInfo;
  DetailVolumes : list VolumeInfo;
  DetailBuildCache : list CacheInfo
}.

(** [uint64(x)] on an [int64]. *)
Definition uint64 (x : Z) : Z := Go.wrap64 x.

Definition add64 (a b : Z) : Z := Go.wrap64 (a + b).

(** [strings.Split(s, ":")]: [current] is the part being read. *)
Fixpoint splitColon (s : list ascii) (current : list ascii) : list string :=
  match s with
  | [] => [string_of_list_ascii current]
  | c :: rest =>
      if Ascii.eqb c ":"
      then string_of_list_ascii current :: splitColon rest []
      else splitColon rest (current ++ [c])
  end.

(** The repository and the tag shown for an image. *)
Definition repoAndTag (repoTags : list string) : string * string :=
  match repoTags with
  | [] => ("<none>", "<none>")
  | repoTag :: _ =>
      match splitColon (list_ascii_of_string repoTag) [] with
      | [] => ("<none>", "<none>")
      | [repo] => (repo, "<none>")
      | repo :: tag :: _ => (repo, tag)
      end
  end.

Definition imageInfo (img : ImageSummary) : ImageInfo :=
  {| infoID := imgID img;
     Repository := (repoAndTag (RepoTags img)).1;
     Tag := (repoAndTag (RepoTags img)).2;
     infoSize := uint64 (imgSize img);
     InUse := 0 <? imgContainers img |}.

Definition volumeSize (vol : Volume) : Z :=
  match UsageData vol with
  | Some u => usageSize u
  | None => 0
  end.

Definition volumeInfo (vol : Volume) : VolumeInfo :=
  {| volInfoName := volName vol;
     volInfoDriver := volDriver vol;
     volInfoSize := uint64 (volumeSize vol);
     volInUse := match UsageData vol with
                 | Some u => 0 <? RefCount u
                 | None => false
                 end |}.

Definition cacheInfo (cache : CacheRecord) : CacheInfo :=
  {| cacheInfoID := cacheID cache;
     cacheInfoType := cacheType cache;
     cacheInfoSize := uint64 (cacheSize cache);
     cacheInfoInUse := cacheInUse cache |}.

(** A loop [for ... { acc += uint64(size) }]. *)
Definition sumSizes (sizes : list Z) : Z :=
  fold_left (fun acc size => add64 acc (uint64 size)) sizes 0.

(** [GetStorageInfo] on the answer of the daemon; [None] is its error. *)
Definition GetStorageInfo (usage : option DiskUsage) : option StorageInfo :=
  match usage with
  | None => None
  | Some usage =>
      let imagesSize := sumSizes (map imgSize (Images usage)) in
      let containersSize := sumSizes (ContainerSizes usage) in
      let volumesSize := sumSizes (map volumeSize (Volumes usage)) in
      let buildCacheSize := sumSizes (map cacheSize (BuildCache usage)) in
      let unusedImages :=
        sumSizes (map imgSize
                    (List.filter (fun img => imgContainers img =? 0) (Images usage))) in
      Some {| ImagesSize := imagesSize;
              ContainersSize := containersSize;
              VolumesSize := volumesSize;
              BuildCacheSize := buildCacheSize;
              TotalSize :=
                add64 (add64 (add64 imagesSize containersSize) volumesSize)
                  buildCacheSize;
              Reclaimable := add64 unusedImages buildCacheSize;
              DetailImages := map imageInfo (Images usage);
              DetailVolumes := map volumeInfo (Volumes usage);
              DetailBuildCache := map cacheInfo (BuildCache usage) |}
  end.

End storage.

(** ** Vocabulary of the properties *)

(** The coarse states of a container that the status distinguishes. *)
Definition running (c : Container) : Prop := State c = "running".

Definition terminal (c : Container) : Prop :=
  State c = "exited" \/ State c = "dead" \/ State c = "created".

(** How many containers satisfy a test. *)
Definition tally (f : Container -> bool) (cs : list Container) : Z :=
  Z.of_nat (length (filter (fun c => f c = true) cs)).




(** One pass of the inner sorting loop seen from its cell [i]: the value
    held there meets the later values in turn and is exchanged with each
    one that must come first.  The result is the value left in the cell and
    the later values as the pass leaves them. *)
Fixpoint sweep {A : Type} (swap : A -> A -> bool) (x : A) (later : list A)
    : A * list A :=
  match later with
  | [] => (x, [])
  | b :: later' =>
      if swap x b
      then let '(m, r) := sweep swap b later' in (m, x :: r)
      else let '(m, r) := sweep swap x later' in (m, b :: r)
  end.

(** The outer loop seen from the cells it has not fixed yet. *)
Fixpoint selection {A : Type} (swap : A -> A -> bool) (n : nat) (l : list A)
    : list A :=
  match n, l with
  | S n', x :: rest =>
      let '(m, r) := sweep swap x rest in m :: selection swap n' r
  | _, _ => l
  end.

(** Go's [<] and [<=] on strings. *)
Definition stringLt (a b : string) : Prop := String.compare a b = Lt.
Definition stringLe (a b : string) : Prop := String.compare a b <> Gt.

(** The listing order: by name, and by definition-file name among equal
    names. *)
Definition listedBefore (p q : Project) : Prop :=
  stringLt (Name p) (Name q) \/
  (Name p = Name q /\ stringLe (ComposeFile p) (ComposeFile q)).

(** A client subscribing to, or unsubscribing from, several projects, one
    call after the other. *)
Definition subscribeAll (ids : list string) (c : websocket.Client)
    : websocket.Client :=
  fold_left (fun c id => websocket.Subscribe id c) ids c.

Definition unsubscribeAll (ids : list string) (c : websocket.Client)
    : websocket.Client :=
  fold_left (fun c id => websocket.Unsubscribe id c) ids c.

(** The message appended to the queue of a client. *)
Definition enqueued (data : string) (c : websocket.Client) : websocket.Client :=
  {| websocket.subscriptions := websocket.subscriptions c;
     websocket.send := websocket.send c ++ [data];
     websocket.closed := websocket.closed c |}.

(** A client as a scoped broadcast leaves it. *)
Definition afterScoped (projectID data : string) (c : websocket.Client)
    : websocket.Client :=
  if websocket.IsSubscribed projectID c
     && (length (websocket.send c) <? websocket.sendCapacity)%nat
  then enqueued data c else c.

(** Every key of the map names an object that carries the key as its ID. *)
Definition names (m : gmap string ptr) (h : list Project) : Prop :=
  forall k l, m !! k = Some l -> exists p, h !! l = Some p /\ ID p = k.

(** The entry of [id], if the map has one, is protected for [reason]. *)
Definition guards (id : string) (reason : ProtectionReason)
    (m : gmap string ptr) (h : list Project) : Prop :=
  forall l, m !! id = Some l ->
    exists p, h !! l = Some p /\ Protected p = true /\ ProtectionReason_ p = reason.

(** The invariant of the manager's map: [Refresh] files every project
    under its own ID. *)
Definition keyed (st : World) : Prop := names (projects st) (objects st).

(** The manager holds project [id], protected for [reason]. *)
Definition protectedAs (id : string) (reason : ProtectionReason) (st : World)
    : Prop :=
  is_Some (projects st !! id) /\ guards id reason (projects st) (objects st).

(** The state of a process that has just started: nothing scanned, nothing
    cached, no project known; the preference table is what the database
    file holds. *)
Definition initial (t : gmap string ProjectPreference) : World :=
  {| objects := []; cache := ∅; projects := ∅; table := t; events := [] |}.

(** The calls that write to the manager's state. *)
Inductive Call :=
  | CallRefresh (env : finder.ScanEnv) (d : manager.Daemon)
  | CallStart (d : manager.Daemon) (id : string)
  | CallStop (d : manager.Daemon) (id : string) (force : bool)
  | CallRestart (d : manager.Daemon) (id : string)
  | CallSetProtection (id : string) (protected : bool)
      (reason : ProtectionReason) (now : Time)
  | CallSetDisplayName (dbFail : option string) (id displayName : string)
      (now : Time)
  | CallSetHidden (dbFail : option string) (id : string) (hidden : bool)
      (now : Time).

Definition run (lib : Lib) (m : manager.Manager) (c : Call) (st : World) : World :=
  match c with
  | CallRefresh env d => (manager.Refresh lib m env d st).1
  | CallStart d id => (ops.StartProject d id st).1
  | CallStop d id force => (ops.StopProject d id force st).1
  | CallRestart d id => (ops.RestartProject d id st).1
  | CallSetProtection id protected reason now =>
      (ops.SetProjectProtection id protected reason now st).1
  | CallSetDisplayName dbFail id displayName now =>
      (ops.SetProjectDisplayName m dbFail id displayName now st).1
  | CallSetHidden dbFail id hidden now =>
      (ops.SetProjectHidden m dbFail id hidden now st).1
  end.

Fixpoint runAll (lib : Lib) (m : manager.Manager) (calls : list Call)
    (st : World) : World :=
  match calls with
  | [] => st
  | c :: rest => runAll lib m rest (run lib m c st)
  end.

(** The scan of a refresh started in [st] finds a definition file whose
    project has the ID [id]. *)
Definition scanFinds (lib : Lib) (env : finder.ScanEnv) (id : string)
    (st : World) : bool :=
  let '(st1, found, _) := finder.Scan lib env st in
  existsb (fun l => match objects st1 !! l with
                    | Some p => String.eqb (ID p) id
                    | None => false
                    end) found.

(** A call that is not [SetProjectProtection] on [id]; a refresh counts
    when its scan finds [id]. *)
Definition implicitFor (lib : Lib) (id : string) (c : Call) (st : World) : bool :=
  match c with
  | CallRefresh env _ => scanFinds lib env id st
  | CallSetProtection id' _ _ _ => negb (String.eqb id' id)
  | _ => true
  end.

Fixpoint allImplicit (lib : Lib) (m : manager.Manager) (id : string)
    (calls : list Call) (st : World) : bool :=
  match calls with
  | [] => true
  | c :: rest =>
      implicitFor lib id c st && allImplicit lib m id rest (run lib m c st)
  end.

(** The group [GetContainersByComposeProject] files a container under. *)
Definition composeProjectOf (ctr : Container) : string :=
  match Labels ctr !! "com.docker.compose.project" with
  | Some name => if String.eqb name "" then "_standalone" else name
  | None => "_standalone"
  end.

(** [sub] occurs in [s] as a run of consecutive bytes. *)
Definition occursIn (sub s : string) : Prop :=
  exists a b, list_ascii_of_string s = a ++ list_ascii_of_string sub ++ b.

(** Every byte of [s] is below [RuneSelf]. *)
Definition isASCII (s : string) : bool :=
  forallb (fun b => Go.byte b <? Go.utf8.RuneSelf) (list_ascii_of_string s).

(** The cache entry of a path is settled when another parse of the path
    would leave the cache as it is: the entry is valid, or the file cannot
    be read, or it does not load with a service. *)
Definition settled (fs : finder.FileSystem) (path : string)
    (cached : option CachedProject) : bool :=
  match finder.stat fs path, finder.fileChecksum fs path with
  | Some modTime, Some checksum =>
      finder.cacheValid cached modTime checksum ||
      match finder.loadProject fs path with
      | finder.Loaded services => (length services =? 0)%nat
      | _ => true
      end
  | _, _ => true
  end.

(** Whether a parse of the path reaches [opts.LoadProject], given the
    path's cache entry. *)
Definition loadsAgain (fs : finder.FileSystem) (cached : gmap string CachedProject)
    (path : string) : bool :=
  match finder.stat fs path, finder.fileChecksum fs path with
  | Some modTime, Some checksum =>
      negb (finder.cacheValid (cached !! path) modTime checksum) &&
      match finder.loadProject fs path with
      | finder.OptionsError => false
      | _ => true
      end
  | _, _ => false
  end.

(** A container whose name or image the protection heuristics match. *)
Definition looksCritical (lib : Lib) (ctr : Container) : bool :=
  (patterns.IsProtectedByPattern lib (ctrName ctr)).1 ||
  (patterns.IsProtectedByPattern lib (Image ctr)).1.

(** What one turn of the loop of [Refresh] establishes for a project:
    the containers of its compose project, the status they give, the time
    of the pass, protection where the policy or the heuristics ask for it,
    and the stored preferences. *)
Definition reconciled (lib : Lib) (m : manager.Manager) (d : manager.Daemon)
    (containers : gmap string (list Container))
    (prefs : option (gmap string ProjectPreference)) (p : Project) : Prop :=
  Containers p =
    default [] (containers !! manager.GetComposeProjectName d (ComposeFilePath p)) /\
  Status p = status.determineProjectStatus (Containers p) /\
  UpdatedAt p = manager.now d /\
  (protected.IsProtected lib (manager.protection m) (Path p) = true ->
     Protected p = true) /\
  (existsb (looksCritical lib) (Containers p) = true -> Protected p = true) /\
  (forall pm pref, prefs = Some pm -> pm !! ID p = Some pref ->
     DisplayName p = prefDisplayName pref /\ Hidden p = prefHidden pref).

(** Every project object was built from a definition file the compose
    loader was called on. *)
Definition loaded (evs : list Event) (h : list Project) : Prop :=
  forall l p, h !! l = Some p -> In (EvLoadProject (ComposeFilePath p)) evs.

(** Every run of the compose binary is [up -d --remove-orphans], [down] or
    [restart] on a definition file the compose loader was called on. *)
Definition composed (evs : list Event) : Prop :=
  forall path args, In (EvCompose path args) evs ->
    In (EvLoadProject path) evs /\
    In args [["up"; "-d"; "--remove-orphans"]; ["down"]; ["restart"]].

Definition sourced (st : World) : Prop :=
  loaded (events st) (objects st) /\ composed (events st).

Definition isLoad (e : Event) : bool :=
  match e with EvLoadProject _ => true | EvCompose _ _ => false end.

(** The object behind [l] was allocated after the store held [n] objects,
    by a parse at [now]. *)
Definition parsedSince (lib : Lib) (now : Time) (n : nat) (h : list Project)
    (l : nat) : Prop :=
  (n <= l)%nat /\
  exists path services, h !! l = Some (finder.newProject lib path services now).

(** The sum of a list of counters. *)
Definition total (values : list Z) : Z := fold_right Z.add 0 values.

Definition isReadOp (bio : collector.BlkioStatEntry) : bool :=
  String.eqb (collector.Op bio) "read" || String.eqb (collector.Op bio) "Read".

Definition isWriteOp (bio : collector.BlkioStatEntry) : bool :=
  String.eqb (collector.Op bio) "write" || String.eqb (collector.Op bio) "Write".

(** A running container with the ID [cid] is among [cs]. *)
Definition asked (cs : list Container) (cid : string) : bool :=
  existsb (fun ctr => String.eqb (ctrID ctr) cid && String.eqb (State ctr) "running")
    cs.



(** The strings among the items of a JSON array. *)
Definition stringsOf (items : list protocol.JSON) : list string :=
  omap (fun item => match item with
                    | protocol.JString s => Some s
                    | _ => None
                    end) items.

(** The sizes the daemon reported are not negative and add up to less
    than 2^64. *)
Definition plainSizes (usage : storage.DiskUsage) : Prop :=
  Forall (Z.le 0) (map storage.imgSize (storage.Images usage)) /\
  Forall (Z.le 0) (storage.ContainerSizes usage) /\
  Forall (Z.le 0) (map storage.volumeSize (storage.Volumes usage)) /\
  Forall (Z.le 0) (map storage.cacheSize (storage.BuildCache usage)) /\
  total (map storage.imgSize (storage.Images usage))
  + total (storage.ContainerSizes usage)
  + total (map storage.volumeSize (storage.Volumes usage))
  + total (map storage.cacheSize (storage.BuildCache usage)) < 2 ^ 64.

(** The text holds no colon. *)
Definition colonFree (s : string) : Prop :=
  forallb (fun c => negb (Ascii.eqb c ":")) (list_ascii_of_string s) = true.

(** The entry [newProjects[proj.ID] = proj] for the object behind [l]
    whose IDs are [ids]. *)
Definition entered (ids : list string) (acc : gmap string nat) (l : nat)
    : gmap string nat :=
  match ids !! l with
  | Some id => <[id := l]> acc
  | None => acc
  end.

(** [project_id] is the primary key: a row is stored under its own ID. *)
Definition rowsKeyed (t : gmap string ProjectPreference) : Prop :=
  forall k row, t !! k = Some row -> prefProjectID row = k.

(** The messages appended to the queue of a client, in order. *)
Definition enqueuedAll (messages : list string) (c : websocket.Client)
    : websocket.Client :=
  fold_left (fun c message => enqueued message c) messages c.

(** The event loop takes the messages from its broadcast channel one after
    the other. *)
Definition broadcastAll (messages : list string) (h : websocket.Hub)
    : websocket.Hub :=
  fold_left (fun h message => websocket.Run (websocket.Broadcast message) h)
    messages h.

(** The same files, file system and cancellation, scanned at time [t]. *)
Definition scanAt (t : Time) (env : finder.ScanEnv) : finder.ScanEnv :=
  {| finder.yamlFiles := finder.yamlFiles env;
     finder.fs := finder.fs env;
     finder.scanNow := t;
     finder.cancelAt := finder.cancelAt env |}.

(** The same answers of the daemon, the compose binary and the store, given
    at time [t]. *)
Definition answersAt (t : Time) (d : manager.Daemon) : manager.Daemon :=
  {| manager.containersByProject := manager.containersByProject d;
     manager.GetComposeProjectName := manager.GetComposeProjectName d;
     manager.preferencesFail := manager.preferencesFail d;
     manager.preferencesDelivered := manager.preferencesDelivered d;
     manager.runCompose := manager.runCompose d;
     manager.now := t |}.

(** ** Sample data for closed examples *)

Module data.

Definition container (id name image state : string) : Container :=
  {| ctrID := id; ctrName := name; ServiceName := name; Image := image;
     ctrStatus := ""; State := state; Health := ""; Ports := [];
     Labels := ∅; Stats := None; ctrCreatedAt := 0; StartedAt := 0 |}.

(** Two raw samples of one container; between them the system counter
    went from 100 back to 50. *)
Definition earlierSample : stats.StatsResponse :=
  {| stats.TotalUsage := 0; stats.PercpuUsage := [];
     stats.SystemUsage := 100; stats.OnlineCPUs := 1 |}.

Definition laterSample : stats.StatsResponse :=
  {| stats.TotalUsage := 10; stats.PercpuUsage := [];
     stats.SystemUsage := 50; stats.OnlineCPUs := 1 |}.

(** A project object as the scanner built it from
    [/srv/blog/docker-compose.yml] and the manager later updated it. *)
Definition blog (protected : bool) (reason : ProtectionReason) : Project :=
  {| ID := "3f2a9c0d51b7e864"; Name := "blog"; DisplayName := "";
     Path := "/srv/blog"; ComposeFile := "docker-compose.yml";
     ComposeFilePath := "/srv/blog/docker-compose.yml";
     Environment_ := EnvDevelopment; Status := StatusStopped;
     Protected := protected; ProtectionReason_ := reason; Hidden := false;
     Containers := []; Services := ["web"]; CreatedAt := 1000; UpdatedAt := 1000 |}.

Definition blogPath : string := "/srv/blog/docker-compose.yml".

(** The scanner parsed the file when its modification time was 1000 and
    its checksum [c0ffee]; the manager holds the same object. *)
Definition blogWorld (protected : bool) (reason : ProtectionReason) : World :=
  {| objects := [blog protected reason];
     cache := {[ blogPath := {| cachedProject := 0%nat; ModTime := 1000;
                                CheckSum := "c0ffee" |} ]};
     projects := {[ "3f2a9c0d51b7e864" := 0%nat ]};
     table := ∅;
     events := [] |}.

(** A file system that holds only the blog's definition file. *)
Definition blogFiles (modTime : Time) (checksum : string)
    (outcome : finder.LoadOutcome) : finder.FileSystem :=
  {| finder.stat := fun path =>
       if String.eqb path blogPath then Some modTime else None;
     finder.fileChecksum := fun path =>
       if String.eqb path blogPath then Some checksum else None;
     finder.loadProject := fun _ => outcome |}.

Definition stack (id name file : string) : Project :=
  {| ID := id; Name := name; DisplayName := ""; Path := "/srv/" +:+ name;
     ComposeFile := file; ComposeFilePath := "/srv/" +:+ name +:+ "/" +:+ file;
     Environment_ := EnvDevelopment; Status := StatusStopped;
     Protected := false; ProtectionReason_ := ""; Hidden := false;
     Containers := []; Services := ["app"]; CreatedAt := 0; UpdatedAt := 0 |}.

(** Three projects, two of them in one directory. *)
Definition fleet : World :=
  {| objects := [stack "77aa" "zeta" "compose.yml";
                 stack "10bc" "alpha" "docker-compose.yml";
                 stack "f3d2" "alpha" "compose.prod.yml"];
     cache := ∅;
     projects := {[ "77aa" := 0%nat; "10bc" := 1%nat; "f3d2" := 2%nat ]};
     table := ∅;
     events := [] |}.

(** A daemon that runs no container, resolves the compose project name
as the directory name, and lets every compose command succeed. *)
Definition quietDaemon : manager.Daemon :=
  {| manager.containersByProject := Some ∅;
     manager.GetComposeProjectName := fun path => sample.Base (sample.Dir path);
     manager.preferencesFail := false;
     manager.preferencesDelivered := fun _ => true;
     manager.runCompose := fun _ _ => None;
     manager.now := 3000 |}.

(** A manager with a preference store and no protection list. *)
Definition plainManager : manager.Manager :=
  {| manager.hasStore := true; manager.protection := None |}.

(** A client that subscribed to nothing and drains nothing: its queue is
full. *)
Definition stuckClient : websocket.Client :=
  {| websocket.subscriptions := ∅;
     websocket.send := replicate websocket.sendCapacity "tick";
     websocket.closed := false |}.

(** A client that subscribed to project [X] only. *)
Definition pickyClient : websocket.Client :=
  websocket.Subscribe "X" websocket.NewClient.

(** A hub with three registered clients. *)
Definition hub3 : websocket.Hub :=
  {| websocket.clientObjects := [websocket.NewClient; pickyClient; stuckClient];
     websocket.clients := {[ 0%nat := true; 1%nat := true; 2%nat := true ]} |}.

(** One scan of a file system that holds the blog's definition file,
unchanged since it was first parsed. *)
Definition blogScan : finder.ScanEnv :=
  {| finder.yamlFiles := [blogPath];
     finder.fs := blogFiles 1000 "c0ffee" (finder.Loaded ["web"]);
     finder.scanNow := 2000;
     finder.cancelAt := None |}.

(** The same file after an edit: new modification time and checksum. *)
Definition blogRescan : finder.ScanEnv :=
  {| finder.yamlFiles := [blogPath];
     finder.fs := blogFiles 1700 "deadbeef" (finder.Loaded ["web"; "db"]);
     finder.scanNow := 2500;
     finder.cancelAt := None |}.

(** The ID the sample library gives the blog. *)
Definition blogID : string := scanner.generateProjectID sample.lib blogPath.

(** The process discovers the blog and the operator marks it protected. *)
Definition discoverAndProtect : list Call :=
  [CallRefresh blogScan quietDaemon;
   CallSetProtection blogID true "user_marked" 2100].

(** Later traffic: a refresh from the cache, a new display name, a forced
stop, a refresh after the file was edited, a start. *)
Definition laterCalls : list Call :=
  [CallRefresh blogScan quietDaemon;
   CallSetDisplayName None blogID "Blog" 2200;
   CallStop quietDaemon blogID true;
   CallRefresh blogRescan quietDaemon;
   CallStart quietDaemon blogID].

(** A policy with one protected project and one pattern. *)
Definition samplePolicy : protected.ProtectionConfig :=
  {| protected.Patterns := ["tunnel"]; protected.Projects := ["/srv/vault"] |}.

End data.

(** * Properties *)

(** ** Project names *)

Section SampleChecks.

Example sample_Base : sample.Base "/srv/My.App/docker-compose.yml" = "docker-compose.yml".
Proof. reflexivity. Qed.

Example sample_Dir : sample.Dir "/srv/My.App/docker-compose.yml" = "/srv/My.App".
Proof. reflexivity. Qed.

Example sample_Ext : sample.Ext "docker-compose.yml" = ".yml".
Proof. reflexivity. Qed.

Example sanitize_mixed :
  scanner.sanitizeProjectName sample.lib "My.App v2" = "my-app-v2".
Proof. reflexivity. Qed.

Example sanitize_hidden :
  scanner.sanitizeProjectName sample.lib ".config" = "p-config".
Proof. reflexivity. Qed.

Example sanitize_empty : scanner.sanitizeProjectName sample.lib "" = "project".
Proof. reflexivity. Qed.

Example sanitize_dashes : scanner.sanitizeProjectName sample.lib "a--" = "a".
Proof. reflexivity. Qed.

Example derive_name :
  scanner.deriveProjectName sample.lib "/srv/My.App/docker-compose.yml" = "my-app".
Proof. reflexivity. Qed.

End SampleChecks.

(** ** The aggregate status of a project *)

Section Status.

Import status.

Lemma isRunning_spec c : isRunning c = true <-> running c.
Proof. unfold isRunning, running. apply String.eqb_eq. Qed.

Lemma isTerminal_spec c : isTerminal c = true <-> terminal c.
Proof.
  unfold isTerminal, terminal.
  rewrite !orb_true_iff, !String.eqb_eq. tauto.
Qed.

Lemma running_not_terminal c : isRunning c = true -> isTerminal c = false.
Proof.
  intros H%isRunning_spec. unfold running in H.
  unfold isTerminal. rewrite H. reflexivity.
Qed.

Lemma tally_cons f c cs :
  tally f (c :: cs) = (if f c then 1 else 0) + tally f cs.
Proof.
  unfold tally. rewrite filter_cons.
  destruct (f c) eqn:E; case_decide; try congruence; simpl length; lia.
Qed.

Lemma tally_bounds f cs : 0 <= tally f cs <= Z.of_nat (length cs).
Proof.
  induction cs as [|c cs IH].
  - unfold tally. simpl. lia.
  - rewrite tally_cons. simpl length. destruct (f c); lia.
Qed.

Lemma tally_all f cs :
  tally f cs = Z.of_nat (length cs) <-> Forall (fun c => f c = true) cs.
Proof.
  induction cs as [|c cs IH].
  - split; [constructor | reflexivity].
  - rewrite tally_cons, Forall_cons. simpl length.
    pose proof (tally_bounds f cs) as B.
    destruct (f c); split.
    + intros H. split; [reflexivity|]. apply IH. lia.
    + intros [_ H%IH]. lia.
    + intros H. lia.
    + intros [H _]. discriminate.
Qed.

(** The counting loop counts the running and the terminal containers. *)
Lemma countStates_tally cs r s :
  countStates cs r s = (r + tally isRunning cs, s + tally isTerminal cs).
Proof.
  revert r s. induction cs as [|c cs IH]; intros r s.
  - unfold tally. simpl. f_equal; lia.
  - simpl countStates. rewrite !tally_cons.
    destruct (isRunning c) eqn:R.
    + rewrite (running_not_terminal c R), IH. f_equal; lia.
    + destruct (isTerminal c); rewrite IH; f_equal; lia.
Qed.

Lemma determineProjectStatus_unfold cs :
  determineProjectStatus cs =
    if (Z.of_nat (length cs) =? 0) then StatusStopped
    else if tally isRunning cs =? Z.of_nat (length cs) then StatusRunning
    else if tally isTerminal cs =? Z.of_nat (length cs) then StatusStopped
    else StatusPartial.
Proof.
  unfold determineProjectStatus. rewrite countStates_tally.
  rewrite !Z.add_0_l. reflexivity.
Qed.

Lemma Forall_iff_bool (f : Container -> bool) (P : Container -> Prop) cs :
  (forall c, f c = true <-> P c) ->
  Forall (fun c => f c = true) cs <-> Forall P cs.
Proof. intros H. apply Forall_proper; [exact H | reflexivity]. Qed.

(** C3. The status of a project from the coarse states of its containers:
    no container gives stopped; a non-empty list whose containers are all
    running gives running; a non-empty list whose containers are all in a
    terminal state (exited, dead, created) gives stopped; every other
    non-empty list gives partial, in particular every list with at least
    one running and at least one terminal container. *)
Theorem determineProjectStatus_cases (cs : list Container) :
  (cs = [] -> determineProjectStatus cs = StatusStopped) /\
  (cs <> [] -> Forall running cs -> determineProjectStatus cs = StatusRunning) /\
  (cs <> [] -> Forall terminal cs -> determineProjectStatus cs = StatusStopped) /\
  (cs <> [] -> ~ Forall running cs -> ~ Forall terminal cs ->
     determineProjectStatus cs = StatusPartial) /\
  (Exists running cs -> Exists terminal cs ->
     determineProjectStatus cs = StatusPartial).
Proof.
  assert (Hr : Forall running cs <-> tally isRunning cs = Z.of_nat (length cs)).
  { rewrite tally_all. symmetry. apply Forall_iff_bool, isRunning_spec. }
  assert (Ht : Forall terminal cs <-> tally isTerminal cs = Z.of_nat (length cs)).
  { rewrite tally_all. symmetry. apply Forall_iff_bool, isTerminal_spec. }
  assert (Hne : cs <> [] -> (Z.of_nat (length cs) =? 0) = false).
  { intros H. destruct cs; [congruence | reflexivity]. }
  assert (Hmixed : cs <> [] -> ~ Forall running cs -> ~ Forall terminal cs ->
            determineProjectStatus cs = StatusPartial).
  { intros H Nr Nt. rewrite determineProjectStatus_unfold, (Hne H).
    destruct (Z.eqb_spec (tally isRunning cs) (Z.of_nat (length cs))) as [E|_];
      [exfalso; apply Nr, Hr, E|].
    destruct (Z.eqb_spec (tally isTerminal cs) (Z.of_nat (length cs))) as [E|_];
      [exfalso; apply Nt, Ht, E|].
    reflexivity. }
  repeat split.
  - intros ->. reflexivity.
  - intros H A. rewrite determineProjectStatus_unfold, (Hne H).
    apply Hr in A. rewrite A, Z.eqb_refl. reflexivity.
  - intros H A. rewrite determineProjectStatus_unfold, (Hne H).
    destruct (Z.eqb_spec (tally isRunning cs) (Z.of_nat (length cs))) as [E|_].
    + apply Hr in E. destruct cs as [|c cs']; [congruence|].
      apply Forall_cons in E as [E _]. apply Forall_cons in A as [A _].
      apply isRunning_spec, running_not_terminal in E.
      apply isTerminal_spec in A. congruence.
    + apply Ht in A. rewrite A, Z.eqb_refl. reflexivity.
  - exact Hmixed.
  - intros Er Et. apply Hmixed.
    + intros ->. inversion Er.
    + intros A. apply Exists_exists in Et as (c & Hin & Hc).
      rewrite Forall_forall in A. specialize (A c Hin).
      apply isRunning_spec, running_not_terminal in A.
      apply isTerminal_spec in Hc. congruence.
    + intros A. apply Exists_exists in Er as (c & Hin & Hc).
      rewrite Forall_forall in A. specialize (A c Hin).
      apply isTerminal_spec in A.
      apply isRunning_spec, running_not_terminal in Hc. congruence.
Qed.

End Status.

(** ** Sanitized project names *)

Section Sanitize.

Import scanner.








(** *** [strings.Trim] *)







Lemma string_of_list_ascii_nil l : string_of_list_ascii l = "" -> l = [].
Proof. destruct l; [done | discriminate]. Qed.





End Sanitize.

Section SanitizeClaims.

Import scanner.




End SanitizeClaims.

(** ** CPU percentage *)

Section CPU.

Import stats data.

Lemma sub64_diag a : Go.sub64 a a = 0.
Proof. unfold Go.sub64, Go.wrap64. rewrite Z.sub_diag. reflexivity. Qed.

(** Without a previous sample the percentage is zero. *)
Lemma calculateCPUPercent_no_previous curr :
  calculateCPUPercent None curr = 0%float.
Proof. reflexivity. Qed.

(** When the system counter has not moved the percentage is zero,
    whatever the CPU counter did. *)
Lemma calculateCPUPercent_system_unchanged prev curr :
  SystemUsage curr = SystemUsage prev ->
  calculateCPUPercent (Some prev) (Some curr) = 0%float.
Proof.
  intros E. unfold calculateCPUPercent. rewrite E, sub64_diag. reflexivity.
Qed.

(** When both guards pass, the result is the quotient of the deltas times
    the CPU count times one hundred. *)
Lemma calculateCPUPercent_formula prev curr :
  let cpuDelta := Go.float64 (Go.sub64 (TotalUsage curr) (TotalUsage prev)) in
  let systemDelta := Go.float64 (Go.sub64 (SystemUsage curr) (SystemUsage prev)) in
  let cpuCount :=
    if isZero (Go.float64 (OnlineCPUs curr))
    then if isZero (Go.float64 (Z.of_nat (length (PercpuUsage curr))))
         then 1%float
         else Go.float64 (Z.of_nat (length (PercpuUsage curr)))
    else Go.float64 (OnlineCPUs curr) in
  PrimFloat.ltb 0 systemDelta = true ->
  PrimFloat.ltb 0 cpuDelta = true ->
  calculateCPUPercent (Some prev) (Some curr) =
    ((cpuDelta / systemDelta) * cpuCount * 100)%float.
Proof.
  intros cpuDelta systemDelta cpuCount Hs Hc. unfold calculateCPUPercent.
  fold cpuDelta systemDelta. rewrite Hs, Hc. simpl andb. cbv iota.
  unfold cpuCount.
  destruct (isZero (Go.float64 (OnlineCPUs curr))) eqn:Z1; cbv iota.
  - destruct (isZero (Go.float64 (Z.of_nat (length (PercpuUsage curr)))));
      reflexivity.
  - rewrite Z1. reflexivity.
Qed.

(** C4.  A system counter that went backwards: the system-time delta is
    [50 - 100], which is negative, yet the subtraction is done on
    [uint64], wraps to [2^64 - 50], and passes the guard: the percentage
    is positive, not zero. *)
Theorem calculateCPUPercent_backwards_counter :
  SystemUsage laterSample - SystemUsage earlierSample <= 0 /\
  Go.sub64 (SystemUsage laterSample) (SystemUsage earlierSample) = 2 ^ 64 - 50 /\
  PrimFloat.ltb 0 (calculateCPUPercent (Some earlierSample) (Some laterSample)) = true /\
  PrimFloat.eqb (calculateCPUPercent (Some earlierSample) (Some laterSample)) 0 = false.
Proof. repeat split; vm_compute; congruence. Qed.

End CPU.

Section StatusWitness.

Import status data.

Lemma determineProjectStatus_cases_witness :
  determineProjectStatus
    [container "1" "web" "nginx" "running"; container "2" "db" "postgres" "running"]
    = StatusRunning /\
  determineProjectStatus
    [container "1" "web" "nginx" "exited"; container "2" "db" "postgres" "created"]
    = StatusStopped /\
  determineProjectStatus
    [container "1" "web" "nginx" "running"; container "2" "db" "postgres" "dead"]
    = StatusPartial /\
  determineProjectStatus
    [container "1" "web" "nginx" "paused"; container "2" "db" "postgres" "paused"]
    = StatusPartial.
Proof.
  split; [|split; [|split]].
  - destruct (determineProjectStatus_cases
      [container "1" "web" "nginx" "running";
       container "2" "db" "postgres" "running"]) as (_ & H & _).
    apply H; [discriminate|].
    repeat (apply Forall_cons; split; [reflexivity|]). apply Forall_nil_2.
  - destruct (determineProjectStatus_cases
      [container "1" "web" "nginx" "exited";
       container "2" "db" "postgres" "created"]) as (_ & _ & H & _).
    apply H; [discriminate|].
    apply Forall_cons; split; [left; reflexivity|].
    apply Forall_cons; split; [right; right; reflexivity|]. apply Forall_nil_2.
  - destruct (determineProjectStatus_cases
      [container "1" "web" "nginx" "running";
       container "2" "db" "postgres" "dead"]) as (_ & _ & _ & _ & H).
    apply H.
    + apply Exists_cons_hd. reflexivity.
    + apply Exists_cons_tl, Exists_cons_hd. right. left. reflexivity.
  - destruct (determineProjectStatus_cases
      [container "1" "web" "nginx" "paused";
       container "2" "db" "postgres" "paused"]) as (_ & _ & _ & H & _).
    apply H; [discriminate| |].
    + intros A. apply Forall_cons in A as [A _]. discriminate A.
    + intros A. apply Forall_cons in A as [A _].
      destruct A as [A|[A|A]]; discriminate A.
Defined.

End StatusWitness.

(** ** The scanner's parse cache *)

Section Cache.

Import finder.

Lemma cacheValid_iff cached modTime checksum :
  cacheValid cached modTime checksum = true <->
  exists c, cached = Some c /\ ModTime c = modTime /\ CheckSum c = checksum.
Proof.
  unfold cacheValid. destruct cached as [c|].
  - rewrite andb_true_iff, Z.eqb_eq, String.eqb_eq. split.
    + intros [? ?]. by exists c.
    + intros (c' & [= <-] & ? & ?). done.
  - split; [discriminate | by intros (c & ? & _)].
Qed.

(** A valid entry is returned as it is: the same pointer, no state
    touched, nothing parsed. *)
Lemma parseComposeFile_hit lib fs now path st c :
  cache st !! path = Some c ->
  stat fs path = Some (ModTime c) ->
  fileChecksum fs path = Some (CheckSum c) ->
  parseComposeFile lib fs now path st = (st, ParseOk (Some (cachedProject c))).
Proof.
  intros Hc Hs Hk. unfold parseComposeFile. rewrite Hs, Hk, Hc.
  unfold cacheValid. by rewrite Z.eqb_refl, String.eqb_refl.
Qed.

(** A stale entry sends the call to the loader. *)
Lemma parseComposeFile_miss lib fs now path st c modTime checksum :
  cache st !! path = Some c ->
  stat fs path = Some modTime ->
  fileChecksum fs path = Some checksum ->
  modTime <> ModTime c \/ checksum <> CheckSum c ->
  parseComposeFile lib fs now path st =
    match loadProject fs path with
    | OptionsError => (st, ParseErr)
    | LoadError => (emit (EvLoadProject path) st, ParseErr)
    | Loaded services =>
        if (length services =? 0)%nat
        then (emit (EvLoadProject path) st, ParseOk None)
        else
          (withCache
             (<[path := {| cachedProject := length (objects st);
                           ModTime := modTime; CheckSum := checksum |}]>
                (cache st))
             (withObjects (objects st ++ [newProject lib path services now])
                (emit (EvLoadProject path) st)),
           ParseOk (Some (length (objects st))))
    end.
Proof.
  intros Hc Hs Hk Hd. unfold parseComposeFile. rewrite Hs, Hk, Hc.
  destruct (cacheValid (Some c) modTime checksum) eqn:V.
  - apply cacheValid_iff in V as (c' & [= <-] & E1 & E2).
    destruct Hd; congruence.
  - reflexivity.
Qed.

(** C5, as amended.  Take a definition file with a cache entry.  When the
    stored modification time and checksum both equal the file's current
    ones, the call returns the cached project pointer and changes nothing:
    no object, no cache entry, no call to the loader.  When either
    differs, the loader is called as soon as its options can be built, and
    the cache entry is replaced, by a newly built project with the current
    modification time and checksum, exactly when the file loads and
    declares a service; when loading fails or no service is declared, the
    old entry stays. *)
Theorem parseComposeFile_cache (lib : Lib) (fs : FileSystem) (now : Time)
    (path : string) (st : World) (c : CachedProject)
    (modTime : Time) (checksum : string) :
  cache st !! path = Some c ->
  stat fs path = Some modTime ->
  fileChecksum fs path = Some checksum ->
  let '(st', r) := parseComposeFile lib fs now path st in
  (modTime = ModTime c /\ checksum = CheckSum c ->
     st' = st /\ r = ParseOk (Some (cachedProject c))) /\
  (modTime <> ModTime c \/ checksum <> CheckSum c ->
     objects st = take (length (objects st)) (objects st') /\
     match loadProject fs path with
     | OptionsError =>
         events st' = events st /\ cache st' = cache st /\ r = ParseErr
     | LoadError =>
         events st' = events st ++ [EvLoadProject path] /\
         cache st' = cache st /\ r = ParseErr
     | Loaded [] =>
         events st' = events st ++ [EvLoadProject path] /\
         cache st' = cache st /\ r = ParseOk None
     | Loaded services =>
         events st' = events st ++ [EvLoadProject path] /\
         r = ParseOk (Some (length (objects st))) /\
         objects st' !! length (objects st) = Some (newProject lib path services now) /\
         cache st' =
           <[path := {| cachedProject := length (objects st);
                        ModTime := modTime; CheckSum := checksum |}]> (cache st)
     end).
Proof.
  intros Hc Hs Hk.
  destruct (parseComposeFile lib fs now path st) as [st' r] eqn:P.
  split.
  - intros [-> ->]. rewrite (parseComposeFile_hit _ _ _ _ _ c) in P by done.
    by injection P as <- <-.
  - intros Hd.
    rewrite (parseComposeFile_miss _ _ _ _ _ c modTime checksum) in P by done.
    destruct (loadProject fs path) as [| |services].
    + injection P as <- <-. by rewrite firstn_all.
    + injection P as <- <-. by rewrite firstn_all.
    + destruct services as [|s services]; simpl in P; injection P as <- <-; simpl.
      * by rewrite firstn_all.
      * rewrite take_app_length. repeat split.
        by rewrite lookup_app_r, Nat.sub_diag by lia.
Qed.

End Cache.

Section CacheExamples.

Import finder data.

Lemma parseComposeFile_cache_witness :
  parseComposeFile sample.lib (blogFiles 1000 "c0ffee" LoadError) 2000 blogPath
    (blogWorld false "")
  = (blogWorld false "", ParseOk (Some 0%nat)).
Proof.
  pose proof (parseComposeFile_cache sample.lib
                (blogFiles 1000 "c0ffee" LoadError) 2000 blogPath
                (blogWorld false "")
                {| cachedProject := 0%nat; ModTime := 1000; CheckSum := "c0ffee" |}
                1000 "c0ffee") as H.
  destruct (parseComposeFile _ _ _ _ _) as [st' r].
  destruct H as [[-> ->] _]; try reflexivity.
  split; reflexivity.
Defined.

(** C5 as it was stated fails when the changed file no longer loads as a
    compose project.  The checksum differs from the stored one, the loader
    is called, and yet the cache keeps the old entry: after a file that
    declares no service, and after a file the loader rejects. *)
Lemma parseComposeFile_keeps_stale_entry :
  let st := blogWorld false "" in
  let stale := {| cachedProject := 0%nat; ModTime := 1000; CheckSum := "c0ffee" |} in
  cache st !! blogPath = Some stale /\
  (let fs := blogFiles 1000 "deadbeef" (Loaded []) in
   fileChecksum fs blogPath = Some "deadbeef" /\
   events (parseComposeFile sample.lib fs 2000 blogPath st).1 = [EvLoadProject blogPath] /\
   cache (parseComposeFile sample.lib fs 2000 blogPath st).1 !! blogPath = Some stale /\
   (parseComposeFile sample.lib fs 2000 blogPath st).2 = ParseOk None) /\
  (let fs := blogFiles 1000 "deadbeef" LoadError in
   fileChecksum fs blogPath = Some "deadbeef" /\
   events (parseComposeFile sample.lib fs 2000 blogPath st).1 = [EvLoadProject blogPath] /\
   cache (parseComposeFile sample.lib fs 2000 blogPath st).1 !! blogPath = Some stale /\
   (parseComposeFile sample.lib fs 2000 blogPath st).2 = ParseErr).
Proof. repeat split. Qed.

(** A changed file that loads replaces the entry and gets a new object. *)
Example parseComposeFile_reparse :
  let st := blogWorld false "" in
  let fs := blogFiles 1500 "deadbeef" (Loaded ["web"; "db"]) in
  (parseComposeFile sample.lib fs 2000 blogPath st).2 = ParseOk (Some 1%nat) /\
  cache (parseComposeFile sample.lib fs 2000 blogPath st).1 !! blogPath =
    Some {| cachedProject := 1%nat; ModTime := 1500; CheckSum := "deadbeef" |} /\
  Name <$> objects (parseComposeFile sample.lib fs 2000 blogPath st).1 !! 1%nat =
    Some "blog".
Proof. repeat split. Qed.

End CacheExamples.

(** ** The sorting loop of [ListProjects] *)

Section SortLoop.

Import ops.

Context {A : Type} (swap : A -> A -> bool).

(** The inner loop works on the cells from [i] on. *)
Lemma innerLoop_shift (pre suf : list A) i j n :
  length pre = i ->
  innerLoop swap i (i + j) n (pre ++ suf) = pre ++ innerLoop swap 0 j n suf.
Proof.
  intros Hi. revert j suf. induction n as [|n IH]; intros j suf; [done|].
  simpl innerLoop.
  rewrite !(lookup_app_r pre) by lia.
  replace (i - length pre)%nat with 0%nat by lia.
  replace (i + j - length pre)%nat with j by lia.
  replace (S (i + j)) with (i + S j)%nat by lia.
  destruct (suf !! 0%nat) as [a|]; [|apply IH].
  destruct (suf !! j) as [b|]; [|apply IH].
  destruct (swap a b); [|apply IH].
  rewrite <- IH. f_equal.
  rewrite !insert_app_r_alt by (rewrite ?length_insert; lia).
  replace (i - length pre)%nat with 0%nat by lia.
  replace (i + j - length pre)%nat with j by lia.
  reflexivity.
Qed.

(** From cell zero, the inner loop is a sweep over the later cells. *)
Lemma innerLoop_sweep (x : A) (front later : list A) :
  innerLoop swap 0 (S (length front)) (length later) (x :: front ++ later) =
    let '(m, r) := sweep swap x later in m :: front ++ r.
Proof.
  revert x front. induction later as [|b later IH]; intros x front; [done|].
  assert (Hstep :
    innerLoop swap 0 (S (length front)) (length (b :: later))
      (x :: front ++ b :: later) =
    innerLoop swap 0 (S (S (length front))) (length later)
      (if swap x b then b :: front ++ x :: later else x :: front ++ b :: later)).
  { simpl innerLoop. simpl lookup.
    rewrite lookup_app_r, Nat.sub_diag by lia. simpl lookup. cbv beta iota.
    destruct (swap x b); [|done].
    simpl. by rewrite insert_app_r_alt, Nat.sub_diag by lia. }
  rewrite Hstep. clear Hstep. simpl sweep. destruct (swap x b).
  - specialize (IH b (front ++ [x])).
    rewrite length_app, Nat.add_1_r, <- app_assoc in IH. simpl in IH.
    rewrite IH. destruct (sweep swap b later) as [m r].
    by rewrite <- app_assoc.
  - specialize (IH x (front ++ [b])).
    rewrite length_app, Nat.add_1_r, <- app_assoc in IH. simpl in IH.
    rewrite IH. destruct (sweep swap x later) as [m r].
    by rewrite <- app_assoc.
Qed.

Lemma sweep_length x later :
  length (sweep swap x later).2 = length later.
Proof.
  revert x. induction later as [|b later IH]; intros x; [done|]. simpl.
  destruct (swap x b).
  - specialize (IH b). destruct (sweep swap b later). simpl in *. lia.
  - specialize (IH x). destruct (sweep swap x later). simpl in *. lia.
Qed.

(** The outer loop fixes one cell after the other. *)
Lemma outerLoop_selection (pre suf : list A) i n :
  length pre = i -> length suf = n ->
  outerLoop swap i n (pre ++ suf) = pre ++ selection swap n suf.
Proof.
  revert pre suf i. induction n as [|n IH]; intros pre suf i Hi Hn.
  - by destruct suf.
  - destruct suf as [|x rest]; [discriminate|]. simpl in Hn.
    simpl outerLoop. simpl selection.
    rewrite length_app. simpl length.
    replace (length pre + S (length rest) - S i)%nat with (length rest) by lia.
    replace (S i) with (i + 1)%nat by lia.
    rewrite innerLoop_shift by done.
    pose proof (innerLoop_sweep x [] rest) as Hs. simpl in Hs. rewrite Hs.
    pose proof (sweep_length x rest) as Hl.
    destruct (sweep swap x rest) as [m r]. simpl in Hl.
    replace (pre ++ m :: r) with ((pre ++ [m]) ++ r) by by rewrite <- app_assoc.
    rewrite IH by (rewrite ?length_app; simpl; lia).
    by rewrite <- app_assoc.
Qed.

Lemma sortLoop_selection (l : list A) :
  sortLoop swap l = selection swap (length l) l.
Proof. apply (outerLoop_selection [] l 0%nat); reflexivity. Qed.

Lemma sweep_perm x later :
  let '(m, r) := sweep swap x later in m :: r ≡ₚ x :: later.
Proof.
  revert x. induction later as [|b later IH]; intros x; [simpl; reflexivity|].
  simpl.
  destruct (swap x b).
  - specialize (IH b). destruct (sweep swap b later) as [m r].
    by rewrite (Permutation_swap x m r), IH.
  - specialize (IH x). destruct (sweep swap x later) as [m r].
    rewrite (Permutation_swap b m r), IH. apply Permutation_swap.
Qed.

Lemma selection_perm n l : selection swap n l ≡ₚ l.
Proof.
  revert l. induction n as [|n IH]; intros l; [by destruct l|].
  destruct l as [|x rest]; [done|]. simpl.
  pose proof (sweep_perm x rest) as Hp.
  destruct (sweep swap x rest) as [m r]. by rewrite IH.
Qed.

(** The comparison never asks to exchange both ways, and declining to
    exchange is transitive. *)
Hypothesis swap_asym : forall a b, swap a b = true -> swap b a = false.
Hypothesis swap_trans :
  forall a b c, swap a b = false -> swap b c = false -> swap a c = false.

Lemma swap_irrefl a : swap a a = false.
Proof.
  destruct (swap a a) eqn:E; [|done].
  pose proof (swap_asym a a E). congruence.
Qed.

(** A sweep leaves in its cell a value that need not be exchanged with
    any later one. *)
Lemma sweep_least x later :
  let '(m, r) := sweep swap x later in
  swap m x = false /\ Forall (fun y => swap m y = false) r.
Proof.
  revert x. induction later as [|b later IH]; intros x.
  - simpl. split; [apply swap_irrefl | constructor].
  - simpl. destruct (swap x b) eqn:E.
    + specialize (IH b). destruct (sweep swap b later) as [m r].
      destruct IH as [Hb Hr].
      assert (swap m x = false) by eauto using swap_trans, swap_asym.
      split; [done | by constructor].
    + specialize (IH x). destruct (sweep swap x later) as [m r].
      destruct IH as [Hx Hr].
      split; [done|]. constructor; [|done]. eauto using swap_trans.
Qed.

Lemma selection_sorted n l :
  length l = n ->
  StronglySorted (fun a b => swap a b = false) (selection swap n l).
Proof.
  revert l. induction n as [|n IH]; intros l Hn.
  - destruct l; [constructor | discriminate].
  - destruct l as [|x rest]; [discriminate|]. simpl.
    pose proof (sweep_least x rest) as Hm.
    pose proof (sweep_length x rest) as Hl.
    destruct (sweep swap x rest) as [m r]. simpl in Hl, Hn.
    destruct Hm as [_ Hm]. constructor.
    + apply IH. lia.
    + by rewrite selection_perm.
Qed.

Lemma sortLoop_perm l : sortLoop swap l ≡ₚ l.
Proof. rewrite sortLoop_selection. apply selection_perm. Qed.

Lemma sortLoop_sorted l :
  StronglySorted (fun a b => swap a b = false) (sortLoop swap l).
Proof. rewrite sortLoop_selection. by apply selection_sorted. Qed.

End SortLoop.

(** ** The listing order *)

Section ListingOrder.

Import ops.

Lemma compare_refl (a : string) : String.compare a a = Eq.
Proof.
  pose proof (String.compare_antisym a a) as H.
  destruct (String.compare a a); simpl in H; congruence.
Qed.

Lemma compare_Eq (a b : string) : String.compare a b = Eq <-> a = b.
Proof.
  split; [apply String.compare_eq_iff | intros ->; apply compare_refl].
Qed.

Lemma compare_Gt_Lt (a b : string) :
  String.compare a b = Gt <-> String.compare b a = Lt.
Proof.
  rewrite (String.compare_antisym b a).
  destruct (String.compare a b); simpl; split; congruence.
Qed.

Lemma stringLt_trans a b c : stringLt a b -> stringLt b c -> stringLt a c.
Proof.
  unfold stringLt. intros H1 H2.
  apply OrderedTypeEx.String_as_OT.cmp_lt.
  eapply OrderedTypeEx.String_as_OT.lt_trans;
    apply OrderedTypeEx.String_as_OT.cmp_lt; eassumption.
Qed.

Lemma stringLe_cases a b : stringLe a b <-> stringLt a b \/ a = b.
Proof.
  unfold stringLe, stringLt. rewrite <- compare_Eq.
  destruct (String.compare a b); split; try tauto; try congruence.
  intros [?|?]; congruence.
Qed.

Lemma stringLe_trans a b c : stringLe a b -> stringLe b c -> stringLe a c.
Proof.
  rewrite !stringLe_cases. intros [H1| ->] [H2| ->]; eauto using stringLt_trans.
Qed.

Lemma stringLe_total a b : stringLe a b \/ stringLe b a.
Proof.
  unfold stringLe. pose proof (compare_Gt_Lt a b).
  destruct (String.compare a b) eqn:E; try (left; congruence).
  right. rewrite (proj1 H); [congruence | done].
Qed.

Lemma stringLt_irrefl a : ~ stringLt a a.
Proof. unfold stringLt. rewrite compare_refl. congruence. Qed.

Lemma gtString_spec a b : gtString a b = true <-> stringLt b a.
Proof.
  unfold gtString, stringLt. rewrite <- compare_Gt_Lt.
  destruct (String.compare a b); split; congruence.
Qed.

(** The loop exchanges two projects exactly when the first is not listed
    before the second. *)
Lemma swapNeeded_spec p q : swapNeeded p q = false <-> listedBefore p q.
Proof.
  unfold swapNeeded, listedBefore, stringLe.
  destruct (gtString (Name p) (Name q)) eqn:G.
  - apply gtString_spec in G. split; [discriminate|].
    intros [H|[H _]].
    + exfalso. eapply stringLt_irrefl, stringLt_trans; eassumption.
    + rewrite H in G. by apply stringLt_irrefl in G.
  - destruct (String.eqb_spec (Name p) (Name q)) as [E|N].
    + unfold gtString. destruct (String.compare (ComposeFile p) (ComposeFile q));
        split; try congruence; try (intros _; right; split; congruence).
      intros [H|[_ H]]; [|congruence].
      rewrite E in H. by apply stringLt_irrefl in H.
    + split; [|done]. intros _. left.
      unfold gtString in G. unfold stringLt.
      destruct (String.compare (Name p) (Name q)) eqn:C; try congruence.
      by apply compare_Eq in C.
Qed.

(** The listing order is total over the two keys. *)
Lemma listedBefore_total p q : listedBefore p q \/ listedBefore q p.
Proof.
  unfold listedBefore.
  destruct (String.compare (Name p) (Name q)) eqn:C.
  - apply compare_Eq in C.
    destruct (stringLe_total (ComposeFile p) (ComposeFile q)); auto.
  - left. by left.
  - right. left. by apply compare_Gt_Lt.
Qed.

Lemma listedBefore_trans p q r :
  listedBefore p q -> listedBefore q r -> listedBefore p r.
Proof.
  unfold listedBefore. intros [H1|[E1 F1]] [H2|[E2 F2]].
  - left. eauto using stringLt_trans.
  - left. by rewrite <- E2.
  - left. by rewrite E1.
  - right. split; [congruence | eauto using stringLe_trans].
Qed.

Lemma swapNeeded_asym p q : swapNeeded p q = true -> swapNeeded q p = false.
Proof.
  intros H. apply swapNeeded_spec.
  destruct (listedBefore_total p q) as [L|L]; [|done].
  apply swapNeeded_spec in L. congruence.
Qed.

Lemma swapNeeded_trans p q r :
  swapNeeded p q = false -> swapNeeded q r = false -> swapNeeded p r = false.
Proof. rewrite !swapNeeded_spec. apply listedBefore_trans. Qed.

Lemma StronglySorted_mono {A : Type} (R S : A -> A -> Prop) (l : list A) :
  (forall a b, R a b -> S a b) -> StronglySorted R l -> StronglySorted S l.
Proof.
  intros HRS. induction 1 as [|a l _ IH Hall]; constructor; [exact IH|].
  eapply Forall_impl; [exact Hall|]. intros b. apply HRS.
Qed.

(** C7.  Whatever the order in which the map yields its entries,
    [ListProjects] returns all of them, each once, in ascending order of
    project name, entries of equal name in ascending order of
    definition-file name; that order compares any two projects. *)
Theorem ListProjects_sorted (st : World) (order : list ptr) :
  order ≡ₚ (map_to_list (projects st)).*2 ->
  ListProjects order st ≡ₚ (map_to_list (projects st)).*2 /\
  StronglySorted
    (fun a b => listedBefore (deref (objects st) a) (deref (objects st) b))
    (ListProjects order st) /\
  (forall p q : Project, listedBefore p q \/ listedBefore q p).
Proof.
  intros Hord. unfold ListProjects. split; [|split].
  - by rewrite sortLoop_perm.
  - eapply StronglySorted_mono; [|apply sortLoop_sorted].
    + intros a b H. apply swapNeeded_spec. exact H.
    + intros a b. apply swapNeeded_asym.
    + intros a b c. apply swapNeeded_trans.
  - apply listedBefore_total.
Qed.

End ListingOrder.

Section ListingExamples.

Import ops data.

Example ListProjects_fleet :
  ListProjects [0; 1; 2]%nat fleet = [2; 1; 0]%nat /\
  ListProjects [1; 0; 2]%nat fleet = [2; 1; 0]%nat /\
  ListProjects [2; 1; 0]%nat fleet = [2; 1; 0]%nat.
Proof. repeat split. Qed.

Lemma ListProjects_sorted_witness :
  ListProjects [1; 0; 2]%nat fleet ≡ₚ (map_to_list (projects fleet)).*2 /\
  StronglySorted
    (fun a b => listedBefore (deref (objects fleet) a) (deref (objects fleet) b))
    (ListProjects [1; 0; 2]%nat fleet).
Proof.
  destruct (ListProjects_sorted fleet [1; 0; 2]%nat) as (H1 & H2 & _).
  - apply (bool_decide_unpack _). vm_compute. reflexivity.
  - split; assumption.
Defined.

End ListingExamples.

(** ** Lifecycle operations on a protected project *)

Section Lifecycle.

Import manager ops.

Lemma deref_lookup (h : list Project) (l : ptr) (p : Project) :
  h !! l = Some p -> deref h l = p.
Proof. intros H. unfold deref. by rewrite H. Qed.

Lemma refreshProject_events d id st :
  events (refreshProject d id st).1 = events st.
Proof.
  unfold refreshProject.
  destruct (containersByProject d); [|done].
  by destruct (projects st !! id).
Qed.

(** C2.  On a protected project: stopping without the force flag returns
    the protection error and leaves the whole state as it was, the event
    log included, so no compose command ran; stopping with the force flag
    runs [docker compose down] on the definition file and does not return
    the protection error; restarting returns the protection error and
    leaves the state as it was, and [RestartProject] takes no force flag. *)
Theorem protected_lifecycle (d : Daemon) (id : string) (st : World)
    (proj : ptr) (p : Project) :
  projects st !! id = Some proj ->
  objects st !! proj = Some p ->
  Protected p = true ->
  StopProject d id false st =
    (st, Some (ErrProtectedStop (Name p) (ProtectionReason_ p))) /\
  (events (StopProject d id true st).1 =
     events st ++ [EvCompose (ComposeFilePath p) ["down"]] /\
   forall name reason,
     (StopProject d id true st).2 <> Some (ErrProtectedStop name reason)) /\
  RestartProject d id st =
    (st, Some (ErrProtectedRestart (Name p) (ProtectionReason_ p))).
Proof.
  intros Hid Hp Hprot.
  unfold StopProject, RestartProject, GetProject. rewrite Hid.
  rewrite (deref_lookup _ _ _ Hp), Hprot. simpl.
  split; [reflexivity|]. split; [|reflexivity].
  destruct (runCompose d (ComposeFilePath p) ["down"]) as [output|].
  - split; [reflexivity | discriminate].
  - split; [by rewrite refreshProject_events|].
    intros name reason. unfold refreshProject. simpl.
    destruct (containersByProject d); [|discriminate].
    rewrite Hid. discriminate.
Qed.

End Lifecycle.

Section LifecycleExamples.

Import manager ops data.

Lemma protected_lifecycle_witness :
  StopProject quietDaemon "3f2a9c0d51b7e864" false (blogWorld true "user_marked") =
    (blogWorld true "user_marked", Some (ErrProtectedStop "blog" "user_marked")) /\
  events (StopProject quietDaemon "3f2a9c0d51b7e864" true
            (blogWorld true "user_marked")).1 =
    [EvCompose "/srv/blog/docker-compose.yml" ["down"]] /\
  RestartProject quietDaemon "3f2a9c0d51b7e864" (blogWorld true "user_marked") =
    (blogWorld true "user_marked", Some (ErrProtectedRestart "blog" "user_marked")).
Proof.
  destruct (protected_lifecycle quietDaemon "3f2a9c0d51b7e864"
              (blogWorld true "user_marked") 0%nat (blog true "user_marked"))
    as (H1 & [H2 _] & H3); [reflexivity | reflexivity | reflexivity |].
  split; [exact H1|]. split; [exact H2 | exact H3].
Defined.

(** An unprotected project is stopped and restarted without the flag. *)
Example unprotected_lifecycle :
  (StopProject quietDaemon "3f2a9c0d51b7e864" false (blogWorld false "")).2 = None /\
  events (RestartProject quietDaemon "3f2a9c0d51b7e864" (blogWorld false "")).1 =
    [EvCompose "/srv/blog/docker-compose.yml" ["restart"]].
Proof. split; reflexivity. Qed.

End LifecycleExamples.

(** ** Preference mutations *)

Section Preferences.

Import manager ops.

Lemma withTable_same st : withTable (table st) st = st.
Proof. by destruct st. Qed.

(** C8.  For [SetProjectDisplayName] and for [SetProjectHidden]: when the
    manager has a store and the store's write fails, the call returns an
    error and the whole state, the project's field included, is as it was;
    and whenever the call changes a project object it has returned no
    error, and with a store configured the write succeeded and the row
    holds the new value. *)
Theorem preference_mutations_atomic (m : Manager) (dbFail : option string)
    (id : string) (now : Time) (st : World) :
  (forall displayName,
     let '(st', r) := SetProjectDisplayName m dbFail id displayName now st in
     (hasStore m = true -> is_Some dbFail -> st' = st /\ is_Some r) /\
     (objects st' <> objects st ->
        r = None /\
        (hasStore m = true ->
           dbFail = None /\
           prefDisplayName <$> table st' !! id = Some displayName))) /\
  (forall hidden,
     let '(st', r) := SetProjectHidden m dbFail id hidden now st in
     (hasStore m = true -> is_Some dbFail -> st' = st /\ is_Some r) /\
     (objects st' <> objects st ->
        r = None /\
        (hasStore m = true ->
           dbFail = None /\
           prefHidden <$> table st' !! id = Some hidden))).
Proof.
  split.
  - intros displayName. unfold SetProjectDisplayName.
    destruct (projects st !! id) as [proj|].
    2: { split; [by eauto | done]. }
    destruct (hasStore m) eqn:S.
    + destruct dbFail as [e|]; simpl.
      * rewrite withTable_same. split; [by eauto | done].
      * split; [intros _ [? ?]; discriminate|]. intros _. split; [done|]. intros _.
        split; [done|]. rewrite lookup_insert_eq.
        by destruct (table st !! id).
    + split; [discriminate|]. intros _. split; [done | discriminate].
  - intros hidden. unfold SetProjectHidden.
    destruct (projects st !! id) as [proj|].
    2: { split; [by eauto | done]. }
    destruct (hasStore m) eqn:S.
    + destruct dbFail as [e|]; simpl.
      * rewrite withTable_same. split; [by eauto | done].
      * split; [intros _ [? ?]; discriminate|]. intros _. split; [done|]. intros _.
        split; [done|]. rewrite lookup_insert_eq.
        by destruct (table st !! id).
    + split; [discriminate|]. intros _. split; [done | discriminate].
Qed.

End Preferences.

Section PreferenceExamples.

Import manager ops data.

Lemma preference_mutations_atomic_witness :
  SetProjectDisplayName plainManager (Some "database is locked")
    "3f2a9c0d51b7e864" "Blog" 3000 (blogWorld false "") =
    (blogWorld false "", Some (ErrSavingDisplayName "database is locked")) /\
  SetProjectHidden plainManager (Some "database is locked")
    "3f2a9c0d51b7e864" true 3000 (blogWorld false "") =
    (blogWorld false "", Some (ErrSavingHidden "database is locked")).
Proof.
  destruct (preference_mutations_atomic plainManager (Some "database is locked")
              "3f2a9c0d51b7e864" 3000 (blogWorld false "")) as [HD HH].
  split.
  - specialize (HD "Blog").
    destruct (SetProjectDisplayName _ _ _ _ _ _) as [st' r] eqn:E.
    destruct HD as [HD _]. destruct HD as [-> _]; [reflexivity | by eexists |].
    rewrite <- E. reflexivity.
  - specialize (HH true).
    destruct (SetProjectHidden _ _ _ _ _ _) as [st' r] eqn:E.
    destruct HH as [HH _]. destruct HH as [-> _]; [reflexivity | by eexists |].
    rewrite <- E. reflexivity.
Defined.

(** When the write succeeds both the row and the object change. *)
Example display_name_saved :
  let st' := (SetProjectDisplayName plainManager None "3f2a9c0d51b7e864" "Blog"
                3000 (blogWorld false "")).1 in
  DisplayName <$> objects st' !! 0%nat = Some "Blog" /\
  prefDisplayName <$> table st' !! "3f2a9c0d51b7e864" = Some "Blog".
Proof. split; reflexivity. Qed.

End PreferenceExamples.

(** ** Subscriptions *)

Section Subscriptions.

Import websocket.

Lemma subscribeAll_lookup ids c k :
  subscriptions (subscribeAll ids c) !! k =
    if decide (k ∈ ids) then Some true else subscriptions c !! k.
Proof.
  revert c. induction ids as [|id ids IH]; intros c; [done|].
  unfold subscribeAll in *. simpl. rewrite IH. simpl.
  destruct (decide (k ∈ ids)) as [Hin|Hin].
  - rewrite decide_True; [done | by right].
  - destruct (decide (k = id)) as [->|Hne].
    + rewrite decide_True by left. apply lookup_insert_eq.
    + rewrite decide_False by (intros [?|?]%elem_of_cons; done).
      by apply lookup_insert_ne.
Qed.

Lemma unsubscribeAll_lookup ids c k :
  subscriptions (unsubscribeAll ids c) !! k =
    if decide (k ∈ ids) then None else subscriptions c !! k.
Proof.
  revert c. induction ids as [|id ids IH]; intros c; [done|].
  unfold unsubscribeAll in *. simpl. rewrite IH. simpl.
  destruct (decide (k ∈ ids)) as [Hin|Hin].
  - rewrite decide_True; [done | by right].
  - destruct (decide (k = id)) as [->|Hne].
    + rewrite decide_True by left. apply lookup_delete_eq.
    + rewrite decide_False by (intros [?|?]%elem_of_cons; done).
      by apply lookup_delete_ne.
Qed.

Lemma IsSubscribed_empty projectID c :
  subscriptions c = ∅ -> IsSubscribed projectID c = true.
Proof. intros E. unfold IsSubscribed. by rewrite E, map_size_empty. Qed.

Lemma IsSubscribed_nonempty projectID c :
  subscriptions c <> ∅ ->
  IsSubscribed projectID c = default false (subscriptions c !! projectID).
Proof.
  intros N. unfold IsSubscribed.
  destruct (Nat.eqb_spec (size (subscriptions c)) 0) as [E|_]; [|done].
  by apply map_size_empty_iff in E.
Qed.

(** C10.  Start from any client and subscribe it to one or more projects:
    from then on [IsSubscribed] answers by membership, so the client is no
    longer subscribed to everything.  Unsubscribe it from every project it
    holds: the subscription map is empty again and [IsSubscribed] answers
    true for every project identifier. *)
Theorem empty_subscriptions_reversible (c : Client) (ids us : list string)
    (projectID : string) :
  ids <> [] ->
  (forall k, is_Some (subscriptions c !! k) -> k ∈ us) ->
  (forall k, k ∈ ids -> k ∈ us) ->
  IsSubscribed projectID (subscribeAll ids c) =
    (if decide (projectID ∈ ids) then true
     else default false (subscriptions c !! projectID)) /\
  subscriptions (unsubscribeAll us (subscribeAll ids c)) = ∅ /\
  IsSubscribed projectID (unsubscribeAll us (subscribeAll ids c)) = true.
Proof.
  intros Hne Hc Hids.
  assert (subscriptions (unsubscribeAll us (subscribeAll ids c)) = ∅) as Hempty.
  { apply map_eq. intros k. rewrite lookup_empty, unsubscribeAll_lookup.
    destruct (decide (k ∈ us)) as [|Hk]; [done|].
    rewrite subscribeAll_lookup.
    destruct (decide (k ∈ ids)) as [Hin|_]; [by apply Hids in Hin|].
    destruct (subscriptions c !! k) eqn:E; [|done].
    exfalso. apply Hk, Hc. by rewrite E. }
  split; [|split; [exact Hempty | by apply IsSubscribed_empty]].
  rewrite IsSubscribed_nonempty, subscribeAll_lookup.
  - by destruct (decide (projectID ∈ ids)).
  - destruct ids as [|id ids']; [done|]. intros E.
    pose proof (subscribeAll_lookup (id :: ids') c id) as L.
    rewrite E, lookup_empty, decide_True in L by left. discriminate.
Qed.

End Subscriptions.

Section SubscriptionExamples.

Import websocket.

Lemma empty_subscriptions_reversible_witness :
  IsSubscribed "Y" NewClient = true /\
  IsSubscribed "Y" (subscribeAll ["X"; "Z"] NewClient) = false /\
  IsSubscribed "Y" (unsubscribeAll ["Z"; "X"] (subscribeAll ["X"; "Z"] NewClient))
    = true.
Proof.
  destruct (empty_subscriptions_reversible NewClient ["X"; "Z"] ["Z"; "X"] "Y")
    as (H1 & _ & H3).
  - discriminate.
  - intros k [v Hv]. simpl in Hv. by rewrite lookup_empty in Hv.
  - intros k Hk. apply elem_of_cons in Hk as [->|Hk]; [by right; left|].
    apply elem_of_cons in Hk as [->|Hk]; [by left | by apply elem_of_nil in Hk].
  - split; [reflexivity|]. split; [|exact H3].
    rewrite H1. reflexivity.
Defined.

End SubscriptionExamples.

(** ** Broadcasts *)

Section Broadcasts.

Import websocket.

Lemma trySend_spec data c :
  trySend data c =
    if (length (send c) <? sendCapacity)%nat then Some (enqueued data c) else None.
Proof. reflexivity. Qed.

(** One turn of the loop of [BroadcastToSubscribers] changes the visited
    client only. *)
Lemma deliverToSubscriber_lookup projectID data objs client i :
  deliverToSubscriber projectID data objs client !! i =
    if decide (i = client) then afterScoped projectID data <$> objs !! i
    else objs !! i.
Proof.
  unfold deliverToSubscriber, afterScoped.
  destruct (decide (i = client)) as [->|Hne].
  - destruct (objs !! client) as [c|] eqn:E; [|by rewrite E].
    rewrite trySend_spec. cbn [fmap option_fmap option_map]. cbv beta.
    destruct (IsSubscribed projectID c); [|by rewrite E].
    destruct (length (send c) <? sendCapacity)%nat; [|by rewrite E].
    apply list_lookup_insert_eq. by eapply lookup_lt_Some.
  - destruct (objs !! client) as [c|]; [|done].
    destruct (IsSubscribed projectID c); [|done].
    destruct (trySend data c); [|done].
    by apply list_lookup_insert_ne.
Qed.

Lemma scoped_fold_lookup projectID data keys objs i :
  NoDup keys ->
  fold_left (deliverToSubscriber projectID data) keys objs !! i =
    if decide (i ∈ keys) then afterScoped projectID data <$> objs !! i
    else objs !! i.
Proof.
  intros Hnd. revert objs. induction Hnd as [|k keys Hk Hnd IH]; intros objs.
  - done.
  - simpl. rewrite IH, !deliverToSubscriber_lookup.
    destruct (decide (i = k)) as [->|Hne].
    + rewrite decide_False by done. rewrite decide_True by left. done.
    + destruct (decide (i ∈ keys)) as [Hin|Hin].
      * rewrite decide_True by by right. done.
      * rewrite decide_False; [done|]. by intros [?|?]%elem_of_cons.
Qed.

Lemma ranged_NoDup h : NoDup (ranged h).
Proof. apply NoDup_fst_map_to_list. Qed.

Lemma elem_of_ranged h i : i ∈ ranged h <-> is_Some (clients h !! i).
Proof.
  unfold ranged. rewrite list_elem_of_fmap. split.
  - intros ([k v] & -> & Hin). apply elem_of_map_to_list in Hin. by eexists.
  - intros [v Hv]. exists (i, v). split; [done|]. by apply elem_of_map_to_list.
Qed.

(** What a scoped broadcast does to each client. *)
Lemma BroadcastToSubscribers_lookup projectID data h i :
  clientObjects (BroadcastToSubscribers projectID data h) !! i =
    if decide (is_Some (clients h !! i))
    then afterScoped projectID data <$> clientObjects h !! i
    else clientObjects h !! i.
Proof.
  unfold BroadcastToSubscribers. simpl.
  rewrite scoped_fold_lookup by apply ranged_NoDup.
  destruct (decide (i ∈ ranged h)) as [Hin|Hin].
  - rewrite decide_True; [done | by apply elem_of_ranged].
  - rewrite decide_False; [done | by rewrite <- elem_of_ranged].
Qed.

(** One turn of the [broadcast] case of [Run]. *)
Lemma deliverOrDrop_other data h client i :
  i <> client ->
  clientObjects (deliverOrDrop data h client) !! i = clientObjects h !! i /\
  clients (deliverOrDrop data h client) !! i = clients h !! i.
Proof.
  intros Hne. unfold deliverOrDrop.
  destruct (clientObjects h !! client) as [c|]; [|done].
  destruct (trySend data c); simpl.
  - split; [by apply list_lookup_insert_ne | done].
  - split; [by apply list_lookup_insert_ne | by apply lookup_delete_ne].
Qed.

Lemma deliverOrDrop_self data h client c :
  clientObjects h !! client = Some c ->
  if (length (send c) <? sendCapacity)%nat
  then clientObjects (deliverOrDrop data h client) !! client = Some (enqueued data c) /\
       clients (deliverOrDrop data h client) !! client = clients h !! client
  else clientObjects (deliverOrDrop data h client) !! client = Some (close c) /\
       clients (deliverOrDrop data h client) !! client = None.
Proof.
  intros Hc. unfold deliverOrDrop. rewrite Hc, trySend_spec.
  pose proof (lookup_lt_Some _ _ _ Hc).
  destruct (length (send c) <? sendCapacity)%nat; simpl.
  - split; [by apply list_lookup_insert_eq | done].
  - split; [by apply list_lookup_insert_eq | apply lookup_delete_eq].
Qed.

Lemma unscoped_fold_other data keys h i :
  i ∉ keys ->
  clientObjects (fold_left (deliverOrDrop data) keys h) !! i = clientObjects h !! i /\
  clients (fold_left (deliverOrDrop data) keys h) !! i = clients h !! i.
Proof.
  revert h. induction keys as [|k keys IH]; intros h Hi; [done|]. simpl.
  apply not_elem_of_cons in Hi as [Hne Hi].
  destruct (IH (deliverOrDrop data h k) Hi) as [-> ->].
  by apply deliverOrDrop_other.
Qed.

(** What the [broadcast] case of [Run] does to a registered client: the
    subscriptions are not consulted. *)
Lemma Run_Broadcast_lookup data h i c :
  is_Some (clients h !! i) ->
  clientObjects h !! i = Some c ->
  let h' := Run (Broadcast data) h in
  if (length (send c) <? sendCapacity)%nat
  then clientObjects h' !! i = Some (enqueued data c) /\
       clients h' !! i = clients h !! i
  else clientObjects h' !! i = Some (close c) /\ clients h' !! i = None.
Proof.
  intros Hreg Hc. simpl.
  apply elem_of_ranged in Hreg. pose proof (ranged_NoDup h) as Hnd.
  set (keys := ranged h) in *. clearbody keys.
  revert h Hc. induction Hnd as [|k keys Hk Hnd IH]; intros h Hc.
  - by apply elem_of_nil in Hreg.
  - simpl. destruct (decide (i = k)) as [->|Hne].
    + destruct (unscoped_fold_other data keys (deliverOrDrop data h k) k Hk)
        as [-> ->].
      by apply deliverOrDrop_self.
    + apply elem_of_cons in Hreg as [?|Hreg]; [done|].
      destruct (deliverOrDrop_other data h k i Hne) as [Ho Hm].
      specialize (IH Hreg (deliverOrDrop data h k)).
      rewrite Ho, Hm in IH. by apply IH.
Qed.

End Broadcasts.

Section Filtering.

Import websocket data.

Lemma IsSubscribed_singleton X projectID c :
  subscriptions c = {[X := true]} -> X <> projectID ->
  IsSubscribed projectID c = false.
Proof.
  intros E Hne. unfold IsSubscribed.
  rewrite E, map_size_singleton. simpl.
  by rewrite lookup_singleton_ne.
Qed.

(** C9, as amended.  Take a registered client.  A broadcast scoped to a
    project reaches it exactly when [IsSubscribed] answers true for that
    project and its send queue has room.  So a client with an empty
    subscription set receives a broadcast scoped to any project as long as
    its queue has room, a client subscribed to [X] only does not receive a
    broadcast scoped to another project, and a scoped broadcast changes no
    client that is not subscribed.  The broadcast case of the event loop,
    which has no scope, reaches every registered client whose queue has
    room, whatever its subscriptions, and leaves it registered.  When the
    queue is full the message is not delivered: a scoped broadcast leaves
    the client as it is, and the broadcast case of the event loop closes
    its channel and removes it from the hub. *)
Theorem subscription_filtering (h : Hub) (i : nat) (c : Client)
    (projectID data : string) :
  clientObjects h !! i = Some c ->
  is_Some (clients h !! i) ->
  clientObjects (BroadcastToSubscribers projectID data h) !! i =
    Some (afterScoped projectID data c) /\
  (subscriptions c = ∅ -> (length (send c) < sendCapacity)%nat ->
     afterScoped projectID data c = enqueued data c) /\
  (forall X, subscriptions c = {[X := true]} -> X <> projectID ->
     afterScoped projectID data c = c) /\
  (afterScoped projectID data c <> c -> IsSubscribed projectID c = true) /\
  ((length (send c) < sendCapacity)%nat ->
     clientObjects (Run (Broadcast data) h) !! i = Some (enqueued data c) /\
     clients (Run (Broadcast data) h) !! i = clients h !! i) /\
  ((sendCapacity <= length (send c))%nat ->
     afterScoped projectID data c = c /\
     clients (BroadcastToSubscribers projectID data h) !! i = clients h !! i /\
     clientObjects (Run (Broadcast data) h) !! i = Some (close c) /\
     clients (Run (Broadcast data) h) !! i = None).
Proof.
  intros Hc Hreg.
  pose proof (Run_Broadcast_lookup data h i c Hreg Hc) as H. cbv zeta in H.
  split; [|split; [|split; [|split; [|split]]]].
  - rewrite BroadcastToSubscribers_lookup, decide_True, Hc by done. done.
  - intros E Hroom. unfold afterScoped.
    rewrite (IsSubscribed_empty _ _ E).
    by apply Nat.ltb_lt in Hroom as ->.
  - intros X E Hne. unfold afterScoped.
    by rewrite (IsSubscribed_singleton X).
  - unfold afterScoped. destruct (IsSubscribed projectID c); done.
  - intros Hroom. apply Nat.ltb_lt in Hroom. rewrite Hroom in H. apply H.
  - intros Hfull. apply Nat.ltb_ge in Hfull. rewrite Hfull in H.
    split; [|split; [done | apply H]].
    unfold afterScoped. by rewrite Hfull, andb_false_r.
Qed.

Lemma subscription_filtering_witness :
  send <$> clientObjects (BroadcastToSubscribers "Y" "stats" hub3) !! 0%nat
    = Some ["stats"] /\
  send <$> clientObjects (BroadcastToSubscribers "Y" "stats" hub3) !! 1%nat
    = Some [] /\
  send <$> clientObjects (Run (Broadcast "stats") hub3) !! 1%nat
    = Some ["stats"] /\
  clientObjects (Run (Broadcast "stats") hub3) !! 2%nat = Some (close stuckClient) /\
  clients (Run (Broadcast "stats") hub3) !! 2%nat = None.
Proof.
  destruct (subscription_filtering hub3 0%nat NewClient "Y" "stats")
    as (H0 & E0 & _); [reflexivity | by eexists |].
  destruct (subscription_filtering hub3 1%nat pickyClient "Y" "stats")
    as (H1 & _ & E1 & _ & R1 & _); [reflexivity | by eexists |].
  destruct (subscription_filtering hub3 2%nat stuckClient "Y" "stats")
    as (_ & _ & _ & _ & _ & F2); [reflexivity | by eexists |].
  destruct F2 as (_ & _ & F2 & G2); [vm_compute; lia|].
  destruct R1 as [R1 _]; [vm_compute; lia|].
  split; [|split; [|split; [|split]]].
  - rewrite H0, E0; [reflexivity | reflexivity | vm_compute; lia].
  - rewrite H1, (E1 "X"); [reflexivity | reflexivity | discriminate].
  - rewrite R1. reflexivity.
  - exact F2.
  - exact G2.
Defined.

(** C9 as it was stated fails on a client whose queue is full.  Its
    subscription set is empty and it is registered, yet a broadcast scoped
    to a project leaves its queue as it was, and the broadcast of the event
    loop closes its channel and removes it from the hub.  It also fails for
    the broadcast of the event loop on a client subscribed to [X] only:
    whatever project the message is about, the client receives it. *)
Lemma delivery_not_by_subscription_alone :
  (clientObjects hub3 !! 2%nat = Some stuckClient /\
   clients hub3 !! 2%nat = Some true /\
   subscriptions stuckClient = ∅ /\
   clientObjects (BroadcastToSubscribers "Y" "status of Y" hub3) !! 2%nat
     = Some stuckClient /\
   clientObjects (Run (Broadcast "status of Y") hub3) !! 2%nat
     = Some (close stuckClient) /\
   clients (Run (Broadcast "status of Y") hub3) !! 2%nat = None) /\
  (clientObjects hub3 !! 1%nat = Some pickyClient /\
   subscriptions pickyClient = {[ "X" := true ]} /\
   IsSubscribed "Y" pickyClient = false /\
   send <$> clientObjects (Run (Broadcast "status of Y") hub3) !! 1%nat
     = Some ["status of Y"]).
Proof. repeat split; vm_compute; reflexivity. Qed.

End Filtering.

(** ** Protection across refreshes *)

Section ApplyProtection.

Import manager.

Variables (lib : Lib) (m : Manager).

Lemma protectByContainers_ID cs p : ID (protectByContainers lib cs p) = ID p.
Proof.
  induction cs as [|ctr cs IH]; [done|]. simpl.
  destruct (patterns.IsProtectedByPattern lib (ctrName ctr)) as [[] ?]; [done|].
  by destruct (patterns.IsProtectedByPattern lib (Image ctr)) as [[] ?].
Qed.

Lemma applyProtection_ID p : ID (applyProtection lib m p) = ID p.
Proof.
  unfold applyProtection. destruct (Protected p); [done|].
  destruct (match protection m with Some _ => _ | None => _ end); [done|].
  apply protectByContainers_ID.
Qed.

(** [applyProtection] returns at once on a protected project. *)
Lemma applyProtection_protected p :
  Protected p = true -> applyProtection lib m p = p.
Proof. intros H. unfold applyProtection. by rewrite H. Qed.

Lemma attach_fields d containers p :
  ID (attach d containers p) = ID p /\
  Protected (attach d containers p) = Protected p /\
  ProtectionReason_ (attach d containers p) = ProtectionReason_ p.
Proof. unfold attach. by destruct (containers !! _). Qed.

End ApplyProtection.

Section RefreshLoop.

Import manager.

Variables (lib : Lib) (m : Manager) (d : Daemon).
Variables (containers : gmap string (list Container)).
Variables (prefs : option (gmap string ProjectPreference)).
Variables (old : gmap string ptr).

(** One turn of the loop of [Refresh] on a live pointer: the object is
    replaced by one with the same ID, entered under that ID, and protected
    for the same reason as the existing entry if that one is protected. *)
Lemma refreshOne_step h new l p :
  h !! l = Some p ->
  exists p',
    refreshOne lib m d containers prefs old (h, new) l =
      (<[l := p']> h, <[ID p := l]> new) /\
    ID p' = ID p /\
    (forall e ep, old !! ID p = Some e -> h !! e = Some ep -> Protected ep = true ->
       Protected p' = true /\ ProtectionReason_ p' = ProtectionReason_ ep).
Proof.
  intros Hl. unfold refreshOne. rewrite Hl.
  set (p1 := match old !! ID p with Some _ => _ | None => p end).
  set (p2 := match prefs with Some _ => _ | None => p1 end).
  assert (ID p1 = ID p) as I1.
  { unfold p1. destruct (old !! ID p) as [e|]; [|done]. by destruct (h !! e). }
  assert (ID p2 = ID p1 /\ Protected p2 = Protected p1 /\
          ProtectionReason_ p2 = ProtectionReason_ p1) as (I2 & P2 & R2).
  { unfold p2. destruct prefs as [pm|]; [|done]. by destruct (pm !! ID p1). }
  destruct (attach_fields d containers p2) as (I3 & P3 & R3).
  pose proof (applyProtection_ID lib m (attach d containers p2)) as I4.
  eexists. split; [|split].
  - simpl. rewrite I4, I3, I2, I1. reflexivity.
  - simpl. congruence.
  - intros e ep He Hep Hprot.
    assert (Protected p1 = true /\ ProtectionReason_ p1 = ProtectionReason_ ep)
      as [P1 R1].
    { unfold p1. rewrite He, Hep. simpl. by rewrite Hprot. }
    rewrite applyProtection_protected by congruence.
    simpl. split; congruence.
Qed.

Lemma refreshOne_dead h new l :
  h !! l = None -> refreshOne lib m d containers prefs old (h, new) l = (h, new).
Proof. intros Hl. unfold refreshOne. by rewrite Hl. Qed.

Variables (id : string) (reason : ProtectionReason).

(** The loop invariant: the old map and the new one file objects under
    their IDs, and their entries for [id] are protected for [reason]. *)
Lemma refreshOne_invariant h new l h' new' :
  refreshOne lib m d containers prefs old (h, new) l = (h', new') ->
  is_Some (old !! id) ->
  names old h -> guards id reason old h ->
  names new h -> guards id reason new h ->
  (names old h' /\ guards id reason old h' /\
   names new' h' /\ guards id reason new' h') /\
  (forall l2 p2, h !! l2 = Some p2 ->
     exists p2', h' !! l2 = Some p2' /\ ID p2' = ID p2) /\
  (is_Some (new !! id) -> is_Some (new' !! id)) /\
  (forall p, h !! l = Some p -> ID p = id -> is_Some (new' !! id)).
Proof.
  intros Hstep [l0 Hl0] Hno Hgo Hnn Hgn.
  destruct (h !! l) as [p|] eqn:Hl.
  2: { rewrite refreshOne_dead in Hstep by done. injection Hstep as <- <-.
       repeat split; try done. intros l2 p2 H2. by exists p2. }
  destruct (refreshOne_step h new l p Hl) as (p' & Hr & Hid & Hprot).
  rewrite Hr in Hstep. injection Hstep as <- <-.
  pose proof (lookup_lt_Some _ _ _ Hl) as Hlt.
  assert (forall l2 p2, h !! l2 = Some p2 ->
            exists p2', <[l := p']> h !! l2 = Some p2' /\ ID p2' = ID p2) as Hids.
  { intros l2 p2 H2. destruct (decide (l2 = l)) as [->|Hne].
    - exists p'. rewrite list_lookup_insert_eq by done. split; congruence.
    - exists p2. by rewrite list_lookup_insert_ne. }
  assert (ID p = id -> Protected p' = true /\ ProtectionReason_ p' = reason) as Hkeep.
  { intros E. destruct (Hgo l0 Hl0) as (p0 & H0 & P0 & R0).
    destruct (Hprot l0 p0) as [? ?]; [congruence | done | done |].
    split; congruence. }
  split; [split; [|split; [|split]]|split; [|split]].
  - intros k l1 Hk. destruct (Hno k l1 Hk) as (p1 & H1 & I1).
    destruct (Hids l1 p1 H1) as (p1' & ? & ?). exists p1'. split; congruence.
  - intros l1 Hl1. destruct (Hgo l1 Hl1) as (p1 & H1 & P1 & R1).
    destruct (decide (l1 = l)) as [->|Hne].
    + assert (p1 = p) as -> by congruence.
      destruct (Hno id l Hl1) as (q & Hq & Iq).
      assert (q = p) as -> by congruence.
      exists p'. rewrite list_lookup_insert_eq by done.
      destruct (Hkeep Iq). done.
    + exists p1. by rewrite list_lookup_insert_ne.
  - intros k l1 Hk. destruct (decide (k = ID p)) as [->|Hne].
    + rewrite lookup_insert_eq in Hk. injection Hk as <-.
      exists p'. by rewrite list_lookup_insert_eq.
    + rewrite lookup_insert_ne in Hk by done.
      destruct (Hnn k l1 Hk) as (p1 & H1 & I1).
      exists p1. rewrite list_lookup_insert_ne; [done|].
      intros <-. congruence.
  - intros l1 Hl1. destruct (decide (id = ID p)) as [E|Hne].
    + rewrite E, lookup_insert_eq in Hl1. injection Hl1 as <-.
      exists p'. rewrite list_lookup_insert_eq by done.
      destruct Hkeep; done.
    + rewrite lookup_insert_ne in Hl1 by done.
      destruct (Hgn l1 Hl1) as (p1 & H1 & P1 & R1).
      destruct (Hnn id l1 Hl1) as (q & Hq & Iq).
      exists p1. rewrite list_lookup_insert_ne; [done|].
      intros <-. congruence.
  - exact Hids.
  - intros [l1 H1]. destruct (decide (id = ID p)) as [E|Hne].
    + rewrite E, lookup_insert_eq. by eexists.
    + rewrite lookup_insert_ne by done. by eexists.
  - intros q Hq E. assert (q = p) as -> by congruence.
    rewrite E, lookup_insert_eq. by eexists.
Qed.

Lemma refresh_fold_invariant found h new h' new' :
  fold_left (refreshOne lib m d containers prefs old) found (h, new) = (h', new') ->
  is_Some (old !! id) ->
  names old h -> guards id reason old h ->
  names new h -> guards id reason new h ->
  (names new' h' /\ guards id reason new' h') /\
  (is_Some (new !! id) \/
   (exists l p, l ∈ found /\ h !! l = Some p /\ ID p = id) ->
   is_Some (new' !! id)).
Proof.
  revert h new. induction found as [|l found IH]; intros h new Hf Ho Hno Hgo Hnn Hgn.
  - simpl in Hf. injection Hf as <- <-. split; [done|].
    intros [?|(l & p & Hin & _)]; [done | by apply elem_of_nil in Hin].
  - cbn [fold_left] in Hf.
    destruct (refreshOne lib m d containers prefs old (h, new) l) as [h1 new1] eqn:E.
    destruct (refreshOne_invariant h new l h1 new1 E Ho Hno Hgo Hnn Hgn)
      as ((Hno1 & Hgo1 & Hnn1 & Hgn1) & Hids & Hkeep & Hnow).
    destruct (IH h1 new1 Hf Ho Hno1 Hgo1 Hnn1 Hgn1) as [Hinv Hfind].
    split; [exact Hinv|].
    intros [Hsome|(l2 & p2 & Hin & H2 & I2)]; apply Hfind.
    + left. by apply Hkeep.
    + apply elem_of_cons in Hin as [->|Hin].
      * left. by apply (Hnow p2).
      * right. destruct (Hids l2 p2 H2) as (p2' & ? & ?).
        exists l2, p2'. split; [done|]. split; congruence.
Qed.

End RefreshLoop.

Section ScanFrame.

Import finder.

(** A scan allocates objects and leaves the existing ones and the
    manager's map alone. *)
Lemma parseComposeFile_frame lib fs now path st :
  projects (parseComposeFile lib fs now path st).1 = projects st /\
  exists extra, objects (parseComposeFile lib fs now path st).1 = objects st ++ extra.
Proof.
  unfold parseComposeFile.
  destruct (stat fs path) as [modTime|]; [|by split; [|exists []; rewrite app_nil_r]].
  destruct (fileChecksum fs path) as [checksum|];
    [|by split; [|exists []; rewrite app_nil_r]].
  destruct (cacheValid _ _ _); [by split; [|exists []; rewrite app_nil_r]|].
  destruct (loadProject fs path) as [| |services]; simpl;
    try by split; [|exists []; rewrite app_nil_r].
  destruct (length services =? 0)%nat; simpl.
  - by split; [|exists []; rewrite app_nil_r].
  - split; [done|]. by eexists.
Qed.

Lemma scanLoop_frame lib env i files st found :
  projects (scanLoop lib env i files st found).1.1 = projects st /\
  exists extra, objects (scanLoop lib env i files st found).1.1 = objects st ++ extra.
Proof.
  revert i st found. induction files as [|path files IH]; intros i st found.
  - simpl. by split; [|exists []; rewrite app_nil_r].
  - simpl. destruct (ctxDone env i).
    + simpl. by split; [|exists []; rewrite app_nil_r].
    + destruct (parseComposeFile_frame lib (fs env) (scanNow env) path st)
        as (Hp & extra & Ho).
      destruct (parseComposeFile lib (fs env) (scanNow env) path st) as [st1 r].
      simpl in Hp, Ho.
      assert (forall found',
        projects (scanLoop lib env (S i) files st1 found').1.1 = projects st /\
        exists extra', objects (scanLoop lib env (S i) files st1 found').1.1
                       = objects st ++ extra') as Hrest.
      { intros found'. destruct (IH (S i) st1 found') as (Hp' & extra' & Ho').
        split; [congruence|]. exists (extra ++ extra').
        by rewrite Ho', Ho, <- app_assoc. }
      destruct r as [|[proj|]]; apply Hrest.
Qed.

Lemma Scan_frame lib env st :
  projects (Scan lib env st).1.1 = projects st /\
  exists extra, objects (Scan lib env st).1.1 = objects st ++ extra.
Proof. apply scanLoop_frame. Qed.

Lemma names_grow pm h extra : names pm h -> names pm (h ++ extra).
Proof.
  intros H k l Hk. destruct (H k l Hk) as (p & Hp & Hid).
  exists p. split; [|done]. by apply lookup_app_l_Some.
Qed.

Lemma guards_grow id reason pm h extra :
  guards id reason pm h -> guards id reason pm (h ++ extra).
Proof.
  intros H l Hl. destruct (H l Hl) as (p & Hp & ?).
  exists p. split; [|done]. by apply lookup_app_l_Some.
Qed.

End ScanFrame.

Section Sticky.

Import manager ops.

Variables (lib : Lib) (m : Manager).
Variables (id : string) (reason : ProtectionReason).

(** A completed or failed refresh whose scan finds [id] keeps the project
    protected for the same reason. *)
Lemma Refresh_keeps env d st :
  keyed st -> protectedAs id reason st ->
  scanFinds lib env id st = true ->
  keyed (Refresh lib m env d st).1 /\ protectedAs id reason (Refresh lib m env d st).1.
Proof.
  intros Hk [Hsome Hg] Hfind. unfold Refresh, scanFinds in *.
  destruct (Scan_frame lib env st) as (Hp & extra & Ho).
  destruct (finder.Scan lib env st) as [[st1 found] ok]. simpl in Hp, Ho.
  assert (keyed st1) as Hk1.
  { unfold keyed. rewrite Hp, Ho. by apply names_grow. }
  assert (protectedAs id reason st1) as Hp1.
  { unfold protectedAs. rewrite Hp, Ho. split; [done | by apply guards_grow]. }
  destruct ok; simpl; [|done].
  destruct (containersByProject d) as [containers|]; [|done].
  set (prefs := if hasStore m then _ else None).
  destruct (fold_left _ found (objects st1, ∅)) as [h' new'] eqn:F.
  destruct Hp1 as [Hsome1 Hg1].
  destruct (refresh_fold_invariant lib m d containers prefs (projects st1)
              id reason found (objects st1) ∅ h' new' F Hsome1 Hk1 Hg1)
    as [[Hn Hgn] Hhas].
  - intros k l Hl. by rewrite lookup_empty in Hl.
  - intros l Hl. by rewrite lookup_empty in Hl.
  - simpl. split; [exact Hn|]. split; [|exact Hgn].
    apply Hhas. right.
    apply existsb_exists in Hfind as (l & Hin & Hl).
    destruct (objects st1 !! l) as [p|] eqn:E; [|done].
    apply String.eqb_eq in Hl. exists l, p.
    split; [by apply list_elem_of_In | done].
Qed.

(** Overwriting one object by one with the same ID, which stays protected
    if it is the entry of [id], keeps both invariants. *)
Lemma insert_keeps (pm : gmap string ptr) (h : list Project) (l : ptr)
    (f : Project -> Project) :
  (forall p, h !! l = Some p ->
     ID (f p) = ID p /\
     (ID p = id -> Protected p = true ->
        Protected (f p) = true /\ ProtectionReason_ (f p) = ProtectionReason_ p)) ->
  names pm h ->
  names pm (<[l := f (deref h l)]> h) /\
  (guards id reason pm h -> guards id reason pm (<[l := f (deref h l)]> h)).
Proof.
  intros Hf Hn. destruct (h !! l) as [p|] eqn:Hl.
  2: { rewrite list_insert_ge by by apply lookup_ge_None. done. }
  rewrite (deref_lookup _ _ _ Hl). destruct (Hf p eq_refl) as [Hid Hprot].
  pose proof (lookup_lt_Some _ _ _ Hl) as Hlt. split.
  - intros k l1 Hk. destruct (Hn k l1 Hk) as (p1 & H1 & I1).
    destruct (decide (l1 = l)) as [->|Hne].
    + exists (f p). rewrite list_lookup_insert_eq by done. split; congruence.
    + exists p1. by rewrite list_lookup_insert_ne.
  - intros Hg l1 Hl1. destruct (Hg l1 Hl1) as (p1 & H1 & P1 & R1).
    destruct (decide (l1 = l)) as [->|Hne].
    + assert (p1 = p) as -> by congruence.
      destruct (Hn id l Hl1) as (q & Hq & Iq).
      assert (q = p) as -> by congruence.
      destruct (Hprot Iq P1). exists (f p).
      rewrite list_lookup_insert_eq by done. split; [done|]. split; congruence.
    + exists p1. by rewrite list_lookup_insert_ne.
Qed.

(** The targeted refresh touches containers, status and time stamp. *)
Lemma refreshProject_keeps d id' st :
  keyed st -> protectedAs id reason st ->
  keyed (refreshProject d id' st).1 /\
  protectedAs id reason (refreshProject d id' st).1.
Proof.
  intros Hk [Hsome Hg]. unfold refreshProject.
  destruct (containersByProject d) as [containers|]; [|done].
  destruct (projects st !! id') as [proj|]; [|done]. simpl.
  destruct (insert_keeps (projects st) (objects st) proj
              (fun p => setUpdatedAt (now d) (attach d containers p))) as [H1 H2].
  - intros p _. destruct (attach_fields d containers p) as (? & ? & ?).
    simpl. split; [done|]. intros _ Hp. split; congruence.
  - exact Hk.
  - split; [exact H1|]. split; [done | by apply H2].
Qed.

Lemma emit_keeps e st :
  keyed st -> protectedAs id reason st ->
  keyed (emit e st) /\ protectedAs id reason (emit e st).
Proof. done. Qed.

Lemma StartProject_keeps d id' st :
  keyed st -> protectedAs id reason st ->
  keyed (StartProject d id' st).1 /\ protectedAs id reason (StartProject d id' st).1.
Proof.
  intros Hk Hp. unfold StartProject, GetProject.
  destruct (projects st !! id'); [|done].
  unfold ComposeUp, runComposeCommand. destruct (runCompose d _ _); [done|].
  by apply refreshProject_keeps.
Qed.

Lemma StopProject_keeps d id' force st :
  keyed st -> protectedAs id reason st ->
  keyed (StopProject d id' force st).1 /\
  protectedAs id reason (StopProject d id' force st).1.
Proof.
  intros Hk Hp. unfold StopProject, GetProject.
  destruct (projects st !! id'); [|done].
  destruct (_ && _); [done|].
  unfold ComposeDown, runComposeCommand. destruct (runCompose d _ _); [done|].
  by apply refreshProject_keeps.
Qed.

Lemma RestartProject_keeps d id' st :
  keyed st -> protectedAs id reason st ->
  keyed (RestartProject d id' st).1 /\
  protectedAs id reason (RestartProject d id' st).1.
Proof.
  intros Hk Hp. unfold RestartProject, GetProject.
  destruct (projects st !! id'); [|done].
  destruct (Protected _); [done|].
  unfold ComposeRestart, runComposeCommand. destruct (runCompose d _ _); [done|].
  by apply refreshProject_keeps.
Qed.

Lemma SetProjectDisplayName_keeps dbFail id' displayName now st :
  keyed st -> protectedAs id reason st ->
  keyed (SetProjectDisplayName m dbFail id' displayName now st).1 /\
  protectedAs id reason (SetProjectDisplayName m dbFail id' displayName now st).1.
Proof.
  intros Hk [Hsome Hg]. unfold SetProjectDisplayName.
  destruct (projects st !! id') as [proj|]; [|done].
  destruct (if hasStore m then _ else _) as [t [e|]]; [done|]. simpl.
  destruct (insert_keeps (projects st) (objects st) proj
              (fun p => setUpdatedAt now (setDisplayName displayName p)))
    as [H1 H2]; [done | exact Hk |].
  split; [exact H1|]. split; [done | by apply H2].
Qed.

Lemma SetProjectHidden_keeps dbFail id' hidden now st :
  keyed st -> protectedAs id reason st ->
  keyed (SetProjectHidden m dbFail id' hidden now st).1 /\
  protectedAs id reason (SetProjectHidden m dbFail id' hidden now st).1.
Proof.
  intros Hk [Hsome Hg]. unfold SetProjectHidden.
  destruct (projects st !! id') as [proj|]; [|done].
  destruct (if hasStore m then _ else _) as [t [e|]]; [done|]. simpl.
  destruct (insert_keeps (projects st) (objects st) proj
              (fun p => setUpdatedAt now (setHidden hidden p)))
    as [H1 H2]; [done | exact Hk |].
  split; [exact H1|]. split; [done | by apply H2].
Qed.

(** An explicit change of the protection of another project. *)
Lemma SetProjectProtection_other id' protected reason' now st :
  id' <> id ->
  keyed st -> protectedAs id reason st ->
  keyed (SetProjectProtection id' protected reason' now st).1 /\
  protectedAs id reason (SetProjectProtection id' protected reason' now st).1.
Proof.
  intros Hne Hk [Hsome Hg]. unfold SetProjectProtection.
  destruct (projects st !! id') as [proj|] eqn:Hproj; [|done]. simpl.
  destruct (insert_keeps (projects st) (objects st) proj
              (fun p => setUpdatedAt now
                 (setProtection protected (if protected then reason' else "") p)))
    as [H1 H2].
  - intros p Hp. split; [done|]. intros E.
    destruct (Hk id' proj Hproj) as (q & Hq & Iq). congruence.
  - exact Hk.
  - split; [exact H1|]. split; [done | by apply H2].
Qed.

Lemma run_keeps c st :
  keyed st -> protectedAs id reason st ->
  implicitFor lib id c st = true ->
  keyed (run lib m c st) /\ protectedAs id reason (run lib m c st).
Proof.
  intros Hk Hp Hc. destruct c; simpl in *.
  - by apply Refresh_keeps.
  - by apply StartProject_keeps.
  - by apply StopProject_keeps.
  - by apply RestartProject_keeps.
  - apply SetProjectProtection_other; [|done..].
    apply negb_true_iff, String.eqb_neq in Hc. done.
  - by apply SetProjectDisplayName_keeps.
  - by apply SetProjectHidden_keeps.
Qed.

Lemma runAll_keeps calls st :
  keyed st -> protectedAs id reason st ->
  allImplicit lib m id calls st = true ->
  keyed (runAll lib m calls st) /\ protectedAs id reason (runAll lib m calls st).
Proof.
  revert st. induction calls as [|c calls IH]; intros st Hk Hp Hall; [done|].
  simpl in Hall. apply andb_true_iff in Hall as [Hc Hall].
  destruct (run_keeps c st Hk Hp Hc) as [Hk' Hp']. simpl. by apply IH.
Qed.

End Sticky.

(** ** The invariant of the manager's map *)

Section Keyed.

Import manager ops.

Variables (lib : Lib) (m : Manager).

Lemma keyed_initial t : keyed (initial t).
Proof. intros k l H. simpl in H. by rewrite lookup_empty in H. Qed.

Lemma refreshOne_names d containers prefs old h new l h' new' :
  refreshOne lib m d containers prefs old (h, new) l = (h', new') ->
  names old h -> names new h -> names old h' /\ names new' h'.
Proof.
  intros Hstep Hno Hnn. destruct (h !! l) as [p|] eqn:Hl.
  2: { rewrite refreshOne_dead in Hstep by done. by injection Hstep as <- <-. }
  destruct (refreshOne_step lib m d containers prefs old h new l p Hl)
    as (p' & Hr & Hid & _).
  rewrite Hr in Hstep. injection Hstep as <- <-.
  pose proof (lookup_lt_Some _ _ _ Hl) as Hlt. split.
  - intros k l1 Hk. destruct (Hno k l1 Hk) as (p1 & H1 & I1).
    destruct (decide (l1 = l)) as [->|Hne].
    + exists p'. rewrite list_lookup_insert_eq by done. split; congruence.
    + exists p1. by rewrite list_lookup_insert_ne.
  - intros k l1 Hk. destruct (decide (k = ID p)) as [->|Hne].
    + rewrite lookup_insert_eq in Hk. injection Hk as <-.
      exists p'. by rewrite list_lookup_insert_eq.
    + rewrite lookup_insert_ne in Hk by done.
      destruct (Hnn k l1 Hk) as (p1 & H1 & I1).
      exists p1. rewrite list_lookup_insert_ne; [done|].
      intros <-. congruence.
Qed.

Lemma refresh_fold_names d containers prefs old found h new h' new' :
  fold_left (refreshOne lib m d containers prefs old) found (h, new) = (h', new') ->
  names old h -> names new h -> names new' h'.
Proof.
  revert h new. induction found as [|l found IH]; intros h new Hf Hno Hnn.
  - simpl in Hf. by injection Hf as <- <-.
  - cbn [fold_left] in Hf.
    destruct (refreshOne lib m d containers prefs old (h, new) l) as [h1 new1] eqn:E.
    destruct (refreshOne_names _ _ _ _ _ _ _ _ _ E Hno Hnn) as [Hno1 Hnn1].
    by apply (IH h1 new1).
Qed.

Lemma Refresh_keyed env d st : keyed st -> keyed (Refresh lib m env d st).1.
Proof.
  intros Hk. unfold Refresh.
  destruct (Scan_frame lib env st) as (Hp & extra & Ho).
  destruct (finder.Scan lib env st) as [[st1 found] ok]. simpl in Hp, Ho.
  assert (keyed st1) as Hk1.
  { unfold keyed. rewrite Hp, Ho. by apply names_grow. }
  destruct ok; simpl; [|done].
  destruct (containersByProject d) as [containers|]; [|done].
  destruct (fold_left _ found (objects st1, ∅)) as [h' new'] eqn:F. simpl.
  eapply refresh_fold_names; [exact F | exact Hk1 |].
  intros k l Hl. by rewrite lookup_empty in Hl.
Qed.

(** Overwriting an object by one with the same ID keeps the map keyed. *)
Lemma insert_names (pm : gmap string ptr) (h : list Project) (l : ptr)
    (f : Project -> Project) :
  (forall p, ID (f p) = ID p) ->
  names pm h -> names pm (<[l := f (deref h l)]> h).
Proof.
  intros Hf Hn k l1 Hk. destruct (Hn k l1 Hk) as (p1 & H1 & I1).
  destruct (decide (l1 = l)) as [->|Hne].
  - exists (f p1). rewrite (deref_lookup _ _ _ H1).
    rewrite list_lookup_insert_eq by by eapply lookup_lt_Some.
    split; [done|]. by rewrite Hf.
  - exists p1. by rewrite list_lookup_insert_ne.
Qed.

Lemma refreshProject_keyed d id st :
  keyed st -> keyed (refreshProject d id st).1.
Proof.
  intros Hk. unfold refreshProject.
  destruct (containersByProject d) as [cs|]; [|done].
  destruct (projects st !! id) as [proj|]; [|done]. simpl.
  apply (insert_names _ _ _ (fun p => setUpdatedAt (now d) (attach d cs p)));
    [|done].
  intros p. by destruct (attach_fields d cs p) as (? & _).
Qed.

(** Every call keeps the map keyed by ID. *)
Lemma run_keyed c st : keyed st -> keyed (run lib m c st).
Proof.
  intros Hk.
  destruct c as [env d|d id|d id force|d id|id prot r now|f id dn now|f id hd now];
    simpl.
  - by apply Refresh_keyed.
  - unfold StartProject, GetProject. destruct (projects st !! id); [|done].
    unfold ComposeUp, runComposeCommand. destruct (runCompose d _ _); [done|].
    by apply refreshProject_keyed.
  - unfold StopProject, GetProject. destruct (projects st !! id); [|done].
    destruct (_ && _); [done|].
    unfold ComposeDown, runComposeCommand. destruct (runCompose d _ _); [done|].
    by apply refreshProject_keyed.
  - unfold RestartProject, GetProject. destruct (projects st !! id); [|done].
    destruct (Protected _); [done|].
    unfold ComposeRestart, runComposeCommand. destruct (runCompose d _ _); [done|].
    by apply refreshProject_keyed.
  - unfold SetProjectProtection. destruct (projects st !! id) as [proj|]; [|done].
    simpl.
    by apply (insert_names _ _ _
                (fun p => setUpdatedAt now
                   (setProtection prot (if prot then r else "") p))).
  - unfold SetProjectDisplayName. destruct (projects st !! id) as [proj|]; [|done].
    destruct (if hasStore m then _ else _) as [t [e|]]; [done|]. simpl.
    by apply (insert_names _ _ _ (fun p => setUpdatedAt now (setDisplayName dn p))).
  - unfold SetProjectHidden. destruct (projects st !! id) as [proj|]; [|done].
    destruct (if hasStore m then _ else _) as [t [e|]]; [done|]. simpl.
    by apply (insert_names _ _ _ (fun p => setUpdatedAt now (setHidden hd p))).
Qed.

Lemma runAll_keyed calls st : keyed st -> keyed (runAll lib m calls st).
Proof.
  revert st. induction calls as [|c calls IH]; intros st Hk; [done|].
  simpl. by apply IH, run_keyed.
Qed.

End Keyed.

(** ** Protection is sticky *)

Section StickyClaim.

Import manager ops data.

(** C1.  Let the process have run any calls, and let the manager then hold
    project [id] with its protection flag set, for [reason].  Run any
    further calls (refreshes, starts, stops, restarts, preference updates,
    protection changes of other projects) among which there is no
    [SetProjectProtection] on [id] and in which every refresh finds [id]
    in its scan results.  Then the manager still holds [id], its
    protection flag is set, and the reason is the one carried forward. *)
Theorem protection_sticky (lib : Lib) (m : Manager)
    (t : gmap string ProjectPreference) (before calls : list Call)
    (id : string) (reason : ProtectionReason) :
  let st := runAll lib m before (initial t) in
  protectedAs id reason st ->
  allImplicit lib m id calls st = true ->
  protectedAs id reason (runAll lib m calls st).
Proof.
  intros st Hp Hall.
  apply (runAll_keeps lib m id reason calls st); [|exact Hp | exact Hall].
  apply runAll_keyed, keyed_initial.
Qed.

Lemma protection_sticky_witness :
  protectedAs blogID "user_marked"
    (runAll sample.lib plainManager laterCalls
       (runAll sample.lib plainManager discoverAndProtect (initial ∅))).
Proof.
  apply (protection_sticky sample.lib plainManager ∅ discoverAndProtect laterCalls).
  - split.
    + exists 0%nat. vm_compute. reflexivity.
    + intros l Hl. vm_compute in Hl. injection Hl as <-.
      eexists. split; [vm_compute; reflexivity|]. split; reflexivity.
  - vm_compute. reflexivity.
Defined.

(** What the later calls of the example leave behind: the refresh of the
    edited file made a new object for the blog, which carries the flag and
    the reason of the old one. *)
Example sticky_after_reparse :
  let st := runAll sample.lib plainManager laterCalls
              (runAll sample.lib plainManager discoverAndProtect (initial ∅)) in
  projects st !! blogID = Some 1%nat /\
  Protected <$> objects st !! 1%nat = Some true /\
  ProtectionReason_ <$> objects st !! 1%nat = Some "user_marked" /\
  Services <$> objects st !! 1%nat = Some ["web"; "db"].
Proof. repeat split; vm_compute; reflexivity. Qed.

(** The explicit call clears the flag, and the next refresh keeps it
    cleared. *)
Example explicit_unprotect :
  let st := runAll sample.lib plainManager
              [CallSetProtection blogID false "" 2600;
               CallRefresh blogScan quietDaemon]
              (runAll sample.lib plainManager discoverAndProtect (initial ∅)) in
  Protected <$> objects st !! 0%nat = Some false.
Proof. vm_compute. reflexivity. Qed.

(** A refresh sets the flag of an unprotected project whose container
    looks like a tunnel. *)
Example heuristic_protects :
  let d := {| containersByProject :=
                Some {[ "blog" := [container "c1" "blog-cloudflared-1"
                                     "cloudflare/cloudflared" "running"] ]};
              GetComposeProjectName := fun path => sample.Base (sample.Dir path);
              preferencesFail := false;
              preferencesDelivered := fun _ => true;
              runCompose := fun _ _ => None;
              now := 3000 |} in
  let st := run sample.lib plainManager (CallRefresh blogScan d) (initial ∅) in
  Protected <$> objects st !! 0%nat = Some true /\
  ProtectionReason_ <$> objects st !! 0%nat = Some ProtectionCloudflareTunnel /\
  Status <$> objects st !! 0%nat = Some StatusRunning.
Proof. repeat split; vm_compute; reflexivity. Qed.

End StickyClaim.

(** * Further properties of the code *)

(** ** Substrings *)

Section Substrings.

Lemma HasPrefix_spec s p :
  Go.HasPrefix s p = true <->
  exists b, list_ascii_of_string s = list_ascii_of_string p ++ b.
Proof.
  revert s. induction p as [|c p IH]; intros s; simpl.
  - split; [by eexists | done].
  - destruct s as [|d s]; simpl.
    + split; [discriminate | by intros (b & ?)].
    + rewrite andb_true_iff, IH. split.
      * intros [E (b & ->)]. apply Ascii.eqb_eq in E as ->. by exists b.
      * intros (b & [= -> ->]). split; [apply Ascii.eqb_refl | by exists b].
Qed.

Lemma Contains_spec s sub : Go.Contains s sub = true <-> occursIn sub s.
Proof.
  unfold occursIn. induction s as [|c s IH].
  - simpl. rewrite orb_false_r, HasPrefix_spec. split.
    + intros (b & E). by exists [], b.
    + intros (a & b & E). symmetry in E.
      apply app_eq_nil in E as [-> E]. exists b. by rewrite E.
  - cbn [Go.Contains]. rewrite orb_true_iff, HasPrefix_spec, IH. split.
    + intros [(b & E)|(a & b & E)].
      * by exists [], b.
      * exists (c :: a), b. simpl. by rewrite E.
    + intros (a & b & E). destruct a as [|d a].
      * left. by exists b.
      * right. simpl in E. injection E as _ E. by exists a, b.
Qed.

Lemma occursIn_trans a b c : occursIn a b -> occursIn b c -> occursIn a c.
Proof.
  intros (x & y & E1) (u & v & E2). exists (u ++ x), (y ++ v).
  rewrite E2, E1. by rewrite <- !app_assoc.
Qed.

Lemma Contains_trans s big small :
  Go.Contains big small = true -> Go.Contains s big = true ->
  Go.Contains s small = true.
Proof. rewrite !Contains_spec. apply occursIn_trans. Qed.

End Substrings.

(** ** UTF-8 *)

Section Utf8.

Import Go Go.utf8.

Lemma byte_range b : 0 <= byte b < 256.
Proof. unfold byte. pose proof (N_ascii_bounded b). lia. Qed.

Lemma toByte_byte b : toByte (byte b) = b.
Proof.
  unfold toByte. rewrite Z.mod_small by apply byte_range.
  unfold byte. rewrite N2Z.id. apply ascii_N_embedding.
Qed.

(** The first byte of an encoding of two, three or four bytes is not
    ASCII. *)
Lemma lead2 b : 128 <= byte (toByte (Z.lor t2 (byte b))).
Proof. apply Z.leb_le. by destruct b as [[] [] [] [] [] [] [] []]; vm_compute. Qed.

Lemma lead3 b : 128 <= byte (toByte (Z.lor t3 (byte b))).
Proof. apply Z.leb_le. by destruct b as [[] [] [] [] [] [] [] []]; vm_compute. Qed.

Lemma lead4 b : 128 <= byte (toByte (Z.lor t4 (byte b))).
Proof. apply Z.leb_le. by destruct b as [[] [] [] [] [] [] [] []]; vm_compute. Qed.

Lemma AppendRune_low p b :
  byte b < RuneSelf -> AppendRune p (byte b) = p ++ [b].
Proof.
  intros H. pose proof (byte_range b). unfold RuneSelf in H.
  unfold AppendRune, uint32. change (2 ^ 32) with 4294967296.
  rewrite Z.mod_small by lia.
  destruct (byte b <=? rune1Max) eqn:E; [by rewrite toByte_byte|].
  apply Z.leb_gt in E. unfold rune1Max in E. lia.
Qed.

Lemma AppendRune_high p r :
  128 <= r < 4294967296 ->
  exists b rest, AppendRune p r = p ++ b :: rest /\ 128 <= byte b.
Proof.
  intros H. unfold AppendRune, uint32. change (2 ^ 32) with 4294967296.
  rewrite Z.mod_small by lia.
  destruct (r <=? rune1Max) eqn:E.
  { apply Z.leb_le in E. unfold rune1Max in E. lia. }
  destruct (r <=? rune2Max).
  { eexists _, _. split; [reflexivity | apply lead2]. }
  destruct (_ || _).
  { eexists _, _. split; [reflexivity | apply lead3]. }
  destruct (r <=? rune3Max).
  { eexists _, _. split; [reflexivity | apply lead3]. }
  eexists _, _. split; [reflexivity | apply lead4].
Qed.

Lemma land_mask x n : 0 <= n -> 0 <= Z.land x (Z.ones n) < 2 ^ n.
Proof.
  intros H. rewrite Z.land_ones by done. apply Z.mod_pos_bound.
  by apply Z.pow_pos_nonneg.
Qed.

Lemma lor_bound x y : 0 <= x -> 0 <= y -> 0 <= Z.lor x y <= x + y.
Proof.
  intros Hx Hy. pose proof (Z.add_lor_land x y).
  assert (0 <= Z.land x y) by (apply Z.land_nonneg; by left).
  assert (0 <= Z.lor x y) by by apply Z.lor_nonneg.
  lia.
Qed.

Lemma shifted_mask x n k :
  0 <= n -> 0 <= k -> 0 <= Z.shiftl (Z.land x (Z.ones n)) k < 2 ^ n * 2 ^ k.
Proof.
  intros Hn Hk. pose proof (land_mask x n Hn).
  rewrite Z.shiftl_mul_pow2 by done.
  assert (0 < 2 ^ k) by by apply Z.pow_pos_nonneg. nia.
Qed.

(** One turn of a [range] loop over a string: a byte below [RuneSelf] is
    its own rune and the loop advances by it; any other turn yields a rune
    that is not ASCII. *)
Lemma rangeRunes_step s0 rest0 :
  exists r pre rest,
    rangeRunes (s0 :: rest0) = r :: rangeRunes rest /\ rest0 = pre ++ rest /\
    ((byte s0 < RuneSelf /\ r = byte s0 /\ pre = []) \/ 128 <= r < 4294967296).
Proof.
  cbn [rangeRunes].
  destruct (byte s0 <? RuneSelf) eqn:E0.
  { exists (byte s0), [], rest0. split; [done|]. split; [done|]. left.
    by apply Z.ltb_lt in E0. }
  assert (exists r pre rest,
    RuneError :: rangeRunes rest0 = r :: rangeRunes rest /\ rest0 = pre ++ rest /\
    ((byte s0 < RuneSelf /\ r = byte s0 /\ pre = []) \/ 128 <= r < 4294967296))
    as Bad.
  { exists RuneError, [], rest0. split; [done|]. split; [done|]. right.
    unfold RuneError. lia. }
  destruct (_ && _).
  { destruct rest0 as [|s1 rest1]; [exact Bad|]. cbv zeta.
    destruct (continues s1 && _) eqn:E; [|exact Bad].
    apply andb_true_iff in E as [_ E]. apply Z.ltb_lt in E. unfold rune1Max in E.
    eexists _, [s1], rest1. split; [reflexivity|]. split; [done|]. right.
    split; [lia|].
    pose proof (shifted_mask (byte s0) 5 6 ltac:(lia) ltac:(lia)) as A.
    pose proof (land_mask (byte s1) 6 ltac:(lia)) as B.
    change (Z.ones 5) with mask2 in A. change (Z.ones 6) with maskx in B.
    pose proof (lor_bound _ _ (proj1 A) (proj1 B)). simpl in *. lia. }
  destruct (_ && _).
  { destruct rest0 as [|s1 [|s2 rest2]]; [exact Bad | exact Bad |]. cbv zeta.
    destruct (continues s1 && _ && _ && _) eqn:E; [|exact Bad].
    apply andb_true_iff in E as [E _]. apply andb_true_iff in E as [_ E].
    apply Z.ltb_lt in E. unfold rune2Max in E.
    eexists _, [s1; s2], rest2. split; [reflexivity|]. split; [done|]. right.
    split; [lia|].
    pose proof (shifted_mask (byte s0) 4 12 ltac:(lia) ltac:(lia)) as A.
    pose proof (shifted_mask (byte s1) 6 6 ltac:(lia) ltac:(lia)) as B.
    pose proof (land_mask (byte s2) 6 ltac:(lia)) as C.
    change (Z.ones 4) with mask3 in A. change (Z.ones 6) with maskx in B, C.
    pose proof (lor_bound _ _ (proj1 A) (proj1 B)) as AB.
    pose proof (lor_bound _ _ (proj1 AB) (proj1 C)). simpl in *. lia. }
  destruct (_ && _); [|exact Bad].
  destruct rest0 as [|s1 [|s2 [|s3 rest3]]]; [exact Bad | exact Bad | exact Bad |].
  cbv zeta. destruct (continues s1 && _ && _ && _ && _) eqn:E; [|exact Bad].
  apply andb_true_iff in E as [E E2]. apply andb_true_iff in E as [_ E].
  apply Z.ltb_lt in E. apply Z.leb_le in E2. unfold rune3Max in E. unfold MaxRune in E2.
  eexists _, [s1; s2; s3], rest3. split; [reflexivity|]. split; [done|]. right. lia.
Qed.

End Utf8.

(** ** patterns.go *)

Section Patterns.

Import Go Go.utf8 patterns classify.

(** A part that [splitByDelimiters] cuts and that is ASCII is a run of the
    input. *)
Lemma splitByDelimiters_aux_parts n s current result part :
  (length s <= n)%nat ->
  isASCII part = true ->
  part ∈ splitByDelimiters_aux (rangeRunes s) current result ->
  part ∈ result \/
  (exists p b, list_ascii_of_string part = current ++ p /\ s = p ++ b) \/
  (exists a b, s = a ++ list_ascii_of_string part ++ b).
Proof.
  intros Hn HA. revert s current result Hn.
  induction n as [|n IH]; intros s current result Hn.
  all: destruct s as [|s0 rest0]; [|simpl in Hn; try lia].
  1,2: simpl; destruct (0 <? length current)%nat; [|by left];
    intros [?|H]%elem_of_app; [by left|];
    apply list_elem_of_singleton in H as ->;
    right; left; exists [], [];
    by rewrite list_ascii_of_string_of_list_ascii, app_nil_r.
  destruct (rangeRunes_step s0 rest0) as (r & pre & rest & -> & -> & Hr).
  assert (length rest <= n)%nat as Hlen by (rewrite length_app in Hn; lia).
  cbn [splitByDelimiters_aux].
  destruct Hr as [(Hlt & -> & ->)|Hr].
  - simpl. destruct (_ || _).
    + destruct (0 <? length current)%nat eqn:L.
      * intros [H|[(p & b & E & ->)|(a & b & ->)]]%IH; [| | |done].
        -- apply elem_of_app in H as [?|H]; [by left|].
           apply list_elem_of_singleton in H as ->.
           right; left. exists [], (s0 :: rest).
           by rewrite list_ascii_of_string_of_list_ascii, app_nil_r.
        -- right; right. exists [s0], b. simpl in E. by rewrite E.
        -- right; right. by exists (s0 :: a), b.
      * destruct current; [|discriminate].
        intros [H|[(p & b & E & ->)|(a & b & ->)]]%IH; [by left | | | done].
        -- right; right. exists [s0], b. simpl in E. by rewrite E.
        -- right; right. by exists (s0 :: a), b.
    + rewrite AppendRune_low by done.
      intros [H|[(p & b & E & ->)|(a & b & ->)]]%IH; [by left | | | done].
      * right; left. exists (s0 :: p), b. by rewrite E, <- app_assoc.
      * right; right. by exists (s0 :: a), b.
  - assert ((r =? byte "-") || (r =? byte "_") || (r =? byte ".") = false) as ->.
    { rewrite !orb_false_iff, !Z.eqb_neq. vm_compute byte. lia. }
    destruct (AppendRune_high current r Hr) as (b0 & more & -> & Hb).
    intros [H|[(p & b & E & ->)|(a & b & ->)]]%IH; [by left | | | done].
    + exfalso. unfold isASCII in HA. rewrite E in HA.
      rewrite forallb_forall in HA. specialize (HA b0).
      rewrite Z.ltb_lt in HA. unfold RuneSelf in HA.
      assert (byte b0 < 128); [|lia]. apply HA.
      rewrite <- !app_assoc. apply in_app_iff. right. by left.
    + right; right. exists (s0 :: pre ++ a), b. simpl. by rewrite <- app_assoc.
Qed.

(** For an ASCII pattern the second loop of [containsPattern] never changes
    the answer of the first test. *)
Lemma containsPattern_Contains s pattern :
  isASCII pattern = true ->
  containsPattern s pattern = Go.Contains s pattern.
Proof.
  intros HA.
  unfold containsPattern. destruct (Go.Contains s pattern) eqn:C; [done|].
  apply not_true_is_false. intros H.
  apply existsb_exists in H as (part & Hin & E). apply String.eqb_eq in E as ->.
  apply list_elem_of_In in Hin.
  assert (Go.Contains s pattern = true); [|congruence].
  apply Contains_spec.
  eapply splitByDelimiters_aux_parts in Hin as [Hin|[(p & b & E1 & E2)|(a & b & E)]];
    [by apply elem_of_nil in Hin | | | done | done].
  - exists [], b. simpl in *. by rewrite E1.
  - by exists a, b.
Qed.

(** X1.  For a pattern of ASCII bytes [containsPattern] is substring
    search: it holds exactly when the pattern occurs in the text as a run of
    consecutive bytes, and agrees with [strings.Contains] on every text; a
    part cut at the delimiters that equals the pattern is already found by
    the first test. *)
Theorem containsPattern_is_Contains (s pattern : string) :
  isASCII pattern = true ->
  containsPattern s pattern = Go.Contains s pattern /\
  (containsPattern s pattern = true <-> occursIn pattern s).
Proof.
  intros HA. rewrite containsPattern_Contains by done.
  split; [done | apply Contains_spec].
Qed.

Lemma existsb_Contains_cloudflare lower :
  existsb (Go.Contains lower) cloudflarePatterns =
    Go.Contains lower "cloudflare" || Go.Contains lower "tunnel"
    || Go.Contains lower "argo".
Proof.
  unfold cloudflarePatterns. simpl. rewrite orb_false_r.
  destruct (Go.Contains lower "cloudflare") eqn:A; [done|].
  destruct (Go.Contains lower "tunnel") eqn:B.
  - by rewrite !orb_true_r.
  - destruct (Go.Contains lower "cloudflared") eqn:C.
    { rewrite (Contains_trans lower "cloudflared" "cloudflare") in A; done. }
    destruct (Go.Contains lower "cf-tunnel") eqn:D.
    { rewrite (Contains_trans lower "cf-tunnel" "tunnel") in B; done. }
    destruct (Go.Contains lower "cftunnel") eqn:E.
    { rewrite (Contains_trans lower "cftunnel" "tunnel") in B; done. }
    done.
Qed.

(** X2.  A name is protected as a tunnel exactly when its lower-cased form
    contains [cloudflare], [tunnel] or [argo]; the three longer patterns of
    the list add nothing.  The tunnel reason wins over the reverse-proxy
    one, and the reason is empty exactly when the name is not protected. *)
Theorem IsProtectedByPattern_reasons (lib : Lib) (name : string) :
  let lower := strings_ToLower lib name in
  let tunnel := Go.Contains lower "cloudflare" || Go.Contains lower "tunnel"
                || Go.Contains lower "argo" in
  let proxy := existsb (Go.Contains lower) criticalPatterns in
  IsProtectedByPattern lib name =
    (if tunnel then (true, ProtectionCloudflareTunnel)
     else if proxy then (true, ProtectionAutoDetected)
     else (false, "")) /\
  ((IsProtectedByPattern lib name).1 = false <->
   (IsProtectedByPattern lib name).2 = "").
Proof.
  simpl. unfold IsProtectedByPattern. rewrite existsb_Contains_cloudflare.
  split; [done|].
  destruct (_ || _); [done|]. by destruct (existsb _ criticalPatterns).
Qed.

(** X3.  [detectEnvironment] never answers unknown.  Where
    [ClassifyComposeFile] of the file's base name knows the environment,
    [detectEnvironment] gives the same one; where it does not, the answer is
    production if the lower-cased directory name contains a production
    pattern, and development otherwise. *)
Theorem detectEnvironment_classified (lib : Lib) (composePath : string) :
  let byName := infoEnvironment (ClassifyComposeFile lib (filepath_Base lib composePath)) in
  let dir := strings_ToLower lib (filepath_Base lib (filepath_Dir lib composePath)) in
  detectEnvironment lib composePath <> EnvUnknown /\
  (byName <> EnvUnknown -> detectEnvironment lib composePath = byName) /\
  (byName = EnvUnknown ->
     detectEnvironment lib composePath =
       if existsb (Go.Contains dir) productionPatterns
       then EnvProduction else EnvDevelopment).
Proof.
  intros byName dir. subst byName dir.
  unfold detectEnvironment, ClassifyComposeFile, detectEnvironmentFromName.
  cbn [infoEnvironment].
  set (n := Go.TrimSuffix _ _).
  destruct (existsb (containsPattern n) productionPatterns); [done|].
  destruct (existsb (containsPattern n) developmentPatterns); [done|].
  assert (forall d, existsb (containsPattern d) productionPatterns =
                    existsb (Go.Contains d) productionPatterns) as ->.
  { intros d. unfold productionPatterns. simpl.
    by rewrite !containsPattern_Contains. }
  destruct (existsb _ productionPatterns); repeat split; done.
Qed.

End Patterns.

Section PatternExamples.

Import patterns classify.

Lemma detectEnvironment_classified_witness :
  detectEnvironment sample.lib "/srv/shop/compose.prod.yml" = EnvProduction /\
  detectEnvironment sample.lib "/srv/live-shop/compose.yml" = EnvProduction /\
  detectEnvironment sample.lib "/srv/shop/compose.yml" = EnvDevelopment.
Proof.
  destruct (detectEnvironment_classified sample.lib "/srv/shop/compose.prod.yml")
    as (_ & H1 & _).
  destruct (detectEnvironment_classified sample.lib "/srv/live-shop/compose.yml")
    as (_ & _ & H2).
  destruct (detectEnvironment_classified sample.lib "/srv/shop/compose.yml")
    as (_ & _ & H3).
  split; [|split].
  - rewrite H1; [reflexivity | discriminate].
  - rewrite H2; reflexivity.
  - rewrite H3; reflexivity.
Defined.

Lemma containsPattern_is_Contains_witness :
  containsPattern "docker-compose.prod" "prod" = true /\
  occursIn "prod" "docker-compose.prod".
Proof.
  destruct (containsPattern_is_Contains "docker-compose.prod" "prod") as [H1 H2].
  - reflexivity.
  - split; [rewrite H1; reflexivity | apply H2; rewrite H1; reflexivity].
Defined.

(** A text that is not valid UTF-8: the byte [0xFF] is read as U+FFFD, so
    the part cut from it equals the encoding of U+FFFD, which does not occur
    in the text. *)
Example containsPattern_replacement :
  let text := string_of_list_ascii [Go.toByte 0xFF] in
  let pattern := string_of_list_ascii (map Go.toByte [0xEF; 0xBF; 0xBD]) in
  containsPattern text pattern = true /\
  Go.Contains text pattern = false /\ isASCII pattern = false.
Proof. by vm_compute. Qed.

(** Substring search makes [maintenance] a production file and [cargo] a
    tunnel. *)
Example substring_matches :
  containsPattern "maintenance" "main" = true /\
  detectEnvironment sample.lib "/srv/shop/maintenance.yml" = EnvProduction /\
  IsProtectedByPattern sample.lib "cargo-tracker" = (true, ProtectionCloudflareTunnel).
Proof. repeat split. Qed.

End PatternExamples.

(** ** finder.go: excluded directories *)

Section Excluded.

Import walk.

Lemma listed_In name exclude : listed name exclude = true <-> In name exclude.
Proof.
  induction exclude as [|exc rest IH]; simpl; [split; [discriminate | done]|].
  destruct (String.eqb_spec name exc) as [->|Hne].
  - split; [by left | done].
  - rewrite IH. split; [by right | by intros [?|?]].
Qed.

(** X4.  A directory is skipped exactly when its name is on the exclude
    list, or it is hidden (its name starts with a dot and is neither [.] nor
    [..]) and is not one of [.docker] and [.devcontainer].  So the list
    cannot bring a hidden directory back into the walk, and [.docker] and
    [.devcontainer] are skipped only when listed. *)
Theorem shouldExcludeDir_spec (exclude : list string) (name : string) :
  shouldExcludeDir exclude name = true <->
  In name exclude \/
  (Go.HasPrefix name "." = true /\
   ~ In name ["."; ".."; ".docker"; ".devcontainer"]).
Proof.
  unfold shouldExcludeDir. rewrite <- listed_In.
  destruct (listed name exclude); [by destruct (_ && _); split; auto|].
  destruct (Go.HasPrefix name ".");
    destruct (String.eqb_spec name ".") as [->|N1]; simpl;
    try (split; [discriminate | intros [?|[? ?]]; [done | try done; tauto]]).
  destruct (String.eqb_spec name "..") as [->|N2]; simpl;
    try (split; [discriminate | intros [?|[? ?]]; [done | tauto]]).
  destruct (String.eqb_spec name ".docker") as [->|N3]; simpl;
    try (split; [discriminate | intros [?|[? ?]]; [done | tauto]]).
  destruct (String.eqb_spec name ".devcontainer") as [->|N4]; simpl;
    try (split; [discriminate | intros [?|[? ?]]; [done | tauto]]).
  split; [|done]. intros _. right. split; [done|].
  intros [?|[?|[?|[?|[]]]]]; congruence.
Qed.

(** With the default list: build output and dependency directories and
    every hidden directory but the two are skipped. *)
Example shouldExcludeDir_defaults :
  let exclude := NewScanner [] in
  shouldExcludeDir exclude "node_modules" = true /\
  shouldExcludeDir exclude ".config" = true /\
  shouldExcludeDir exclude ".docker" = false /\
  shouldExcludeDir exclude ".devcontainer" = false /\
  shouldExcludeDir exclude "." = false /\
  shouldExcludeDir exclude "stacks" = false /\
  shouldExcludeDir (NewScanner [".docker"]) ".docker" = true /\
  shouldExcludeDir (NewScanner [".docker"]) "node_modules" = false.
Proof. repeat split. Qed.

End Excluded.

(** ** protected.go: changing the policy *)

Section Policy.

Import protected policy.

Variable lib : Lib.

Lemma listedPath_existsb n paths :
  listedPath lib n paths =
    existsb (fun e => String.eqb (normalizePath lib e) n) paths.
Proof.
  induction paths as [|e rest IH]; [done|]. simpl.
  by destruct (String.eqb _ n).
Qed.

Lemma keepOtherPaths_filter n paths acc :
  keepOtherPaths lib n paths acc =
    acc ++ List.filter (fun e => negb (String.eqb (normalizePath lib e) n)) paths.
Proof.
  revert acc. induction paths as [|e rest IH]; intros acc; simpl.
  - by rewrite app_nil_r.
  - destruct (String.eqb _ n); simpl; rewrite IH; [done|].
    by rewrite <- app_assoc.
Qed.

Lemma keepOtherPatterns_filter pattern patterns acc :
  keepOtherPatterns pattern patterns acc =
    acc ++ List.filter (fun e => negb (String.eqb e pattern)) patterns.
Proof.
  revert acc. induction patterns as [|e rest IH]; intros acc; simpl.
  - by rewrite app_nil_r.
  - destruct (String.eqb e pattern); simpl; rewrite IH; [done|].
    by rewrite <- app_assoc.
Qed.

Lemma listedPattern_existsb pattern patterns :
  listedPattern pattern patterns = existsb (fun e => String.eqb e pattern) patterns.
Proof.
  induction patterns as [|e rest IH]; [done|]. simpl.
  by destruct (String.eqb e pattern).
Qed.

Lemma filter_none {A} (f : A -> bool) (l : list A) :
  existsb (fun x => negb (f x)) l = false -> List.filter f l = l.
Proof.
  induction l as [|x l IH]; [done|]. simpl.
  destruct (f x); simpl; [|discriminate]. intros H. by rewrite IH.
Qed.

(** X5.  After [AddProtectedProject] the path is protected, every path
    that was protected still is, and adding a path whose normal form is
    already listed changes nothing, so the list never holds two spellings
    of one path. *)
Theorem AddProtectedProject_protects (p : ProtectionConfig) (path : string) :
  IsProtected lib (Some (AddProtectedProject lib path p)) path = true /\
  (forall q, IsProtected lib (Some p) q = true ->
     IsProtected lib (Some (AddProtectedProject lib path p)) q = true) /\
  (forall q, normalizePath lib q = normalizePath lib path ->
     AddProtectedProject lib q (AddProtectedProject lib path p) =
       AddProtectedProject lib path p).
Proof.
  unfold AddProtectedProject. rewrite !listedPath_existsb.
  destruct (existsb _ (Projects p)) eqn:L.
  - split; [|split].
    + unfold IsProtected. by rewrite L.
    + done.
    + intros q E. by rewrite listedPath_existsb, E, L.
  - split; [|split].
    + unfold IsProtected. simpl. rewrite existsb_app. simpl.
      by rewrite String.eqb_refl, orb_true_r.
    + intros q. unfold IsProtected. simpl. rewrite existsb_app.
      destruct (existsb (fun e => String.eqb (normalizePath lib e) (normalizePath lib q))
                  (Projects p)); simpl; [done|].
      by destruct (String.eqb _ _).
    + intros q E. rewrite listedPath_existsb. simpl. rewrite existsb_app. simpl.
      by rewrite E, String.eqb_refl, orb_true_r.
Qed.

(** X6.  After [RemoveProtectedProject] the path is protected only if a
    pattern still hits it, paths with another normal form are judged as
    before, and removing a path that was just added to a policy which did
    not list it gives the policy back. *)
Theorem RemoveProtectedProject_effect (p : ProtectionConfig) (path : string) :
  IsProtected lib (Some (RemoveProtectedProject lib path p)) path =
    existsb (patternHits lib path) (Patterns p) /\
  (forall q, normalizePath lib q <> normalizePath lib path ->
     IsProtected lib (Some (RemoveProtectedProject lib path p)) q =
       IsProtected lib (Some p) q) /\
  (IsProtected lib (Some {| Patterns := []; Projects := Projects p |}) path = false ->
     RemoveProtectedProject lib path (AddProtectedProject lib path p) = p).
Proof.
  assert (forall q paths,
    existsb (fun e => String.eqb (normalizePath lib e) (normalizePath lib q))
      (List.filter (fun e => negb (String.eqb (normalizePath lib e)
                                     (normalizePath lib path))) paths) =
    existsb (fun e => String.eqb (normalizePath lib e) (normalizePath lib q)) paths
    && negb (String.eqb (normalizePath lib q) (normalizePath lib path))) as Hf.
  { intros q paths. induction paths as [|e rest IH]; [done|]. simpl.
    destruct (String.eqb (normalizePath lib e) (normalizePath lib path)) eqn:E1;
      simpl; rewrite IH;
      destruct (String.eqb (normalizePath lib e) (normalizePath lib q)) eqn:E2;
      destruct (String.eqb (normalizePath lib q) (normalizePath lib path)) eqn:E3;
      simpl; rewrite ?andb_false_r, ?andb_true_r; try reflexivity;
      rewrite ?String.eqb_eq, ?String.eqb_neq in *; congruence. }
  split; [|split].
  - unfold IsProtected, RemoveProtectedProject. simpl.
    rewrite keepOtherPaths_filter. simpl.
    by rewrite Hf, String.eqb_refl, andb_false_r.
  - intros q N. unfold IsProtected, RemoveProtectedProject. simpl.
    rewrite keepOtherPaths_filter. simpl. rewrite Hf.
    apply String.eqb_neq in N. by rewrite N, andb_true_r.
  - unfold IsProtected. simpl. intros L.
    assert (existsb (fun e => String.eqb (normalizePath lib e) (normalizePath lib path))
              (Projects p) = false) as L'.
    { by destruct (existsb _ (Projects p)). }
    unfold AddProtectedProject, RemoveProtectedProject.
    rewrite listedPath_existsb, L'. simpl.
    rewrite keepOtherPaths_filter. simpl.
    rewrite List.filter_app. simpl. rewrite String.eqb_refl. simpl.
    rewrite app_nil_r, filter_none; [by destruct p|].
    rewrite <- L'. clear. induction (Projects p) as [|e rest IH]; [done|].
    simpl. by rewrite negb_involutive, IH.
Qed.

(** X7.  After [AddPattern] every path whose lower-cased form contains the
    lower-cased pattern is protected, the explicit list is untouched, and
    [RemovePattern] of a pattern that was just added to a policy which did
    not list it gives the policy back.  Patterns are compared as written:
    removing another spelling of a pattern removes nothing. *)
Theorem AddPattern_protects (p : ProtectionConfig) (pattern : string) :
  (forall q,
     Go.Contains (strings_ToLower lib q) (strings_ToLower lib pattern) = true ->
     IsProtected lib (Some (AddPattern pattern p)) q = true) /\
  Projects (AddPattern pattern p) = Projects p /\
  (~ In pattern (Patterns p) -> RemovePattern pattern (AddPattern pattern p) = p) /\
  (forall other, ~ In other (Patterns p) -> RemovePattern other p = p).
Proof.
  assert (forall x l, ~ In x l ->
            List.filter (fun e => negb (String.eqb e x)) l = l) as Hkeep.
  { intros x l. induction l as [|e rest IH]; [done|]. simpl. intros N.
    destruct (String.eqb_spec e x) as [->|_]; [tauto|]. simpl.
    rewrite IH; [done | tauto]. }
  assert (forall x l, ~ In x l -> existsb (fun e => String.eqb e x) l = false) as Hno.
  { intros x l N. apply not_true_is_false. intros H.
    apply existsb_exists in H as (e & Hin & E). apply String.eqb_eq in E as ->. done. }
  split; [|split; [|split]].
  - intros q C. unfold AddPattern. rewrite listedPattern_existsb.
    assert (patternHits lib q pattern = true) as Hit.
    { unfold patternHits. rewrite C. by destruct (filepath_Match _ _ _) as [[]|]. }
    destruct (existsb (fun e => String.eqb e pattern) (Patterns p)) eqn:L.
    + apply existsb_exists in L as (e & Hin & E). apply String.eqb_eq in E as ->.
      unfold IsProtected. destruct (existsb _ (Projects p)); [done|].
      apply existsb_exists. by exists pattern.
    + unfold IsProtected. simpl. destruct (existsb _ (Projects p)); [done|].
      rewrite existsb_app. simpl. by rewrite Hit, orb_true_r.
  - unfold AddPattern. by destruct (listedPattern _ _).
  - intros N. unfold AddPattern, RemovePattern.
    rewrite listedPattern_existsb, (Hno _ _ N). simpl.
    rewrite keepOtherPatterns_filter. simpl. rewrite List.filter_app. simpl.
    rewrite String.eqb_refl. simpl. rewrite app_nil_r, (Hkeep _ _ N).
    by destruct p.
  - intros other N. unfold RemovePattern.
    rewrite keepOtherPatterns_filter. simpl. rewrite (Hkeep _ _ N). by destruct p.
Qed.

End Policy.

Section PolicyExamples.

Import protected policy data.

Lemma AddProtectedProject_protects_witness :
  IsProtected sample.lib
    (Some (AddProtectedProject sample.lib "/srv/blog" samplePolicy)) "/srv/blog" = true /\
  AddProtectedProject sample.lib "/srv/blog"
    (AddProtectedProject sample.lib "/srv/blog" samplePolicy) =
  AddProtectedProject sample.lib "/srv/blog" samplePolicy.
Proof.
  destruct (AddProtectedProject_protects sample.lib samplePolicy "/srv/blog")
    as (H1 & _ & H3).
  split; [exact H1 | apply H3; reflexivity].
Defined.

Lemma RemoveProtectedProject_effect_witness :
  IsProtected sample.lib
    (Some (RemoveProtectedProject sample.lib "/srv/vault" samplePolicy)) "/srv/vault"
    = false /\
  RemoveProtectedProject sample.lib "/srv/blog"
    (AddProtectedProject sample.lib "/srv/blog" samplePolicy) = samplePolicy.
Proof.
  destruct (RemoveProtectedProject_effect sample.lib samplePolicy "/srv/vault")
    as (H1 & _ & _).
  destruct (RemoveProtectedProject_effect sample.lib samplePolicy "/srv/blog")
    as (_ & _ & H3).
  split; [rewrite H1; reflexivity | apply H3; reflexivity].
Defined.

Lemma AddPattern_protects_witness :
  IsProtected sample.lib (Some (AddPattern "Vault" samplePolicy)) "/srv/my-vault-2"
    = true /\
  RemovePattern "Vault" (AddPattern "Vault" samplePolicy) = samplePolicy /\
  RemovePattern "TUNNEL" samplePolicy = samplePolicy.
Proof.
  destruct (AddPattern_protects sample.lib samplePolicy "Vault") as (H1 & _ & H3 & H4).
  split; [|split].
  - apply H1. reflexivity.
  - apply H3. intros [?|[]]; discriminate.
  - apply H4. intros [?|[]]; discriminate.
Defined.

(** A pattern protects by substring as well as by glob, so the empty
    pattern protects every path. *)
Example empty_pattern_protects_all :
  IsProtected sample.lib (Some (AddPattern "" samplePolicy)) "/srv/anything" = true.
Proof. reflexivity. Qed.

End PolicyExamples.

(** ** containers.go: grouping by compose project *)

Section Grouping.

Import containers.

Lemma groupOne_insert grouped ctr :
  groupOne grouped ctr =
    <[composeProjectOf ctr :=
        default [] (grouped !! composeProjectOf ctr) ++ [ctr]]> grouped.
Proof.
  unfold groupOne, composeProjectOf.
  destruct (Labels ctr !! "com.docker.compose.project") as [name|]; simpl; [|done].
  by destruct (String.eqb name "").
Qed.

Lemma composeProjectOf_nonempty ctr : composeProjectOf ctr <> "".
Proof.
  unfold composeProjectOf.
  destruct (Labels ctr !! "com.docker.compose.project") as [name|]; [|done].
  by destruct (String.eqb_spec name "").
Qed.

(** The loop from any map: a group grows by the containers filed under its
    name, in the order of the listing. *)
Lemma fold_groupOne_lookup listed grouped k :
  fold_left groupOne listed grouped !! k =
    match List.filter (fun c => String.eqb (composeProjectOf c) k) listed with
    | [] => grouped !! k
    | cs => Some (default [] (grouped !! k) ++ cs)
    end.
Proof.
  revert grouped. induction listed as [|ctr rest IH]; intros grouped; [done|].
  cbn [fold_left List.filter]. rewrite IH, groupOne_insert.
  destruct (String.eqb_spec (composeProjectOf ctr) k) as [->|Hne].
  - rewrite lookup_insert_eq. simpl.
    destruct (List.filter _ rest); [done | by rewrite <- app_assoc].
  - by rewrite lookup_insert_ne.
Qed.

(** X8.  [GetContainersByComposeProject] files every container under its
    compose project label, and under [_standalone] when the label is
    missing or empty: the group of a name holds exactly the listed
    containers of that name, in the order of the listing.  No group is
    empty and no group has the empty name. *)
Theorem GetContainersByComposeProject_groups (listed : list Container) (k : string) :
  GetContainersByComposeProject listed !! k =
    match List.filter (fun c => String.eqb (composeProjectOf c) k) listed with
    | [] => None
    | cs => Some cs
    end /\
  GetContainersByComposeProject listed !! k <> Some [] /\
  GetContainersByComposeProject listed !! "" = None.
Proof.
  unfold GetContainersByComposeProject. rewrite !fold_groupOne_lookup.
  split; [|split].
  - by destruct (List.filter _ listed).
  - by destruct (List.filter _ listed).
  - assert (List.filter (fun c => String.eqb (composeProjectOf c) "") listed = [])
      as ->; [|done].
    induction listed as [|ctr rest IH]; [done|]. simpl.
    destruct (String.eqb_spec (composeProjectOf ctr) ""); [|done].
    by destruct (composeProjectOf_nonempty ctr).
Qed.

End Grouping.

(** ** finder.go: scanning again *)

Section Rescan.

Import finder.

Variable lib : Lib.
Variable env : ScanEnv.

Local Abbreviation fsys := (finder.fs env).

Lemma scanAt_same (e : ScanEnv) : scanAt (scanNow e) e = e.
Proof. by destruct e. Qed.

(** A parse writes the cache at its own path only, and not at a settled
    one. *)
Lemma parseComposeFile_keeps_settled now q st st' r p :
  parseComposeFile lib fsys now q st = (st', r) ->
  settled fsys p (cache st !! p) = true ->
  cache st' !! p = cache st !! p.
Proof.
  unfold parseComposeFile, settled. intros P S.
  destruct (stat fsys q) as [m|] eqn:Hs; [|by injection P as <- <-].
  destruct (fileChecksum fsys q) as [c|] eqn:Hk; [|by injection P as <- <-].
  destruct (cacheValid (cache st !! q) m c) eqn:V; [by injection P as <- <-|].
  destruct (loadProject fsys q) as [| |services] eqn:Hl;
    try by injection P as <- <-.
  destruct (length services =? 0)%nat eqn:Hn; [by injection P as <- <-|].
  unfold alloc in P. injection P as <- <-. simpl.
  destruct (decide (q = p)) as [->|Hne]; [|by rewrite lookup_insert_ne].
  by rewrite Hs, Hk, V, Hl, Hn in S.
Qed.

(** After a parse the entry of the path is settled, and a parse of the path
    in any state with that entry gives the same answer and allocates and
    caches nothing; it reaches the loader exactly when the entry is not
    valid and the loader's options can be built. *)
Lemma parseComposeFile_again now p st st' r :
  parseComposeFile lib fsys now p st = (st', r) ->
  settled fsys p (cache st' !! p) = true /\
  forall now2 st2, cache st2 !! p = cache st' !! p ->
    exists st3,
      parseComposeFile lib fsys now2 p st2 = (st3, r) /\
      cache st3 = cache st2 /\ objects st3 = objects st2 /\
      projects st3 = projects st2 /\ table st3 = table st2 /\
      events st3 =
        events st2 ++ (if loadsAgain fsys (cache st2) p then [EvLoadProject p] else []).
Proof.
  unfold parseComposeFile, settled, loadsAgain. intros P.
  destruct (stat fsys p) as [m|] eqn:Hs;
    [|injection P as <- <-; split; [done|]; intros now2 st2 _; exists st2;
      by rewrite app_nil_r].
  destruct (fileChecksum fsys p) as [c|] eqn:Hk;
    [|injection P as <- <-; split; [done|]; intros now2 st2 _; exists st2;
      by rewrite app_nil_r].
  destruct (cacheValid (cache st !! p) m c) eqn:V.
  { injection P as <- <-. rewrite V. split; [done|]. intros now2 st2 ->. rewrite V.
    exists st2. by rewrite app_nil_r. }
  destruct (loadProject fsys p) as [| |services] eqn:Hl.
  - injection P as <- <-. rewrite V. split; [done|]. intros now2 st2 ->. rewrite V.
    exists st2. by rewrite app_nil_r.
  - injection P as <- <-. simpl. rewrite V. split; [done|]. intros now2 st2 ->.
    rewrite V. by eexists.
  - destruct (length services =? 0)%nat eqn:Hn.
    + injection P as <- <-. simpl. rewrite V. split; [done|]. intros now2 st2 ->.
      rewrite V. by eexists.
    + unfold alloc in P. injection P as <- <-. simpl. rewrite lookup_insert_eq.
      assert (cacheValid
                (Some {| cachedProject := length (objects st); ModTime := m;
                         CheckSum := c |}) m c = true) as V'.
      { unfold cacheValid. simpl. by rewrite Z.eqb_refl, String.eqb_refl. }
      rewrite V'. split; [done|]. intros now2 st2 ->. rewrite V'. simpl.
      exists st2. by rewrite app_nil_r.
Qed.

Lemma scanLoop_keeps_settled files i st found st1 found1 ok p :
  scanLoop lib env i files st found = (st1, found1, ok) ->
  settled fsys p (cache st !! p) = true ->
  cache st1 !! p = cache st !! p.
Proof.
  revert i st found.
  induction files as [|q rest IH]; intros i st found L S; simpl in L.
  - by injection L as <- _ _.
  - destruct (ctxDone env i); [by injection L as <- _ _|].
    destruct (parseComposeFile lib (finder.fs env) (scanNow env) q st)
      as [sta r] eqn:P.
    pose proof (parseComposeFile_keeps_settled _ _ _ _ _ p P S) as K.
    assert (settled fsys p (cache sta !! p) = true) as S'
      by by rewrite K.
    destruct r as [|[proj|]]; apply IH in L; try done; by rewrite L.
Qed.

(** The loop run again over the same files, in a state whose cache holds
    the entries the first run left: the same pointers are appended, nothing
    is allocated or cached, and the loader is reached for the files without
    a valid entry only. *)
Lemma scanLoop_again files i st found st1 found1 :
  scanLoop lib env i files st found = (st1, found1, true) ->
  exists delta, found1 = found ++ delta /\
    forall t st2 found2,
      (forall p, In p files -> cache st2 !! p = cache st1 !! p) ->
      exists st3,
        scanLoop lib (scanAt t env) i files st2 found2 = (st3, found2 ++ delta, true) /\
        cache st3 = cache st2 /\ objects st3 = objects st2 /\
        projects st3 = projects st2 /\ table st3 = table st2 /\
        events st3 =
          events st2 ++
          map EvLoadProject (List.filter (loadsAgain fsys (cache st2)) files).
Proof.
  revert i st found.
  induction files as [|p rest IH]; intros i st found L; simpl in L.
  - injection L as <- <-. exists []. split; [by rewrite app_nil_r|].
    intros t st2 found2 _. exists st2. simpl. by rewrite !app_nil_r.
  - destruct (ctxDone env i) eqn:D; [discriminate|].
    destruct (parseComposeFile lib (finder.fs env) (scanNow env) p st)
      as [sta r] eqn:P.
    destruct (parseComposeFile_again _ _ _ _ _ P) as [Hs Again].
    set (part := match r with ParseOk (Some proj) => [proj] | _ => [] end).
    assert (scanLoop lib env (S i) rest sta (found ++ part) = (st1, found1, true))
      as L'.
    { subst part. destruct r as [|[proj|]]; by rewrite ?app_nil_r. }
    pose proof (scanLoop_keeps_settled _ _ _ _ _ _ _ p L' Hs) as K.
    apply IH in L' as (delta & -> & Rest).
    exists (part ++ delta). split; [by rewrite app_assoc|].
    intros t st2 found2 Agree.
    destruct (Again t st2) as (stb & Pb & Cb & Ob & Jb & Tb & Eb).
    { rewrite <- K. apply Agree. by left. }
    destruct (Rest t stb (found2 ++ part)) as (st3 & L3 & C3 & O3 & J3 & T3 & E3).
    { intros q Hq. rewrite Cb. apply Agree. by right. }
    exists st3. cbn [scanLoop].
    change (ctxDone (scanAt t env) i) with (ctxDone env i).
    change (finder.fs (scanAt t env)) with fsys.
    change (scanNow (scanAt t env)) with t. rewrite D, Pb.
    split.
    { rewrite app_assoc, <- L3. subst part.
      destruct r as [|[proj|]]; by rewrite ?app_nil_r. }
    rewrite C3, O3, J3, T3, E3, Cb, Ob, Jb, Tb, Eb.
    repeat split; try done. simpl.
    destruct (loadsAgain fsys (cache st2) p); simpl; by rewrite <- app_assoc.
Qed.

(** A loop that ran to its end leaves the entry of every file settled. *)
Lemma scanLoop_settles files i st found st1 found1 p :
  scanLoop lib env i files st found = (st1, found1, true) ->
  In p files -> settled fsys p (cache st1 !! p) = true.
Proof.
  revert i st found.
  induction files as [|q rest IH]; intros i st found L Hp; [done|].
  simpl in L. destruct (ctxDone env i); [discriminate|].
  destruct (parseComposeFile lib fsys (scanNow env) q st) as [sta r] eqn:P.
  destruct (parseComposeFile_again _ _ _ _ _ P) as [Hs _].
  assert (exists f, scanLoop lib env (S i) rest sta f = (st1, found1, true))
    as [f L'] by (destruct r as [|[proj|]]; by eexists).
  destruct Hp as [->|Hp].
  - by rewrite (scanLoop_keeps_settled _ _ _ _ _ _ _ p L' Hs).
  - by eapply IH.
Qed.

(** X9.  A scan that ran to its end, run again on the same files: it finds
    the same project pointers in the same order, allocates no project and
    leaves the cache as it is.  It calls the compose loader exactly for the
    files that can be read and have no valid cache entry, unless the
    loader's options cannot be built; after the first scan these are files
    that failed to load or declared no service. *)
Theorem Scan_again (st st1 : World) (found : list nat) :
  Scan lib env st = (st1, found, true) ->
  exists st2,
    Scan lib env st1 = (st2, found, true) /\
    objects st2 = objects st1 /\ cache st2 = cache st1 /\
    projects st2 = projects st1 /\ table st2 = table st1 /\
    events st2 =
      events st1 ++
      map EvLoadProject (List.filter (loadsAgain fsys (cache st1)) (yamlFiles env)) /\
    forall p, In p (yamlFiles env) -> settled fsys p (cache st1 !! p) = true.
Proof.
  unfold Scan. intros L.
  destruct (scanLoop_again _ _ _ _ _ _ L) as (delta & -> & Again).
  destruct (Again (scanNow env) st1 []) as (st2 & L2 & ? & ? & ? & ? & ?); [done|].
  rewrite scanAt_same in L2.
  exists st2. repeat split; try done.
  intros p. by eapply scanLoop_settles.
Qed.

End Rescan.

Section RescanExamples.

Import finder data.

(** The blog after an edit: the first scan parses the file into a new
    object, the second returns that object and loads nothing. *)
Lemma Scan_again_witness :
  let st1 := (Scan sample.lib blogRescan (blogWorld false "")).1.1 in
  exists st2,
    Scan sample.lib blogRescan st1 = (st2, [1%nat], true) /\
    objects st2 = objects st1 /\ events st2 = events st1.
Proof.
  intros st1.
  destruct (Scan_again sample.lib blogRescan (blogWorld false "") st1 [1%nat])
    as (st2 & H1 & H2 & _ & _ & _ & H6 & _); [reflexivity|].
  exists st2. split; [exact H1|]. split; [exact H2|].
  rewrite H6. vm_compute. reflexivity.
Defined.

End RescanExamples.

(** ** manager.go: what applyProtection decides *)

Section Heuristics.

Import manager.

Variables (lib : Lib) (m : Manager).

Lemma setProtection_same p :
  setProtection (Protected p) (ProtectionReason_ p) p = p.
Proof. by destruct p. Qed.

Lemma IsProtectedByPattern_reason name :
  (patterns.IsProtectedByPattern lib name).1 = true ->
  (patterns.IsProtectedByPattern lib name).2 = ProtectionCloudflareTunnel \/
  (patterns.IsProtectedByPattern lib name).2 = ProtectionAutoDetected.
Proof.
  unfold patterns.IsProtectedByPattern.
  destruct (existsb _ patterns.cloudflarePatterns); [by left|].
  destruct (existsb _ patterns.criticalPatterns); [by right | done].
Qed.

(** The loop over the containers: nothing changes when no container looks
    critical; otherwise the project is protected for one of the two
    heuristic reasons. *)
Lemma protectByContainers_spec cs p :
  (existsb (looksCritical lib) cs = false -> protectByContainers lib cs p = p) /\
  (existsb (looksCritical lib) cs = true ->
     exists reason,
       protectByContainers lib cs p = setProtection true reason p /\
       (reason = ProtectionCloudflareTunnel \/ reason = ProtectionAutoDetected)).
Proof.
  induction cs as [|ctr cs [IH1 IH2]]; [done|]. simpl. unfold looksCritical at 1 3.
  pose proof (IsProtectedByPattern_reason (ctrName ctr)) as Rn.
  pose proof (IsProtectedByPattern_reason (Image ctr)) as Ri.
  destruct (patterns.IsProtectedByPattern lib (ctrName ctr)) as [[] rn]; simpl in *.
  { split; [done|]. intros _. exists rn. split; [done | by apply Rn]. }
  destruct (patterns.IsProtectedByPattern lib (Image ctr)) as [[] ri]; simpl in *.
  { split; [done|]. intros _. exists ri. split; [done | by apply Ri]. }
  done.
Qed.

(** [applyProtection] writes the two protection fields only. *)
Lemma applyProtection_frame p :
  applyProtection lib m p =
    setProtection (Protected (applyProtection lib m p))
      (ProtectionReason_ (applyProtection lib m p)) p.
Proof.
  unfold applyProtection. destruct (Protected p) eqn:E.
  - by rewrite setProtection_same.
  - destruct (match protection m with Some _ => _ | None => _ end); [done|].
    destruct (existsb (looksCritical lib) (Containers p)) eqn:H.
    + apply (protectByContainers_spec (Containers p) p) in H as (r & -> & _). done.
    + apply (protectByContainers_spec (Containers p) p) in H as ->.
      by rewrite setProtection_same.
Qed.

Lemma applyProtection_policy p :
  protected.IsProtected lib (protection m) (Path p) = true ->
  Protected (applyProtection lib m p) = true.
Proof.
  unfold applyProtection. intros H. destruct (Protected p) eqn:E; [done|].
  destruct (protection m); [by rewrite H | done].
Qed.

Lemma applyProtection_heuristic p :
  existsb (looksCritical lib) (Containers p) = true ->
  Protected (applyProtection lib m p) = true.
Proof.
  unfold applyProtection. intros H. destruct (Protected p) eqn:E; [done|].
  destruct (match protection m with Some _ => _ | None => _ end); [done|].
  by apply (protectByContainers_spec (Containers p) p) in H as (r & -> & _).
Qed.

(** X10.  [applyProtection] never clears protection and writes no field
    but the flag and the reason.  A protected project is left as it is.
    An unprotected one becomes protected exactly when the policy covers its
    directory or one of its containers looks critical by name or image;
    the policy is asked first and gives the reason [user_marked], the
    containers give [cloudflare_tunnel] or [auto_detected].  A project
    that stays unprotected is not touched. *)
Theorem applyProtection_spec (p : Project) :
  let q := applyProtection lib m p in
  q = setProtection (Protected q) (ProtectionReason_ q) p /\
  (Protected p = true -> q = p) /\
  (Protected p = false ->
     Protected q =
       protected.IsProtected lib (protection m) (Path p)
       || existsb (looksCritical lib) (Containers p)) /\
  (Protected p = false ->
     protected.IsProtected lib (protection m) (Path p) = true ->
     ProtectionReason_ q = ProtectionUserMarked) /\
  (Protected p = false ->
     protected.IsProtected lib (protection m) (Path p) = false ->
     Protected q = true ->
     ProtectionReason_ q = ProtectionCloudflareTunnel \/
     ProtectionReason_ q = ProtectionAutoDetected) /\
  (Protected q = false -> q = p).
Proof.
  simpl. split; [apply applyProtection_frame|].
  unfold applyProtection.
  assert (match protection m with
          | Some _ => protected.IsProtected lib (protection m) (Path p)
          | None => false
          end = protected.IsProtected lib (protection m) (Path p)) as ->
    by by destruct (protection m).
  destruct (Protected p) eqn:E; [by repeat split|].
  destruct (protected.IsProtected lib (protection m) (Path p)) eqn:I.
  { by repeat split. }
  destruct (protectByContainers_spec (Containers p) p) as [H0 H1].
  destruct (existsb (looksCritical lib) (Containers p)).
  - destruct H1 as (r & -> & Hr); [done|]. by repeat split.
  - rewrite H0 by done. repeat split; try done. intros _ _ ?. congruence.
Qed.

End Heuristics.

Section HeuristicsExamples.

Import manager data.

(** A project in a directory the policy lists, and one that runs a
    reverse proxy. *)
Lemma applyProtection_spec_witness :
  let m := {| hasStore := false; protection := Some samplePolicy |} in
  let proxy :=
    setContainers [container "c1" "edge" "traefik:v3" "running"] StatusRunning
      (stack "10bc" "alpha" "compose.yml") in
  ProtectionReason_ (applyProtection sample.lib m (stack "9e1f" "vault" "compose.yml"))
    = "user_marked" /\
  Protected (applyProtection sample.lib m proxy) = true /\
  applyProtection sample.lib m (stack "10bc" "alpha" "compose.yml")
    = stack "10bc" "alpha" "compose.yml".
Proof.
  intros m proxy.
  destruct (applyProtection_spec sample.lib m (stack "9e1f" "vault" "compose.yml"))
    as (_ & _ & _ & H1 & _).
  destruct (applyProtection_spec sample.lib m proxy) as (_ & _ & H2 & _).
  destruct (applyProtection_spec sample.lib m (stack "10bc" "alpha" "compose.yml"))
    as (_ & _ & _ & _ & _ & H3).
  split; [apply H1; reflexivity|].
  split; [rewrite H2; reflexivity | apply H3; reflexivity].
Defined.

End HeuristicsExamples.

(** ** manager.go: what a refresh leaves in the map *)

Section Reconcile.

Import manager.

Variables (lib : Lib) (m : Manager) (d : Daemon).
Variables (containers : gmap string (list Container)).
Variables (prefs : option (gmap string ProjectPreference)).
Variables (old : gmap string nat).

Lemma attach_reconciles p :
  let q := attach d containers p in
  Containers q =
    default [] (containers !! GetComposeProjectName d (ComposeFilePath q)) /\
  Status q = status.determineProjectStatus (Containers q) /\
  ID q = ID p /\ Path q = Path p /\ DisplayName q = DisplayName p /\
  Hidden q = Hidden p.
Proof.
  simpl. unfold attach.
  destruct (containers !! GetComposeProjectName d (ComposeFilePath p)) eqn:E;
    simpl; by rewrite E.
Qed.

(** One turn of the loop on a live pointer. *)
Lemma refreshOne_reconciles h new l p :
  h !! l = Some p ->
  exists p',
    refreshOne lib m d containers prefs old (h, new) l =
      (<[l := p']> h, <[ID p := l]> new) /\
    ID p' = ID p /\ reconciled lib m d containers prefs p'.
Proof.
  intros Hl. unfold refreshOne. rewrite Hl.
  set (p1 := match old !! ID p with Some _ => _ | None => p end).
  set (p2 := match prefs with Some _ => _ | None => p1 end).
  assert (ID p1 = ID p) as I1.
  { unfold p1. destruct (old !! ID p) as [e|]; [|done]. by destruct (h !! e). }
  assert (ID p2 = ID p1) as I2.
  { unfold p2. destruct prefs as [pm|]; [|done]. by destruct (pm !! ID p1). }
  assert (forall pm pref, prefs = Some pm -> pm !! ID p1 = Some pref ->
            DisplayName p2 = prefDisplayName pref /\ Hidden p2 = prefHidden pref)
    as Hpref.
  { intros pm pref E1 E2. unfold p2. by rewrite E1, E2. }
  destruct (attach_reconciles p2) as (C3 & S3 & I3 & P3 & D3 & H3).
  set (p3 := attach d containers p2) in *.
  pose proof (applyProtection_frame lib m p3) as F4.
  pose proof (applyProtection_policy lib m p3) as Pol.
  pose proof (applyProtection_heuristic lib m p3) as Heu.
  set (p4 := applyProtection lib m p3) in *.
  assert (ID p4 = ID p3 /\ Containers p4 = Containers p3 /\ Status p4 = Status p3 /\
          ComposeFilePath p4 = ComposeFilePath p3 /\ Path p4 = Path p3 /\
          DisplayName p4 = DisplayName p3 /\ Hidden p4 = Hidden p3)
    as (I4 & C4 & S4 & F & P4 & D4 & H4) by by rewrite F4.
  eexists. split; [|split].
  - simpl. rewrite I4, I3, I2, I1. reflexivity.
  - simpl. congruence.
  - unfold reconciled. simpl. rewrite C4, S4, F, P4, D4, H4, I4, I3, I2.
    repeat split; try done.
    + rewrite D3. by eapply Hpref.
    + rewrite H3. by eapply Hpref.
Qed.

(** The loop invariant: an entry of the new map was found by the scan and
    names a reconciled object with the entry's ID, and every object found
    so far is entered under its ID. *)
Lemma refresh_fold_reconciles found done h new h' new' :
  fold_left (refreshOne lib m d containers prefs old) found (h, new) = (h', new') ->
  (forall id l, new !! id = Some l ->
     In l done /\
     exists p, h !! l = Some p /\ ID p = id /\ reconciled lib m d containers prefs p) ->
  (forall l p, In l done -> h !! l = Some p -> is_Some (new !! ID p)) ->
  (forall id l, new' !! id = Some l ->
     In l (done ++ found) /\
     exists p, h' !! l = Some p /\ ID p = id /\ reconciled lib m d containers prefs p) /\
  (forall l p, In l (done ++ found) -> h' !! l = Some p -> is_Some (new' !! ID p)).
Proof.
  revert done h new.
  induction found as [|l0 found IH]; intros done h new Hf Inv1 Inv2.
  - injection Hf as <- <-. by rewrite app_nil_r.
  - cbn [fold_left] in Hf.
    replace (done ++ l0 :: found) with ((done ++ [l0]) ++ found)
      by by rewrite <- app_assoc.
    destruct (h !! l0) as [p0|] eqn:Hl.
    + destruct (refreshOne_reconciles h new l0 p0 Hl) as (p' & Hr & Hid & Hrec).
      rewrite Hr in Hf. pose proof (lookup_lt_Some _ _ _ Hl) as Hlt.
      apply (IH (done ++ [l0])) in Hf; [done| |].
      * intros id l Hn. destruct (decide (id = ID p0)) as [->|Hne].
        -- rewrite lookup_insert_eq in Hn. injection Hn as <-.
           split; [apply in_or_app; right; by left|].
           exists p'. by rewrite list_lookup_insert_eq.
        -- rewrite lookup_insert_ne in Hn by done.
           destruct (Inv1 id l Hn) as (Hin & p & Hp & Ip & Rp).
           split; [apply in_or_app; by left|].
           exists p. rewrite list_lookup_insert_ne; [done|]. intros <-. congruence.
      * intros l p Hin Hp. destruct (decide (l = l0)) as [->|Hne].
        -- rewrite list_lookup_insert_eq in Hp by done. injection Hp as <-.
           rewrite Hid, lookup_insert_eq. by eexists.
        -- rewrite list_lookup_insert_ne in Hp by done.
           apply in_app_or in Hin as [Hin|[?|[]]]; [|done].
           destruct (Inv2 l p Hin Hp) as [l' Hl'].
           destruct (decide (ID p = ID p0)) as [->|Hd].
           ++ rewrite lookup_insert_eq. by eexists.
           ++ rewrite lookup_insert_ne by done. by eexists.
    + rewrite refreshOne_dead in Hf by done.
      apply (IH (done ++ [l0])) in Hf; [done| |].
      * intros id l Hn. destruct (Inv1 id l Hn) as (Hin & Hp).
        split; [apply in_or_app; by left | done].
      * intros l p Hin Hp. apply in_app_or in Hin as [Hin|[->|[]]];
          [by eapply Inv2 | congruence].
Qed.

End Reconcile.

Section RefreshOutcome.

Import manager.

Variables (lib : Lib) (m : Manager) (env : finder.ScanEnv) (d : Daemon).

Lemma parseComposeFile_table fs now path st :
  table (finder.parseComposeFile lib fs now path st).1 = table st.
Proof.
  unfold finder.parseComposeFile.
  destruct (finder.stat fs path); [|done].
  destruct (finder.fileChecksum fs path); [|done].
  destruct (finder.cacheValid _ _ _); [done|].
  destruct (finder.loadProject fs path) as [| |services]; try done.
  by destruct (length services =? 0)%nat.
Qed.

Lemma Scan_table st : table (finder.Scan lib env st).1.1 = table st.
Proof.
  unfold finder.Scan. generalize 0%nat, (@nil nat).
  revert st. induction (finder.yamlFiles env) as [|path files IH];
    intros st i found; [done|].
  simpl. destruct (finder.ctxDone env i); [done|].
  pose proof (parseComposeFile_table (finder.fs env) (finder.scanNow env) path st) as T.
  destruct (finder.parseComposeFile _ _ _ _ _) as [st1 r]. simpl in T.
  destruct r as [|[proj|]]; by rewrite IH.
Qed.

(** The entries of the map after a refresh that succeeded. *)
Lemma Refresh_entries (st st' : World) :
  Refresh lib m env d st = (st', None) ->
  exists containers,
    containersByProject d = Some containers /\
    (forall id l, projects st' !! id = Some l ->
       In l (finder.Scan lib env st).1.2 /\
       exists p,
         objects st' !! l = Some p /\ ID p = id /\
         Containers p =
           default [] (containers !! GetComposeProjectName d (ComposeFilePath p)) /\
         Status p = status.determineProjectStatus (Containers p) /\
         UpdatedAt p = now d /\
         (protected.IsProtected lib (protection m) (Path p) = true ->
            Protected p = true) /\
         (existsb (looksCritical lib) (Containers p) = true -> Protected p = true) /\
         (hasStore m = true -> preferencesFail d = false ->
          preferencesDelivered d id = true ->
          forall pref, table st' !! id = Some pref ->
            DisplayName p = prefDisplayName pref /\ Hidden p = prefHidden pref)) /\
    (forall l p, In l (finder.Scan lib env st).1.2 -> objects st' !! l = Some p ->
       is_Some (projects st' !! ID p)).
Proof.
  unfold Refresh. pose proof (Scan_table st) as T.
  destruct (finder.Scan lib env st) as [[st1 found] ok]. simpl in T.
  destruct ok; [|discriminate]. simpl.
  destruct (containersByProject d) as [containers|]; [|discriminate].
  set (prefs := if hasStore m then _ else None).
  destruct (fold_left _ found (objects st1, ∅)) as [h new] eqn:F.
  intros [= <-]. simpl. exists containers. split; [done|].
  destruct (refresh_fold_reconciles lib m d containers prefs (projects st1)
              found [] (objects st1) ∅ h new F) as [Inv1 Inv2]; [done | done |].
  split; [|exact Inv2].
  intros id l Hl. destruct (Inv1 id l Hl) as (Hin & p & Hp & Hid & R).
  split; [done|]. exists p.
  destruct R as (R1 & R2 & R3 & R4 & R5 & R6). repeat split; try done.
  - apply (R6 (filter (fun row : string * ProjectPreference =>
                         preferencesDelivered d row.1 = true) (table st1))).
    + unfold prefs, store.GetAllPreferences. by rewrite H, H0.
    + rewrite Hid. by apply map_lookup_filter_Some.
  - apply (R6 (filter (fun row : string * ProjectPreference =>
                         preferencesDelivered d row.1 = true) (table st1))).
    + unfold prefs, store.GetAllPreferences. by rewrite H, H0.
    + rewrite Hid. by apply map_lookup_filter_Some.
Qed.

(** X11.  After a refresh that succeeded, every entry of the manager's map
    names a project the scan of this pass found, filed under its own ID,
    that carries the containers the daemon lists for its compose project
    (none if it lists none), the status those containers give, and the time
    of the pass; it is protected if the policy covers its directory or one
    of its containers looks critical; and it shows the display name and the
    hidden flag of its stored preference row, if the store delivered one.
    Every project the scan found is in the map under its ID. *)
Theorem Refresh_reconciles (st st' : World) :
  Refresh lib m env d st = (st', None) ->
  exists containers,
    containersByProject d = Some containers /\
    (forall id l, projects st' !! id = Some l ->
       In l (finder.Scan lib env st).1.2 /\
       exists p,
         objects st' !! l = Some p /\ ID p = id /\
         Containers p =
           default [] (containers !! GetComposeProjectName d (ComposeFilePath p)) /\
         Status p = status.determineProjectStatus (Containers p) /\
         UpdatedAt p = now d /\
         (protected.IsProtected lib (protection m) (Path p) = true ->
            Protected p = true) /\
         (existsb (looksCritical lib) (Containers p) = true -> Protected p = true) /\
         (hasStore m = true -> preferencesFail d = false ->
          preferencesDelivered d id = true ->
          forall pref, table st' !! id = Some pref ->
            DisplayName p = prefDisplayName pref /\ Hidden p = prefHidden pref)) /\
    (forall l p, In l (finder.Scan lib env st).1.2 -> objects st' !! l = Some p ->
       is_Some (projects st' !! ID p)).
Proof. apply Refresh_entries. Qed.

(** X12.  A refresh that fails, because the scan was cancelled or the
    daemon did not list the containers, changes no project: the manager's
    map, every project object that existed and the preference rows are as
    before.  The object store can only have grown by what the scan
    parsed. *)
Theorem Refresh_failure (st st' : World) (err : Error) :
  Refresh lib m env d st = (st', Some err) ->
  (err = ErrScanning \/ err = ErrGettingContainers) /\
  projects st' = projects st /\ table st' = table st /\
  exists parsed, objects st' = objects st ++ parsed.
Proof.
  unfold Refresh. pose proof (Scan_table st) as T.
  destruct (Scan_frame lib env st) as (J & parsed & O).
  destruct (finder.Scan lib env st) as [[st1 found] ok]. simpl in T, J, O.
  destruct ok; simpl.
  - destruct (containersByProject d) as [containers|].
    + by destruct (fold_left _ found (objects st1, ∅)).
    + intros [= <- <-]. split; [by right|]. by eauto.
  - intros [= <- <-]. split; [by left|]. by eauto.
Qed.

End RefreshOutcome.

Section RefreshOutcomeExamples.

Import manager data.

(** The blog, refreshed from the cache while no container runs. *)
Lemma Refresh_reconciles_witness :
  let st' :=
    (Refresh sample.lib plainManager blogScan quietDaemon (blogWorld false "")).1 in
  exists p,
    objects st' !! 0%nat = Some p /\ Containers p = [] /\
    Status p = StatusStopped /\ UpdatedAt p = 3000.
Proof.
  intros st'.
  destruct (Refresh_reconciles sample.lib plainManager blogScan quietDaemon
              (blogWorld false "") st') as (cs & Hc & H1 & _);
    [vm_compute; reflexivity|].
  destruct (H1 "3f2a9c0d51b7e864" 0%nat) as (_ & p & Hp & _ & C & S & U & _);
    [vm_compute; reflexivity|].
  exists p. injection Hc as <-. rewrite S, C. repeat split; done.
Defined.

(** The daemon is down: the blog stays as it was. *)
Lemma Refresh_failure_witness :
  let down :=
    {| containersByProject := None;
       GetComposeProjectName := GetComposeProjectName quietDaemon;
       preferencesFail := false; preferencesDelivered := fun _ => true;
       runCompose := fun _ _ => None; now := 3000 |} in
  let st' := (Refresh sample.lib plainManager blogScan down (blogWorld true "user_marked")).1 in
  projects st' = projects (blogWorld true "user_marked") /\
  objects st' = objects (blogWorld true "user_marked").
Proof.
  intros down st'.
  destruct (Refresh_failure sample.lib plainManager blogScan down
              (blogWorld true "user_marked") st' ErrGettingContainers)
    as (_ & H1 & _ & _); [vm_compute; reflexivity|].
  split; [exact H1 | vm_compute; reflexivity].
Defined.

End RefreshOutcomeExamples.

(** ** manager.go: what the compose binary is run on *)

Section Sourced.

Import manager ops.

Variables (lib : Lib) (m : Manager).

Lemma loaded_more evs more h : loaded evs h -> loaded (evs ++ more) h.
Proof. intros H l p Hp. apply in_or_app. left. by eapply H. Qed.

Lemma composed_loads evs more :
  forallb isLoad more = true -> composed evs -> composed (evs ++ more).
Proof.
  intros Hm Hc path args Hin. apply in_app_or in Hin as [Hin|Hin].
  - destruct (Hc path args Hin). split; [|done]. apply in_or_app. by left.
  - rewrite forallb_forall in Hm. by apply Hm in Hin.
Qed.

(** A parse adds loader calls to the events, and each object it allocates
    comes from a file it called the loader on. *)
Lemma parseComposeFile_sourced fs now path st :
  let st' := (finder.parseComposeFile lib fs now path st).1 in
  exists more,
    events st' = events st ++ more /\ forallb isLoad more = true /\
    (loaded (events st) (objects st) -> loaded (events st') (objects st')).
Proof.
  simpl. unfold finder.parseComposeFile.
  destruct (finder.stat fs path); [|by exists []; rewrite app_nil_r].
  destruct (finder.fileChecksum fs path); [|by exists []; rewrite app_nil_r].
  destruct (finder.cacheValid _ _ _); [by exists []; rewrite app_nil_r|].
  destruct (finder.loadProject fs path) as [| |services]; simpl.
  - by exists []; rewrite app_nil_r.
  - exists [EvLoadProject path]. repeat split. apply loaded_more.
  - destruct (length services =? 0)%nat; simpl.
    + exists [EvLoadProject path]. repeat split. apply loaded_more.
    + exists [EvLoadProject path]. repeat split. intros H l p Hp.
      apply lookup_app_Some in Hp as [Hp|[_ Hp]].
      * apply in_or_app. left. by eapply H.
      * apply list_lookup_singleton_Some in Hp as [_ <-]. simpl.
        apply in_or_app. right. by left.
Qed.

Lemma scanLoop_sourced env i files st found :
  let st' := (finder.scanLoop lib env i files st found).1.1 in
  exists more,
    events st' = events st ++ more /\ forallb isLoad more = true /\
    (loaded (events st) (objects st) -> loaded (events st') (objects st')).
Proof.
  simpl. revert i st found.
  induction files as [|path files IH]; intros i st found; simpl.
  { by exists []; rewrite app_nil_r. }
  destruct (finder.ctxDone env i); [by exists []; rewrite app_nil_r|].
  destruct (parseComposeFile_sourced (finder.fs env) (finder.scanNow env) path st)
    as (more1 & E1 & L1 & K1).
  destruct (finder.parseComposeFile _ _ _ _ _) as [st1 r]. simpl in E1, K1.
  assert (forall found',
    exists more,
      events (finder.scanLoop lib env (S i) files st1 found').1.1 = events st ++ more /\
      forallb isLoad more = true /\
      (loaded (events st) (objects st) ->
       loaded (events (finder.scanLoop lib env (S i) files st1 found').1.1)
         (objects (finder.scanLoop lib env (S i) files st1 found').1.1))) as Hrest.
  { intros found'. destruct (IH (S i) st1 found') as (more2 & E2 & L2 & K2).
    exists (more1 ++ more2). rewrite E2, E1, <- app_assoc, forallb_app, L1, L2.
    repeat split. intros H. rewrite app_assoc, <- E1, <- E2. auto. }
  destruct r as [|[proj|]]; apply Hrest.
Qed.

(** One turn of the loop of [Refresh] keeps the definition file of every
    object. *)
Lemma refreshOne_loaded evs d containers prefs old h new l :
  loaded evs h ->
  loaded evs (refreshOne lib m d containers prefs old (h, new) l).1.
Proof.
  intros H. unfold refreshOne. destruct (h !! l) as [p|] eqn:Hl; [|done].
  set (p1 := match old !! ID p with Some _ => _ | None => p end).
  set (p2 := match prefs with Some _ => _ | None => p1 end).
  assert (ComposeFilePath p1 = ComposeFilePath p) as F1.
  { unfold p1. destruct (old !! ID p) as [e|]; [|done]. by destruct (h !! e). }
  assert (ComposeFilePath p2 = ComposeFilePath p1) as F2.
  { unfold p2. destruct prefs as [pm|]; [|done]. by destruct (pm !! ID p1). }
  assert (ComposeFilePath (attach d containers p2) = ComposeFilePath p2) as F3.
  { unfold attach. by destruct (containers !! _). }
  pose proof (applyProtection_frame lib m (attach d containers p2)) as F4.
  simpl. intros l1 q Hq. destruct (decide (l1 = l)) as [->|Hne].
  - rewrite list_lookup_insert_eq in Hq by by eapply lookup_lt_Some.
    injection Hq as <-. simpl. rewrite F4. simpl. rewrite F3, F2, F1. by eapply H.
  - rewrite list_lookup_insert_ne in Hq by done. by eapply H.
Qed.

Lemma refresh_fold_loaded evs d containers prefs old found h new :
  loaded evs h ->
  loaded evs (fold_left (refreshOne lib m d containers prefs old) found (h, new)).1.
Proof.
  revert h new. induction found as [|l found IH]; intros h new H; [done|].
  cbn [fold_left].
  pose proof (refreshOne_loaded evs d containers prefs old h new l H) as H1.
  destruct (refreshOne _ _ _ _ _ _ _ _) as [h1 new1]. by apply IH.
Qed.

Lemma Refresh_sourced env d st : sourced st -> sourced (Refresh lib m env d st).1.
Proof.
  intros [Hl Hc]. unfold Refresh, finder.Scan.
  destruct (scanLoop_sourced env 0 (finder.yamlFiles env) st [])
    as (more & E & L & K).
  destruct (finder.scanLoop _ _ _ _ _ _) as [[st1 found] ok]. simpl in E, K.
  assert (sourced st1) as [Hl1 Hc1].
  { split; [by apply K|]. rewrite E. by apply composed_loads. }
  destruct ok; simpl; [|done].
  destruct (containersByProject d) as [containers|]; [|done].
  set (prefs := if hasStore m then _ else None).
  pose proof (refresh_fold_loaded (events st1) d containers prefs (projects st1)
                found (objects st1) ∅ Hl1) as F.
  destruct (fold_left _ found (objects st1, ∅)) as [h new]. done.
Qed.

(** Overwriting an object by one with the same definition file. *)
Lemma insert_loaded evs (h : list Project) (l : nat) (f : Project -> Project) :
  (forall p, ComposeFilePath (f p) = ComposeFilePath p) ->
  loaded evs h -> loaded evs (<[l := f (deref h l)]> h).
Proof.
  intros Hf H l1 q Hq. destruct (decide (l1 = l)) as [->|Hne].
  - pose proof (lookup_lt_Some _ _ _ Hq) as Hlt. rewrite length_insert in Hlt.
    rewrite list_lookup_insert_eq in Hq by done. injection Hq as <-.
    apply lookup_lt_is_Some in Hlt as [p Hp].
    rewrite (deref_lookup _ _ _ Hp), Hf. by eapply H.
  - rewrite list_lookup_insert_ne in Hq by done. by eapply H.
Qed.

Lemma refreshProject_sourced d id st :
  sourced st -> sourced (refreshProject d id st).1.
Proof.
  intros [Hl Hc]. unfold refreshProject.
  destruct (containersByProject d) as [cs|]; [|done].
  destruct (projects st !! id) as [proj|]; [|done]. split; [|done]. simpl.
  apply (insert_loaded _ _ _ (fun p => setUpdatedAt (now d) (attach d cs p)));
    [|done].
  intros p. unfold attach. by destruct (cs !! _).
Qed.

(** A compose command on the definition file of a project of the map. *)
Lemma runComposeCommand_sourced d id proj args st :
  keyed st -> sourced st ->
  projects st !! id = Some proj ->
  In args [["up"; "-d"; "--remove-orphans"]; ["down"]; ["restart"]] ->
  sourced
    (runComposeCommand d (ComposeFilePath (deref (objects st) proj)) args st).1.
Proof.
  intros Hk [Hl Hc] Hp Ha. destruct (Hk id proj Hp) as (p & Ho & _).
  rewrite (deref_lookup _ _ _ Ho). split; simpl.
  - by apply loaded_more.
  - intros path args' Hin. apply in_app_or in Hin as [Hin|[[= <- <-]|[]]].
    + destruct (Hc path args' Hin). split; [|done]. apply in_or_app. by left.
    + split; [|done]. apply in_or_app. left. by eapply Hl.
Qed.

Lemma run_sourced c st : keyed st -> sourced st -> sourced (run lib m c st).
Proof.
  intros Hk Hs. destruct c as [env d|d id|d id force|d id|id protected reason tnow
                  |dbFail id displayName tnow|dbFail id hidden tnow]; simpl.
  - by apply Refresh_sourced.
  - unfold StartProject, GetProject. destruct (projects st !! id) as [proj|] eqn:Hp;
      [|done].
    pose proof (runComposeCommand_sourced d id proj ["up"; "-d"; "--remove-orphans"]
                  st Hk Hs Hp) as H.
    unfold ComposeUp. destruct (runComposeCommand _ _ _ _) as [st1 [output|]];
      simpl in *; [apply H; simpl; tauto|].
    apply refreshProject_sourced, H. simpl. tauto.
  - unfold StopProject, GetProject. destruct (projects st !! id) as [proj|] eqn:Hp;
      [|done].
    destruct (Protected _ && negb force); [done|].
    pose proof (runComposeCommand_sourced d id proj ["down"] st Hk Hs Hp) as H.
    unfold ComposeDown. destruct (runComposeCommand _ _ _ _) as [st1 [output|]];
      simpl in *; [apply H; simpl; tauto|].
    apply refreshProject_sourced, H. simpl. tauto.
  - unfold RestartProject, GetProject. destruct (projects st !! id) as [proj|] eqn:Hp;
      [|done].
    destruct (Protected _); [done|].
    pose proof (runComposeCommand_sourced d id proj ["restart"] st Hk Hs Hp) as H.
    unfold ComposeRestart. destruct (runComposeCommand _ _ _ _) as [st1 [output|]];
      simpl in *; [apply H; simpl; tauto|].
    apply refreshProject_sourced, H. simpl. tauto.
  - unfold SetProjectProtection. destruct (projects st !! id) as [proj|]; [|done].
    destruct Hs as [Hl Hc]. split; [|done]. simpl.
    by apply (insert_loaded _ _ _
      (fun p => setUpdatedAt tnow (setProtection protected
                                    (if protected then reason else "") p))).
  - unfold SetProjectDisplayName. destruct (projects st !! id) as [proj|]; [|done].
    destruct Hs as [Hl Hc].
    destruct (if hasStore m then _ else _) as [t [e|]]; [done|].
    split; [|done]. simpl.
    by apply (insert_loaded _ _ _
      (fun p => setUpdatedAt tnow (setDisplayName displayName p))).
  - unfold SetProjectHidden. destruct (projects st !! id) as [proj|]; [|done].
    destruct Hs as [Hl Hc].
    destruct (if hasStore m then _ else _) as [t [e|]]; [done|].
    split; [|done]. simpl.
    by apply (insert_loaded _ _ _ (fun p => setUpdatedAt tnow (setHidden hidden p))).
Qed.

(** X13.  Whatever calls a process serves after it started, every command
    it issues through [runComposeCommand] is [up -d --remove-orphans],
    [down] or [restart], on a definition file that the compose loader was
    called on before: no command reaches a path the scanner did not parse.
    (The [config] query by which [GetComposeProjectName] resolves a name
    changes nothing and is not among the events.) *)
Theorem compose_only_on_loaded_files (calls : list Call)
    (t : gmap string ProjectPreference) (path : string) (args : list string) :
  In (EvCompose path args) (events (runAll lib m calls (initial t))) ->
  In (EvLoadProject path) (events (runAll lib m calls (initial t))) /\
  In args [["up"; "-d"; "--remove-orphans"]; ["down"]; ["restart"]].
Proof.
  assert (forall st, keyed st -> sourced st -> sourced (runAll lib m calls st)) as H.
  { induction calls as [|c rest IH]; intros st Hk Hs; [done|]. simpl.
    apply IH; [by apply run_keyed | by apply run_sourced]. }
  destruct (H (initial t)) as [_ Hc].
  - apply keyed_initial.
  - split; [intros l p Hp; simpl in Hp; by rewrite lookup_nil in Hp | by intros ? ? []].
  - apply Hc.
Qed.

End Sourced.

Section SourcedExamples.

Import data.

(** The forced stop of the blog ran [down] on the file the first refresh
    had parsed. *)
Lemma compose_only_on_loaded_files_witness :
  In (EvLoadProject blogPath)
    (events (runAll sample.lib plainManager (discoverAndProtect ++ laterCalls)
               (initial ∅))).
Proof.
  apply (compose_only_on_loaded_files sample.lib plainManager
           (discoverAndProtect ++ laterCalls) ∅ blogPath ["down"]).
  vm_compute. repeat (first [left; reflexivity | right]).
Defined.

End SourcedExamples.

(** ** finder.go: scanning with an empty cache *)

Section Cleared.

Import finder walk.

Variables (lib : Lib) (env : ScanEnv) (n : nat).

Local Abbreviation fresh := (parsedSince lib (scanNow env) n).

Lemma parsedSince_grow h extra l : fresh h l -> fresh (h ++ extra) l.
Proof.
  intros (Hn & path & services & Hl). split; [done|].
  exists path, services. by apply lookup_app_l_Some.
Qed.

(** A parse in a state whose cache names fresh objects only. *)
Lemma parseComposeFile_fresh path st :
  (n <= length (objects st))%nat ->
  (forall q c, cache st !! q = Some c -> fresh (objects st) (cachedProject c)) ->
  let '(st', r) := parseComposeFile lib (fs env) (scanNow env) path st in
  (n <= length (objects st'))%nat /\
  (forall q c, cache st' !! q = Some c -> fresh (objects st') (cachedProject c)) /\
  (forall l, fresh (objects st) l -> fresh (objects st') l) /\
  (forall proj, r = ParseOk (Some proj) -> fresh (objects st') proj).
Proof.
  intros Hn Hc. unfold parseComposeFile.
  destruct (stat (fs env) path) as [modTime|]; [|done].
  destruct (fileChecksum (fs env) path) as [checksum|]; [|done].
  destruct (cacheValid _ _ _).
  { split; [done|]. split; [done|]. split; [done|]. intros proj [= E].
    destruct (cache st !! path) as [c|] eqn:Hp; [|done].
    injection E as <-. by eapply Hc. }
  destruct (loadProject (fs env) path) as [| |services]; try done.
  destruct (length services =? 0)%nat; [done|]. simpl.
  assert (fresh (objects st ++ [newProject lib path services (scanNow env)])
            (length (objects st))) as Hnew.
  { split; [done|]. exists path, services.
    by rewrite lookup_app_r, Nat.sub_diag by lia. }
  split; [rewrite length_app; lia|]. split; [|split].
  - intros q c Hq. destruct (decide (q = path)) as [->|Hne].
    + rewrite lookup_insert_eq in Hq. by injection Hq as <-.
    + rewrite lookup_insert_ne in Hq by done. by apply parsedSince_grow, (Hc q).
  - intros l. apply parsedSince_grow.
  - by intros proj [= <-].
Qed.

Lemma scanLoop_fresh files i st found :
  (n <= length (objects st))%nat ->
  (forall q c, cache st !! q = Some c -> fresh (objects st) (cachedProject c)) ->
  (forall l, In l found -> fresh (objects st) l) ->
  forall l, In l (scanLoop lib env i files st found).1.2 ->
    fresh (objects (scanLoop lib env i files st found).1.1) l.
Proof.
  revert i st found.
  induction files as [|path files IH]; intros i st found Hn Hc Hf; [done|].
  simpl. destruct (ctxDone env i); [done|].
  pose proof (parseComposeFile_fresh path st Hn Hc) as P.
  destruct (parseComposeFile _ _ _ _ _) as [st1 r].
  destruct P as (Hn1 & Hc1 & Hgrow & Hr).
  destruct r as [|[proj|]]; apply IH; try done; try (intros l Hl; by apply Hgrow, Hf).
  intros l Hl. apply in_app_or in Hl as [Hl|[<-|[]]]; [by apply Hgrow, Hf|].
  by apply Hr.
Qed.

End Cleared.

Section ClearedClaim.

Import finder walk.

(** X14.  After [ClearCache] a scan trusts no earlier parse: every project
    it returns is an object allocated during this scan, built by
    [parseComposeFile] at the time of the scan.  [ClearCache] itself
    touches nothing but the cache. *)
Theorem Scan_after_ClearCache (lib : Lib) (env : ScanEnv) (st : World) (l : nat) :
  let '(st1, found, _) := Scan lib env (ClearCache st) in
  (In l found ->
   (length (objects st) <= l)%nat /\
   exists path services,
     objects st1 !! l = Some (newProject lib path services (scanNow env))) /\
  objects (ClearCache st) = objects st /\
  projects (ClearCache st) = projects st /\
  table (ClearCache st) = table st /\ events (ClearCache st) = events st.
Proof.
  pose proof (scanLoop_fresh lib env (length (objects st)) (yamlFiles env) 0
                (ClearCache st) []) as H.
  unfold Scan. destruct (scanLoop _ _ _ _ _ _) as [[st1 found] ok].
  split; [|done]. intros Hl. by apply H.
Qed.

End ClearedClaim.

Section ClearedExamples.

Import finder walk data.

(** With its cache the scanner returns the blog's old object; without, a
    new one. *)
Example ClearCache_reparses :
  (Scan sample.lib blogScan (blogWorld false "")).1.2 = [0%nat] /\
  (Scan sample.lib blogScan (ClearCache (blogWorld false ""))).1.2 = [1%nat].
Proof. split; reflexivity. Qed.

End ClearedExamples.

(** ** stats.go: traffic totals *)

Section Totals.

Import collector.

Lemma add64_wrap a b : add64 (Go.wrap64 a) b = Go.wrap64 (a + b).
Proof. unfold add64, Go.wrap64. by rewrite Zplus_mod_idemp_l. Qed.

Lemma network_fold l a b :
  fold_left
    (fun (acc : Z * Z) (entry : string * NetworkStats) =>
       (add64 acc.1 (RxBytes entry.2), add64 acc.2 (TxBytes entry.2)))
    l (Go.wrap64 a, Go.wrap64 b) =
  (Go.wrap64 (a + total (map (fun e => RxBytes e.2) l)),
   Go.wrap64 (b + total (map (fun e => TxBytes e.2) l))).
Proof.
  revert a b. induction l as [|e l IH]; intros a b; simpl.
  - by rewrite !Z.add_0_r.
  - rewrite !add64_wrap, IH. by rewrite !Z.add_assoc.
Qed.

Lemma block_fold l a b :
  fold_left
    (fun (acc : Z * Z) (bio : BlkioStatEntry) =>
       if String.eqb (Op bio) "read" || String.eqb (Op bio) "Read"
       then (add64 acc.1 (Value bio), acc.2)
       else if String.eqb (Op bio) "write" || String.eqb (Op bio) "Write"
       then (acc.1, add64 acc.2 (Value bio))
       else acc)
    l (Go.wrap64 a, Go.wrap64 b) =
  (Go.wrap64 (a + total (map Value (List.filter isReadOp l))),
   Go.wrap64 (b + total (map Value (List.filter isWriteOp l)))).
Proof.
  revert a b. induction l as [|bio l IH]; intros a b; simpl.
  - by rewrite !Z.add_0_r.
  - unfold isReadOp at 1, isWriteOp at 1.
    destruct (String.eqb_spec (Op bio) "read") as [E|_]; simpl.
    { rewrite E. simpl. rewrite add64_wrap, IH. by rewrite Z.add_assoc. }
    destruct (String.eqb_spec (Op bio) "Read") as [E|_]; simpl.
    { rewrite E. simpl. rewrite add64_wrap, IH. by rewrite Z.add_assoc. }
    destruct (String.eqb (Op bio) "write" || String.eqb (Op bio) "Write"); simpl.
    + rewrite add64_wrap, IH. by rewrite Z.add_assoc.
    + apply IH.
Qed.

Lemma total_Permutation (l l' : list Z) : l ≡ₚ l' -> total l = total l'.
Proof. induction 1; simpl; lia. Qed.

(** X15.  The traffic totals of a sample are sums modulo 2^64: the network
    totals add the received and the sent bytes of every interface, the
    block totals add the values of the entries whose operation is spelled
    [read] or [Read], respectively [write] or [Write], and skip every other
    entry.  The network totals do not depend on the order in which the map
    of interfaces is visited. *)
Theorem traffic_totals (s : Sample) :
  calculateNetworkIO s =
    (Go.wrap64 (total (map (fun e => RxBytes e.2) (Networks s))),
     Go.wrap64 (total (map (fun e => TxBytes e.2) (Networks s)))) /\
  calculateBlockIO s =
    (Go.wrap64 (total (map Value (List.filter isReadOp (IoServiceBytesRecursive s)))),
     Go.wrap64 (total (map Value (List.filter isWriteOp (IoServiceBytesRecursive s))))) /\
  (forall s', Networks s ≡ₚ Networks s' ->
     calculateNetworkIO s = calculateNetworkIO s').
Proof.
  assert (forall x, calculateNetworkIO x =
    (Go.wrap64 (total (map (fun e => RxBytes e.2) (Networks x))),
     Go.wrap64 (total (map (fun e => TxBytes e.2) (Networks x))))) as N.
  { intros x. exact (network_fold (Networks x) 0 0). }
  split; [apply N|]. split.
  - exact (block_fold (IoServiceBytesRecursive s) 0 0).
  - intros s' P. rewrite !N.
    by rewrite (total_Permutation _ _ (Permutation_map (fun e => RxBytes e.2) P)),
               (total_Permutation _ _ (Permutation_map (fun e => TxBytes e.2) P)).
Qed.

End Totals.

(** ** stats.go: the baseline of the CPU computation *)

Section Baseline.

Import stats collector.

(** X16.  The collector keeps one baseline per container.  The first
    reading of a container reports 0% CPU; a reading stores its raw sample
    as the baseline of that container and of no other; the next reading is
    computed against it; after [ClearPreviousStats] the next reading
    reports 0% again; and a reading that fails leaves every baseline as it
    was. *)
Theorem GetStats_baseline (now now' : Time) (s1 s2 : Sample) (id : string)
    (prevStats : gmap string Sample) :
  let '(m1, r1) := GetStats now (Some s1) id prevStats in
  (prevStats !! id = None -> CPUPercent <$> r1 = Some 0%float) /\
  m1 !! id = Some s1 /\
  (forall other, other <> id -> m1 !! other = prevStats !! other) /\
  CPUPercent <$> (GetStats now' (Some s2) id m1).2 =
    Some (calculateCPUPercent (Some (CPUStats s1)) (Some (CPUStats s2))) /\
  CPUPercent <$> (GetStats now' (Some s2) id (ClearPreviousStats id m1)).2 =
    Some 0%float /\
  GetStats now None id prevStats = (prevStats, None).
Proof.
  simpl. split; [by intros ->|]. split; [by rewrite lookup_insert_eq|].
  split; [intros other H; by rewrite lookup_insert_ne|].
  split; [by rewrite lookup_insert_eq|].
  unfold ClearPreviousStats. by rewrite lookup_delete_eq.
Qed.

Variables (now : Time) (answer : string -> option Sample).

Lemma stats_fold cs pm sm cid :
  let r := fold_left (statsOne now answer) cs (pm, sm) in
  r.1 !! cid =
    (if asked cs cid
     then match answer cid with Some s => Some s | None => pm !! cid end
     else pm !! cid) /\
  (is_Some (r.2 !! cid) <->
   is_Some (sm !! cid) \/ (asked cs cid = true /\ is_Some (answer cid))).
Proof.
  simpl. revert pm sm. induction cs as [|ctr cs IH]; intros pm sm.
  { simpl. split; [done|]. split; [by left | by intros [?|[? _]]]. }
  cbn [fold_left]. unfold asked. cbn [existsb]. fold (asked cs cid).
  unfold statsOne at 2 4. cbn [fst snd].
  destruct (String.eqb (State ctr) "running"); simpl.
  2: { rewrite andb_false_r. apply IH. }
  rewrite andb_true_r. unfold GetStats.
  destruct (String.eqb_spec (ctrID ctr) cid) as [<-|Hne]; simpl.
  - destruct (answer (ctrID ctr)) as [s|] eqn:A; simpl.
    + match goal with |- context [fold_left _ cs (?a, ?b)] =>
        destruct (IH a b) as [H1 H2] end.
      rewrite H1, H2, ?A, !lookup_insert_eq. split; [by destruct (asked cs _)|].
      split; [intros _; right; by split | by intros _; left].
    + destruct (IH pm sm) as [H1 H2]. rewrite H1, H2, ?A.
      split; [by destruct (asked cs _)|].
      split; [intros [?|[_ [? ?]]]; [by left | done]
             | intros [?|[_ [? ?]]]; [by left | done]].
  - destruct (answer (ctrID ctr)) as [s|] eqn:A; simpl.
    + match goal with |- context [fold_left _ cs (?a, ?b)] =>
        destruct (IH a b) as [H1 H2] end.
      rewrite H1, H2, !lookup_insert_ne by done. done.
    + apply IH.
Qed.

End Baseline.

Section ProjectStats.

Import collector.

(** X17.  [GetProjectStats] on an unknown project returns the not-found
    error and asks the daemon nothing.  On a known project it returns stats
    for exactly the containers of the project that are in state [running]
    and for which the daemon answered; the baseline of such a container
    becomes the sample just read, and every other baseline is left as it
    was. *)
Theorem GetProjectStats_polls (now : Time) (answer : string -> option Sample)
    (id : string) (st : World) (prevStats : gmap string Sample) :
  match projects st !! id with
  | None =>
      GetProjectStats now answer id st prevStats =
        (prevStats, inl (manager.ErrNotFound id))
  | Some proj =>
      exists prevStats' stats,
        GetProjectStats now answer id st prevStats = (prevStats', inr stats) /\
        forall cid,
          let cs := Containers (ops.deref (objects st) proj) in
          (is_Some (stats !! cid) <-> asked cs cid = true /\ is_Some (answer cid)) /\
          prevStats' !! cid =
            if asked cs cid
            then match answer cid with
                 | Some s => Some s
                 | None => prevStats !! cid
                 end
            else prevStats !! cid
  end.
Proof.
  unfold GetProjectStats, ops.GetProject.
  destruct (projects st !! id) as [proj|]; [|done].
  pose proof (stats_fold now answer (Containers (ops.deref (objects st) proj))
                prevStats ∅) as H.
  destruct (fold_left _ _ (prevStats, ∅)) as [prevStats' stats].
  exists prevStats', stats. split; [done|]. intros cid. cbv zeta.
  destruct (H cid) as [H1 H2]. simpl in H1, H2. split; [|done].
  rewrite H2. split; [intros [[? E]|?]; [by rewrite lookup_empty in E | done]|].
  by right.
Qed.

End ProjectStats.

(** ** hub.go: the invariant of the event loop *)

Section HubInvariant.

Import websocket.





End HubInvariant.

Section HubInvariantExamples.

Import websocket data.


End HubInvariantExamples.

(** ** client.go: subscription messages *)

Section Messages.

Import websocket protocol.

Lemma subscribeItems_all ids c :
  fold_left subscribeItem ids c = subscribeAll (stringsOf ids) c.
Proof.
  revert c. induction ids as [|item ids IH]; intros c; [done|].
  cbn [fold_left]. rewrite IH. by destruct item.
Qed.

Lemma subscribeAll_queue ids c :
  send (subscribeAll ids c) = send c /\ closed (subscribeAll ids c) = closed c.
Proof.
  revert c. induction ids as [|id ids IH]; intros c; [done|].
  unfold subscribeAll in *. simpl. by destruct (IH (Subscribe id c)) as [-> ->].
Qed.

(** X19.  A message from the browser changes nothing but the subscription
    map of its client.  A [subscribe] message with an array subscribes the
    client to every string in the array and skips the other items, while an
    [unsubscribe] message with an array is ignored: projects are
    unsubscribed one message at a time.  An entry of the map changes only by
    a [subscribe] message that sets it, or by an [unsubscribe] message that
    carries its key as a string and removes it.  A message that does not
    decode changes nothing. *)
Theorem handleMessage_effect (c : Client) (ty : string) (payload : JSON) :
  let c' := handleMessage (Some {| Type_ := ty; Payload := payload |}) c in
  send c' = send c /\ closed c' = closed c /\
  (forall ids, ty = "subscribe" -> payload = JArray ids ->
     c' = subscribeAll (stringsOf ids) c) /\
  (forall ids, ty = "unsubscribe" -> payload = JArray ids -> c' = c) /\
  (forall k, subscriptions c' !! k <> subscriptions c !! k ->
     (ty = "subscribe" /\ subscriptions c' !! k = Some true) \/
     (ty = "unsubscribe" /\ payload = JString k /\ subscriptions c' !! k = None)) /\
  handleMessage None c = c.
Proof.
  simpl. unfold handleMessage. simpl.
  destruct (String.eqb_spec ty MsgSubscribe) as [->|Hs].
  - destruct payload as [projectID|ids|]; simpl.
    + repeat split; try done. intros k Hk. left. split; [done|].
      destruct (decide (k = projectID)) as [->|Hne]; [by rewrite lookup_insert_eq|].
      by rewrite lookup_insert_ne in Hk.
    + rewrite subscribeItems_all.
      destruct (subscribeAll_queue (stringsOf ids) c) as [-> ->].
      repeat split; try done.
      * by intros ids' _ [= <-].
      * intros k Hk. left. split; [done|]. rewrite subscribeAll_lookup in *.
        by destruct (decide (k ∈ stringsOf ids)).
    + repeat split; done.
  - destruct (String.eqb_spec ty MsgUnsubscribe) as [->|Hu].
    + destruct payload as [projectID|ids|]; simpl; try by repeat split.
      repeat split; try done. intros k Hk. right.
      destruct (decide (k = projectID)) as [->|Hne].
      * by rewrite lookup_delete_eq.
      * by rewrite lookup_delete_ne in Hk.
    + repeat split; done.
Qed.

End Messages.

Section MessageExamples.

Import websocket protocol.

Lemma handleMessage_effect_witness :
  handleMessage
    (Some {| Type_ := "subscribe";
             Payload := JArray [JString "a"; JOther; JString "b"] |}) NewClient
    = subscribeAll ["a"; "b"] NewClient /\
  handleMessage
    (Some {| Type_ := "unsubscribe"; Payload := JArray [JString "a"] |})
    (subscribeAll ["a"; "b"] NewClient)
    = subscribeAll ["a"; "b"] NewClient.
Proof.
  destruct (handleMessage_effect NewClient "subscribe"
              (JArray [JString "a"; JOther; JString "b"])) as (_ & _ & H & _).
  destruct (handleMessage_effect (subscribeAll ["a"; "b"] NewClient) "unsubscribe"
              (JArray [JString "a"])) as (_ & _ & _ & H' & _).
  split; [by apply (H [JString "a"; JOther; JString "b"])
         | by apply (H' [JString "a"])].
Defined.

End MessageExamples.

(** ** handlers.go: the status codes of stop and restart *)

Section Handlers.

Import manager.

Variable d : Daemon.

(** X20.  The stop handler answers 403 exactly when the manager refused to
    stop a protected project, and then nothing has changed and the request
    did not carry [force=true]; it answers 200 exactly when it returns the
    project; every other failure, an unknown project included, is a 500.
    Only the literal value [true] of the query parameter forces a stop. *)
Theorem StopProject_status (id forceParam : string) (st : World) :
  let '(st', (status, body)) := api.StopProject d id forceParam st in
  (status = 403 <->
   exists name reason, body = api.BodyError (ErrProtectedStop name reason)) /\
  (status = 200 <-> exists proj, body = api.BodyProject proj) /\
  (status = 200 \/ status = 403 \/ status = 500) /\
  (status = 403 -> st' = st /\ forceParam <> "true") /\
  (projects st !! id = None ->
     status = 500 /\ body = api.BodyError (ErrNotFound id) /\ st' = st) /\
  (forceParam <> "true" ->
   forall proj p, projects st !! id = Some proj -> objects st !! proj = Some p ->
     Protected p = true -> status = 403).
Proof.
  unfold api.StopProject, ops.StopProject, api.lookupProject, ops.GetProject.
  destruct (projects st !! id) as [proj|] eqn:Hp.
  2: { destruct (String.eqb forceParam "true"); simpl; rewrite ?Hp;
       repeat split; try done; try (by intros (? & ? & ?)); try (by intros (? & ?));
       auto. }
  destruct (String.eqb_spec forceParam "true") as [->|Hf]; simpl;
    rewrite ?andb_false_r, ?andb_true_r.
  - unfold ops.refreshProject.
    destruct (runCompose d _ _) as [output|]; simpl;
      [|destruct (containersByProject d) as [cs|]; simpl; rewrite ?Hp];
      repeat split; try done; try (by intros (? & ? & ?)); try (by intros (? & ?));
      try (by eexists); auto.
  - destruct (Protected (ops.deref (objects st) proj)) eqn:E; simpl.
    + rewrite ?Hp, ?E. repeat split; try done; try (by intros (? & ?));
        try (by eexists); try (by intros _; eexists _, _); auto.
    + unfold ops.refreshProject.
      destruct (runCompose d _ _) as [output|]; simpl;
        [|destruct (containersByProject d) as [cs|]; simpl]; rewrite ?Hp, ?E;
        repeat split; try done; try (by intros (? & ? & ?));
        try (by intros (? & ?)); try (by eexists); auto;
        try (intros _ proj' p [= <-] Ho Hprot;
             rewrite (deref_lookup _ _ _ Ho) in E; congruence).
Qed.

(** X21.  The restart handler has no 403: it answers 200 or 500, and a
    protected project is answered with a 500 that carries the manager's
    refusal, with nothing changed and no compose command run. *)
Theorem RestartProject_status (id : string) (st : World) :
  let '(st', (status, body)) := api.RestartProject d id st in
  (status = 200 \/ status = 500) /\
  (status = 200 <-> exists proj, body = api.BodyProject proj) /\
  (forall proj p, projects st !! id = Some proj -> objects st !! proj = Some p ->
     Protected p = true ->
     status = 500 /\ st' = st /\
     body = api.BodyError (ErrProtectedRestart (Name p) (ProtectionReason_ p))).
Proof.
  unfold api.RestartProject, ops.RestartProject, api.lookupProject, ops.GetProject.
  destruct (projects st !! id) as [proj|] eqn:Hp.
  2: { repeat split; try done; try (by intros (? & ?)); auto. }
  destruct (Protected (ops.deref (objects st) proj)) eqn:E; simpl.
  - repeat split; try done; try (by intros (? & ?)); auto;
      match goal with
      | H : Some _ = Some _, Ho : objects _ !! _ = Some _ |- _ =>
          injection H as <-; by rewrite (deref_lookup _ _ _ Ho)
      end.
  - unfold ops.refreshProject.
    destruct (runCompose d _ _) as [output|]; simpl;
      [|destruct (containersByProject d) as [cs|]; simpl]; rewrite ?Hp;
      repeat split; try done; try (by intros (? & ?)); try (by eexists); auto;
      match goal with
      | H : Some _ = Some _, Ho : objects _ !! _ = Some _ |- _ =>
          injection H as <-; rewrite (deref_lookup _ _ _ Ho) in E; congruence
      end.
Qed.

End Handlers.

Section ProtectionHandler.

Import manager.

(** X22.  The protection handler answers 400 to a body that does not
    decode and 404 to an unknown project, and changes nothing in either
    case.  On a known project it answers 200 with the project, whose flag is
    the one sent; the reason recorded with a set flag is the one sent, or
    [user_marked] when none was sent, and a cleared flag always clears the
    reason. *)
Theorem SetProjectProtection_handler (id : string) (decoded : option (bool * string))
    (now : Time) (st : World) :
  let '(st', (status, body)) := api.SetProjectProtection id decoded now st in
  (decoded = None -> status = 400 /\ st' = st) /\
  (forall protected reqReason, decoded = Some (protected, reqReason) ->
     match projects st !! id with
     | None => status = 404 /\ st' = st /\ body = api.BodyError (ErrNotFound id)
     | Some proj =>
         status = 200 /\ body = api.BodyProject (Some proj) /\
         forall p, objects st !! proj = Some p ->
           objects st' !! proj =
             Some (setUpdatedAt now
                     (setProtection protected
                        (if protected
                         then if String.eqb reqReason "" then ProtectionUserMarked
                              else reqReason
                         else "") p))
     end).
Proof.
  unfold api.SetProjectProtection, ops.SetProjectProtection, api.lookupProject,
    ops.GetProject.
  destruct decoded as [[protected reqReason]|]; [|done].
  destruct (projects st !! id) as [proj|] eqn:Hp; simpl; rewrite ?Hp.
  - split; [done|]. intros ? ? [= <- <-]. rewrite ?Hp. repeat split.
    intros p Ho. rewrite (deref_lookup _ _ _ Ho).
    rewrite list_lookup_insert_eq by by eapply lookup_lt_Some.
    by destruct protected, (String.eqb reqReason "").
  - split; [done|]. intros ? ? [= <- <-]. by rewrite ?Hp.
Qed.

(** X23.  Protection set through the API is what the stop handler obeys:
    after a project was marked protected, a stop request without
    [force=true] is answered 403 and runs no compose command; after the mark
    was cleared, the same request reaches [docker compose down] on the
    project's definition file. *)
Theorem protect_then_stop (d : Daemon) (id reqReason forceParam : string)
    (now : Time) (st : World) (proj : nat) (p : Project) :
  projects st !! id = Some proj -> objects st !! proj = Some p ->
  forceParam <> "true" ->
  let marked := (api.SetProjectProtection id (Some (true, reqReason)) now st).1 in
  let cleared := (api.SetProjectProtection id (Some (false, reqReason)) now st).1 in
  api.StopProject d id forceParam marked =
    (marked,
     (403, api.BodyError
             (ErrProtectedStop (Name p)
                (if String.eqb reqReason "" then ProtectionUserMarked
                 else reqReason)))) /\
  (api.StopProject d id forceParam cleared).2.1 <> 403 /\
  events (api.StopProject d id forceParam cleared).1 =
    events st ++ [EvCompose (ComposeFilePath p) ["down"]].
Proof.
  intros Hp Ho Hf. simpl.
  unfold api.SetProjectProtection, ops.SetProjectProtection. rewrite Hp. simpl.
  rewrite (deref_lookup _ _ _ Ho).
  pose proof (lookup_lt_Some _ _ _ Ho) as Hlt.
  apply String.eqb_neq in Hf.
  unfold api.StopProject, ops.StopProject, api.lookupProject, ops.GetProject.
  rewrite Hf. simpl. rewrite !Hp. unfold ops.deref. simpl.
  rewrite !list_lookup_insert_eq by done. simpl. split.
  { rewrite Hp. simpl. rewrite list_lookup_insert_eq by done. simpl.
    by destruct (String.eqb reqReason ""). }
  unfold ops.refreshProject.
  destruct (runCompose d _ _) as [output|]; simpl.
  - rewrite Hp. simpl. rewrite list_lookup_insert_eq by done. simpl.
    done.
  - destruct (containersByProject d) as [cs|]; simpl; rewrite ?Hp; simpl;
      rewrite ?list_lookup_insert_eq by done; simpl;
      done.
Qed.

End ProtectionHandler.

Section HandlerExamples.

Import manager data.

Lemma protect_then_stop_witness :
  let marked :=
    (api.SetProjectProtection "3f2a9c0d51b7e864" (Some (true, "")) 2100
       (blogWorld false "")).1 in
  (api.StopProject quietDaemon "3f2a9c0d51b7e864" "" marked).2 =
    (403, api.BodyError (ErrProtectedStop "blog" "user_marked")).
Proof.
  intros marked.
  destruct (protect_then_stop quietDaemon "3f2a9c0d51b7e864" "" "" 2100
              (blogWorld false "") 0%nat (blog false "")) as (H & _);
    [reflexivity | reflexivity | discriminate |].
  subst marked. rewrite H. reflexivity.
Defined.

(** [force=1] does not force; an unknown project is a 500 for stop and
    restart and a 404 for the protection handler. *)
Example handler_statuses :
  (api.StopProject quietDaemon "3f2a9c0d51b7e864" "1"
     (blogWorld true "user_marked")).2.1 = 403 /\
  (api.StopProject quietDaemon "3f2a9c0d51b7e864" "true"
     (blogWorld true "user_marked")).2.1 = 200 /\
  (api.RestartProject quietDaemon "3f2a9c0d51b7e864"
     (blogWorld true "user_marked")).2.1 = 500 /\
  (api.StopProject quietDaemon "nope" "" (blogWorld false "")).2.1 = 500 /\
  (api.SetProjectProtection "nope" (Some (true, "")) 2100 (blogWorld false "")).2.1
    = 404.
Proof. repeat split. Qed.

End HandlerExamples.

(** ** store.go and manager.go: preferences across a refresh *)

Section PreferencesKept.

Import manager.

Variables (lib : Lib) (m : Manager).

Lemma Refresh_table env d st : table (Refresh lib m env d st).1 = table st.
Proof.
  unfold Refresh. pose proof (Scan_table lib env st) as T.
  destruct (finder.Scan lib env st) as [[st1 found] ok]. simpl in T.
  destruct ok; simpl; [|done].
  destruct (containersByProject d) as [containers|]; [|done].
  by destruct (fold_left _ found (objects st1, ∅)).
Qed.

(** X24.  With a preference store, a display name and a hidden flag set
    through the manager are one row of the table, whichever was set first,
    and every later refresh that succeeds and reads the row shows both on
    the project, also when the scan parsed the definition file anew. *)
Theorem preferences_survive_refresh (id name : string) (hidden : bool)
    (t1 t2 : Time) (st : World) :
  hasStore m = true ->
  is_Some (projects st !! id) ->
  let named := (ops.SetProjectDisplayName m None id name t1 st).1 in
  let both := (ops.SetProjectHidden m None id hidden t2 named).1 in
  let flagged := (ops.SetProjectHidden m None id hidden t1 st).1 in
  let both' := (ops.SetProjectDisplayName m None id name t2 flagged).1 in
  table both !! id =
    Some {| prefProjectID := id; prefDisplayName := name; prefHidden := hidden |} /\
  table both' = table both /\
  forall env d st3 l,
    preferencesFail d = false -> preferencesDelivered d id = true ->
    Refresh lib m env d both = (st3, None) ->
    projects st3 !! id = Some l ->
    exists p, objects st3 !! l = Some p /\ DisplayName p = name /\ Hidden p = hidden.
Proof.
  intros Hs [proj Hp]. simpl.
  unfold ops.SetProjectDisplayName, ops.SetProjectHidden. rewrite Hp, Hs. simpl.
  rewrite ?Hp, ?Hs. simpl. rewrite !lookup_insert_eq. simpl.
  assert (forall (r1 r2 : ProjectPreference) (t : gmap string ProjectPreference),
            <[id := r2]> (<[id := r1]> t) = <[id := r2]> t) as Hii.
  { intros r1 r2 t. apply map_eq. intros k.
    destruct (decide (k = id)) as [->|Hne].
    - by rewrite !lookup_insert_eq.
    - by rewrite !lookup_insert_ne. }
  split; [by destruct (table st !! id)|]. split.
  { rewrite !Hii. by destruct (table st !! id). }
  intros env d st3 l Hf Hd HR Hl.
  pose proof (Refresh_table env d) as T.
  match type of HR with Refresh _ _ _ _ ?w = _ =>
    specialize (T w); destruct (Refresh_entries lib m env d w st3 HR)
      as (cs & _ & H1 & _) end.
  rewrite HR in T. simpl in T.
  destruct (H1 id l Hl) as (_ & p & Ho & _ & _ & _ & _ & _ & _ & Hpref).
  exists p. split; [done|].
  apply (Hpref Hs Hf Hd
           {| prefProjectID := id; prefDisplayName := name; prefHidden := hidden |}).
  rewrite T, lookup_insert_eq. by destruct (table st !! id).
Qed.

End PreferencesKept.

Section PreferencesKeptExamples.

Import manager data.

(** The blog is renamed and hidden, then its file is edited: the refresh
    builds a new object and shows the stored name and flag on it. *)
Lemma preferences_survive_refresh_witness :
  let found := (Refresh sample.lib plainManager blogScan quietDaemon (initial ∅)).1 in
  let named := (ops.SetProjectDisplayName plainManager None blogID "Blog" 2200 found).1 in
  let both := (ops.SetProjectHidden plainManager None blogID true 2300 named).1 in
  let latest := (Refresh sample.lib plainManager blogRescan quietDaemon both).1 in
  exists p, objects latest !! 1%nat = Some p /\ DisplayName p = "Blog" /\ Hidden p = true.
Proof.
  intros found named both latest.
  destruct (preferences_survive_refresh sample.lib plainManager blogID
              "Blog" true 2200 2300 found) as (_ & _ & H);
    [reflexivity | by eexists |].
  apply (H blogRescan quietDaemon latest 1%nat); vm_compute; reflexivity.
Defined.

End PreferencesKeptExamples.

(** ** system.go: the totals of the disk usage *)

Section Storage.

Import storage.

Lemma sumSizes_fold sizes a :
  fold_left (fun acc size => add64 acc (uint64 size)) sizes (Go.wrap64 a) =
    Go.wrap64 (a + total sizes).
Proof.
  revert a. induction sizes as [|s sizes IH]; intros a; simpl.
  - by rewrite Z.add_0_r.
  - assert (add64 (Go.wrap64 a) (uint64 s) = Go.wrap64 (a + s)) as ->.
    { unfold add64, uint64, Go.wrap64. by rewrite <- Zplus_mod. }
    by rewrite IH, Z.add_assoc.
Qed.

Lemma sumSizes_total sizes : sumSizes sizes = Go.wrap64 (total sizes).
Proof. exact (sumSizes_fold sizes 0). Qed.

Lemma add64_wraps a b : add64 (Go.wrap64 a) (Go.wrap64 b) = Go.wrap64 (a + b).
Proof. unfold add64, Go.wrap64. by rewrite <- Zplus_mod. Qed.

Lemma total_nonneg sizes : Forall (Z.le 0) sizes -> 0 <= total sizes.
Proof. induction 1; simpl; lia. Qed.

Lemma total_filter {A} (f : A -> Z) (keep : A -> bool) (l : list A) :
  Forall (Z.le 0) (map f l) ->
  0 <= total (map f (List.filter keep l)) <= total (map f l).
Proof.
  induction l as [|x l IH]; simpl; [lia|]. intros H.
  apply Forall_cons in H as [Hx Hl]. specialize (IH Hl).
  destruct (keep x); simpl; lia.
Qed.

(** X25.  [GetStorageInfo] adds sizes modulo 2^64: each of the four sizes
    is the sum over its list, the total is the sum of the four, and the
    reclaimable size is the size of the images that no container uses plus
    the whole build cache, records in use included.  When the reported
    sizes are not negative and add up to less than 2^64, the sums are exact
    and the reclaimable size is at most the total.  The call fails only
    when the daemon's does. *)
Theorem GetStorageInfo_totals (usage : DiskUsage) :
  exists info,
    GetStorageInfo (Some usage) = Some info /\
    ImagesSize info = Go.wrap64 (total (map imgSize (Images usage))) /\
    ContainersSize info = Go.wrap64 (total (ContainerSizes usage)) /\
    VolumesSize info = Go.wrap64 (total (map volumeSize (Volumes usage))) /\
    BuildCacheSize info = Go.wrap64 (total (map cacheSize (BuildCache usage))) /\
    TotalSize info =
      Go.wrap64 (total (map imgSize (Images usage)) + total (ContainerSizes usage)
                 + total (map volumeSize (Volumes usage))
                 + total (map cacheSize (BuildCache usage))) /\
    Reclaimable info =
      Go.wrap64
        (total (map imgSize
                  (List.filter (fun img => imgContainers img =? 0) (Images usage)))
         + total (map cacheSize (BuildCache usage))) /\
    (plainSizes usage ->
       TotalSize info =
         ImagesSize info + ContainersSize info + VolumesSize info
         + BuildCacheSize info /\
       0 <= Reclaimable info <= TotalSize info).
Proof.
  eexists. split; [reflexivity|]. cbn [ImagesSize ContainersSize VolumesSize
    BuildCacheSize TotalSize Reclaimable].
  rewrite !sumSizes_total, !add64_wraps.
  repeat split.
  all: destruct H as (Hi & Hc & Hv & Hb & Hlt).
  all: pose proof (total_nonneg _ Hi); pose proof (total_nonneg _ Hc).
  all: pose proof (total_nonneg _ Hv); pose proof (total_nonneg _ Hb).
  all: pose proof (total_filter imgSize (fun img => imgContainers img =? 0)
                     (Images usage) Hi).
  all: unfold Go.wrap64; rewrite ?Z.mod_small by lia; lia.
Qed.

End Storage.

Section StorageExamples.

Import storage.

(** An image whose container count the daemon did not compute is shown as
    unused but is not counted as reclaimable, while a build cache record in
    use is. *)
Example GetStorageInfo_counts :
  let usage :=
    {| Images := [ {| imgID := "sha256:1f"; imgSize := 100; imgContainers := -1;
                      RepoTags := ["nginx:1.27"] |} ];
       ContainerSizes := [7];
       Volumes := [];
       BuildCache := [ {| cacheID := "k1"; cacheType := "regular"; cacheSize := 40;
                          cacheInUse := true |} ] |} in
  (fun info => map InUse (DetailImages info)) <$> GetStorageInfo (Some usage)
    = Some [false] /\
  Reclaimable <$> GetStorageInfo (Some usage) = Some 40 /\
  TotalSize <$> GetStorageInfo (Some usage) = Some 147.
Proof. repeat split. Qed.

End StorageExamples.

(** ** system.go: the repository and the tag of an image *)

Section RepoTag.

Import storage.

Lemma list_ascii_of_string_app a b :
  list_ascii_of_string (a +:+ b) = list_ascii_of_string a ++ list_ascii_of_string b.
Proof. induction a as [|c a IH]; simpl; [done | by rewrite IH]. Qed.

(** Reading a run without a colon extends the current part. *)
Lemma splitColon_run (run rest current : list ascii) :
  forallb (fun c => negb (Ascii.eqb c ":")) run = true ->
  splitColon (run ++ rest) current = splitColon rest (current ++ run).
Proof.
  revert current. induction run as [|c run IH]; intros current H; simpl.
  - by rewrite app_nil_r.
  - simpl in H. apply andb_true_iff in H as [Hc H].
    apply negb_true_iff in Hc. rewrite Hc, IH by done.
    by rewrite <- app_assoc.
Qed.

Lemma splitColon_part (a : string) (rest : list ascii) :
  colonFree a ->
  splitColon (list_ascii_of_string a ++ ":"%char :: rest) [] = a :: splitColon rest [].
Proof.
  intros H. rewrite splitColon_run by done. simpl.
  by rewrite string_of_list_ascii_of_string.
Qed.

Lemma splitColon_last (a : string) :
  colonFree a -> splitColon (list_ascii_of_string a) [] = [a].
Proof.
  intros H. rewrite <- (app_nil_r (list_ascii_of_string a)).
  rewrite splitColon_run by done. simpl.
  by rewrite string_of_list_ascii_of_string.
Qed.

(** X26.  The repository and the tag shown for an image are the first two
    parts of its first name, cut at the colons.  A name without a colon has
    the tag [<none>], a name [repo:tag] gives both, and of a name with one
    more colon, such as one that starts with a registry host and port, the
    third part is dropped: the repository is the text before the first
    colon and the tag the text between the first two. *)
Theorem repoAndTag_parts (a b : string) (c : string) (others : list string) :
  colonFree a -> colonFree b ->
  repoAndTag (a :: others) = (a, "<none>") /\
  repoAndTag ((a +:+ ":" +:+ b) :: others) = (a, b) /\
  repoAndTag ((a +:+ ":" +:+ b +:+ ":" +:+ c) :: others) = (a, b) /\
  repoAndTag [] = ("<none>", "<none>").
Proof.
  intros Ha Hb. unfold repoAndTag. repeat split.
  - by rewrite splitColon_last.
  - rewrite list_ascii_of_string_app. simpl.
    by rewrite splitColon_part, splitColon_last.
  - rewrite !list_ascii_of_string_app. simpl.
    rewrite splitColon_part by done.
    by rewrite splitColon_part by done.
Qed.

Lemma repoAndTag_parts_witness :
  repoAndTag ["nginx:1.27"] = ("nginx", "1.27") /\
  repoAndTag ["localhost:5000/shop:v2"] = ("localhost", "5000/shop").
Proof.
  destruct (repoAndTag_parts "nginx" "1.27" "" []) as (_ & H1 & _);
    [reflexivity | reflexivity |].
  destruct (repoAndTag_parts "localhost" "5000/shop" "v2" []) as (_ & _ & H2 & _);
    [reflexivity | reflexivity |].
  split; [exact H1 | exact H2].
Defined.

End RepoTag.

(** ** manager.go: what a start changes *)

Section Started.

Import manager.



End Started.

Section StartedExamples.

Import manager data.


End StartedExamples.

(** ** manager.go: refreshing twice *)

Section Again.

Import manager.

Variables (lib : Lib) (m : Manager) (d : Daemon).
Variables (containers : gmap string (list Container)).
Variables (prefs : option (gmap string ProjectPreference)).
Variable t : Time.

Lemma preference_same (p : Project) :
  setHidden (Hidden p) (setDisplayName (DisplayName p) p) = p.
Proof. by destruct p. Qed.

Lemma containers_same (p : Project) :
  setContainers (Containers p) (Status p) p = p.
Proof. by destruct p. Qed.

Lemma answersAt_now (e : Daemon) : answersAt (now e) e = e.
Proof. by destruct e. Qed.

(** Of the time of the pass, a reconciled project carries only the update
    time. *)
Lemma reconciled_at t0 p :
  reconciled lib m (answersAt t0 d) containers prefs p ->
  reconciled lib m (answersAt t d) containers prefs (setUpdatedAt t p).
Proof.
  intros (R1 & R2 & R3 & R4 & R5 & R6).
  split; [exact R1|]. split; [exact R2|]. split; [reflexivity|].
  split; [exact R4|]. split; [exact R5|]. exact R6.
Qed.

(** One turn of the loop, at time [t], on a project that an earlier pass
    reconciled and that is the entry of its ID in the old map: only the
    update time is written. *)
Lemma refreshOne_touched old h acc l p t0 :
  h !! l = Some p ->
  reconciled lib m (answersAt t0 d) containers prefs p ->
  old !! ID p = Some l ->
  refreshOne lib m (answersAt t d) containers prefs old (h, acc) l =
    (<[l := setUpdatedAt t p]> h, <[ID p := l]> acc).
Proof.
  intros Hl (R1 & R2 & R3 & R4 & R5 & R6) Ho. simpl in R1.
  unfold refreshOne. rewrite Hl, Ho, Hl, setProtection_same.
  assert (match prefs with
          | Some pm =>
              match pm !! ID p with
              | Some pref =>
                  setHidden (prefHidden pref) (setDisplayName (prefDisplayName pref) p)
              | None => p
              end
          | None => p
          end = p) as ->.
  { destruct prefs as [pm|] eqn:E; [|done].
    destruct (pm !! ID p) as [pref|] eqn:E2; [|done].
    destruct (R6 pm pref eq_refl E2) as [<- <-]. apply preference_same. }
  assert (attach (answersAt t d) containers p = p) as ->.
  { unfold attach. simpl. etransitivity; [|apply containers_same]. rewrite R2, R1.
    by destruct (containers !! _). }
  assert (applyProtection lib m p = p) as ->.
  { destruct (Protected p) eqn:E; [by apply applyProtection_protected|].
    unfold applyProtection. rewrite E.
    destruct (protected.IsProtected lib (protection m) (Path p)) eqn:I;
      [by specialize (R4 eq_refl)|].
    destruct (existsb (looksCritical lib) (Containers p)) eqn:C;
      [by specialize (R5 eq_refl)|].
    destruct (protection m); by apply protectByContainers_spec. }
  done.
Qed.

(** The loop keeps the ID of every object and enters the objects it visits
    under their IDs. *)
Lemma refreshOne_ids (e : Daemon) old h acc l :
  ID <$> (refreshOne lib m e containers prefs old (h, acc) l).1 = ID <$> h /\
  (refreshOne lib m e containers prefs old (h, acc) l).2 = entered (ID <$> h) acc l.
Proof.
  unfold entered. rewrite list_lookup_fmap.
  destruct (h !! l) as [p|] eqn:Hl.
  - destruct (refreshOne_step lib m e containers prefs old h acc l p Hl)
      as (p' & -> & Hid & _). simpl. split; [|done].
    rewrite list_fmap_insert, Hid. apply list_insert_id.
    by rewrite list_lookup_fmap, Hl.
  - by rewrite refreshOne_dead.
Qed.

Lemma refresh_fold_ids (e : Daemon) old found h acc :
  ID <$> (fold_left (refreshOne lib m e containers prefs old) found (h, acc)).1
    = ID <$> h /\
  (fold_left (refreshOne lib m e containers prefs old) found (h, acc)).2
    = fold_left (entered (ID <$> h)) found acc.
Proof.
  revert h acc. induction found as [|l found IH]; intros h acc; [done|].
  cbn [fold_left]. destruct (refreshOne_ids e old h acc l) as [E1 E2].
  destruct (refreshOne lib m e containers prefs old (h, acc) l) as [h1 acc1].
  simpl in E1, E2. destruct (IH h1 acc1) as [-> ->]. by rewrite E1, E2.
Qed.

(** The loop, at time [t], over projects that an earlier pass reconciled
    and that are all entries of the old map: the projects it visits get the
    update time [t], and no object changes otherwise. *)
Lemma refresh_fold_touched old found h acc l :
  (forall l p, In l found -> h !! l = Some p ->
     (exists t0, reconciled lib m (answersAt t0 d) containers prefs p) /\
     old !! ID p = Some l) ->
  (fold_left (refreshOne lib m (answersAt t d) containers prefs old) found (h, acc)).1
    !! l =
  if decide (l ∈ found) then setUpdatedAt t <$> h !! l else h !! l.
Proof.
  revert h acc. induction found as [|l0 found IH]; intros h acc H; [done|].
  cbn [fold_left].
  destruct (h !! l0) as [p0|] eqn:Hl0.
  - destruct (H l0 p0) as [[t0 R] O]; [by left | done |].
    rewrite (refreshOne_touched old h acc l0 p0 t0 Hl0 R O).
    pose proof (lookup_lt_Some _ _ _ Hl0) as Hlt.
    rewrite IH.
    + destruct (decide (l = l0)) as [->|Hne].
      * rewrite list_lookup_insert_eq, Hl0 by done.
        rewrite (decide_True (P := l0 ∈ l0 :: found)) by left.
        by destruct (decide (l0 ∈ found)).
      * rewrite list_lookup_insert_ne by done.
        destruct (decide (l ∈ found)) as [Hin|Hin].
        -- by rewrite decide_True by by right.
        -- rewrite decide_False; [done|]. by intros [?|?]%elem_of_cons.
    + intros l1 p1 Hin Hl1. destruct (decide (l1 = l0)) as [->|Hne].
      * rewrite list_lookup_insert_eq in Hl1 by done. injection Hl1 as <-.
        split; [exists t; by eapply reconciled_at | done].
      * rewrite list_lookup_insert_ne in Hl1 by done. apply H; [by right | done].
  - rewrite refreshOne_dead by done. rewrite IH.
    + destruct (decide (l = l0)) as [->|Hne].
      * rewrite Hl0. by destruct (decide _), (decide _).
      * destruct (decide (l ∈ found)) as [Hin|Hin].
        -- by rewrite decide_True by by right.
        -- rewrite decide_False; [done|]. by intros [?|?]%elem_of_cons.
    + intros l1 p1 Hin. apply H. by right.
Qed.

End Again.

Section AgainClaim.

Import manager.

Variables (lib : Lib) (m : Manager) (env : finder.ScanEnv) (d : Daemon).

(** X28.  Refreshing again changes nothing but the update time.  After a
    refresh that succeeded, in which no two projects found share an ID, a
    second refresh at any time, with the same files and the same
    answers of the daemon and the store, succeeds and leaves the manager's
    map, the cache and the preference rows as the first left them; every
    project the scan found gets the time of the second pass as its update
    time, and no project object changes otherwise. *)
Theorem Refresh_twice (st st1 : World) (t t' : Time) :
  Refresh lib m env d st = (st1, None) ->
  (forall l p, In l (finder.Scan lib env st).1.2 -> objects st1 !! l = Some p ->
     projects st1 !! ID p = Some l) ->
  exists st2,
    Refresh lib m (scanAt t' env) (answersAt t d) st1 = (st2, None) /\
    projects st2 = projects st1 /\
    cache st2 = cache st1 /\ table st2 = table st1 /\
    forall l,
      objects st2 !! l =
        if decide (l ∈ (finder.Scan lib env st).1.2)
        then setUpdatedAt t <$> objects st1 !! l
        else objects st1 !! l.
Proof.
  unfold Refresh at 1. unfold finder.Scan.
  destruct (finder.scanLoop lib env 0 (finder.yamlFiles env) st [])
    as [[sta found] ok] eqn:S.
  destruct ok; [|discriminate]. simpl.
  destruct (containersByProject d) as [cs|] eqn:C; [|discriminate].
  set (prefs := if hasStore m then _ else None).
  destruct (fold_left _ found (objects sta, ∅)) as [h new] eqn:F.
  intros [= <-] Hown. simpl in Hown.
  destruct (scanLoop_again lib env _ _ _ _ _ _ S) as (delta & Ed & Again).
  simpl in Ed. subst delta.
  destruct (Again t' (withProjects new (withObjects h sta)) [])
    as (st3 & L3 & C3 & O3 & J3 & T3 & _); [done|].
  simpl in L3, C3, O3, J3, T3.
  destruct (refresh_fold_reconciles lib m d cs prefs (projects sta)
              found [] (objects sta) ∅ h new F) as [Inv1 _]; [done | done |].
  destruct (refresh_fold_ids lib m cs prefs d (projects sta) found (objects sta) ∅)
    as [Ids News].
  rewrite F in Ids, News. simpl in Ids, News.
  unfold Refresh, finder.Scan.
  change (finder.yamlFiles (scanAt t' env)) with (finder.yamlFiles env).
  rewrite L3. simpl. rewrite C, T3. fold prefs. rewrite O3, J3.
  destruct (refresh_fold_ids lib m cs prefs (answersAt t d) new found h ∅)
    as [_ News2].
  pose proof (fun l => refresh_fold_touched lib m d cs prefs t new found h ∅ l) as Heap.
  destruct (fold_left _ found (h, ∅)) as [h2 new2]. simpl in News2, Heap.
  eexists. split; [reflexivity|]. simpl.
  split; [by rewrite News2, Ids, <- News|]. split; [done|]. split; [done|].
  intros l. apply Heap. intros l1 p Hin Hl. pose proof (Hown l1 p Hin Hl) as Hn.
  destruct (Inv1 (ID p) l1 Hn) as (_ & p' & Hl' & _ & R).
  split; [|done]. exists (now d). rewrite answersAt_now. congruence.
Qed.

End AgainClaim.

Section AgainExamples.

Import manager data.

(** The blog, refreshed at 3000 and again at 3001. *)
Lemma Refresh_twice_witness :
  let st1 := (Refresh sample.lib plainManager blogScan quietDaemon (blogWorld false "")).1 in
  exists st2,
    Refresh sample.lib plainManager (scanAt 2001 blogScan) (answersAt 3001 quietDaemon) st1
      = (st2, None) /\
    projects st2 = projects st1 /\
    objects st2 !! 0%nat = setUpdatedAt 3001 <$> objects st1 !! 0%nat.
Proof.
  intros st1.
  destruct (Refresh_twice sample.lib plainManager blogScan quietDaemon
              (blogWorld false "") st1 3001 2001) as (st2 & H1 & H2 & _ & _ & H5).
  - vm_compute. reflexivity.
  - intros l p [<-|[]] Hp. vm_compute in Hp. injection Hp as <-.
    vm_compute. reflexivity.
  - exists st2. split; [exact H1|]. split; [exact H2|]. exact (H5 0%nat).
Defined.

End AgainExamples.

(** ** store.go: the rows of the preference table *)

Section StoreRows.

Import store prefs.

(** X29.  The preference table keeps one row per project, stored under the
    project's ID.  [SetDisplayName] writes the display name of the row and
    keeps its hidden flag, [SetHidden] writes the flag and keeps the name; a
    row that did not exist starts with no name and not hidden.
    [DeletePreference] removes the row, after which [GetPreference] returns
    neither a row nor an error.  None of the three touches the row of
    another project, and a call the database fails changes nothing and
    returns its error. *)
Theorem store_rows (t : gmap string ProjectPreference) (id other name : string)
    (hidden : bool) :
  rowsKeyed t ->
  let named := (SetDisplayName None id name t).1 in
  let flagged := (SetHidden None id hidden t).1 in
  let deleted := (DeletePreference None id t).1 in
  (rowsKeyed named /\ rowsKeyed flagged /\ rowsKeyed deleted) /\
  GetPreference None id named =
    (Some {| prefProjectID := id; prefDisplayName := name;
             prefHidden := default false (prefHidden <$> t !! id) |}, None) /\
  GetPreference None id flagged =
    (Some {| prefProjectID := id;
             prefDisplayName := default "" (prefDisplayName <$> t !! id);
             prefHidden := hidden |}, None) /\
  GetPreference None id deleted = (None, None) /\
  (other <> id ->
     GetPreference None other named = GetPreference None other t /\
     GetPreference None other flagged = GetPreference None other t /\
     GetPreference None other deleted = GetPreference None other t) /\
  (forall err,
     SetDisplayName (Some err) id name t = (t, Some err) /\
     SetHidden (Some err) id hidden t = (t, Some err) /\
     DeletePreference (Some err) id t = (t, Some err) /\
     GetPreference (Some err) id t = (None, Some err)).
Proof.
  intros K. simpl. unfold GetPreference.
  rewrite !lookup_insert_eq, lookup_delete_eq.
  split; [|split; [|split; [|split; [done|split; [|done]]]]].
  - repeat split; intros k row Hk.
    + destruct (decide (k = id)) as [->|Hne].
      * rewrite lookup_insert_eq in Hk. injection Hk as <-.
        by destruct (t !! id).
      * rewrite lookup_insert_ne in Hk by done. by apply K.
    + destruct (decide (k = id)) as [->|Hne].
      * rewrite lookup_insert_eq in Hk. injection Hk as <-.
        by destruct (t !! id).
      * rewrite lookup_insert_ne in Hk by done. by apply K.
    + destruct (decide (k = id)) as [->|Hne].
      * by rewrite lookup_delete_eq in Hk.
      * rewrite lookup_delete_ne in Hk by done. by apply K.
  - by destruct (t !! id).
  - by destruct (t !! id).
  - intros Hne. by rewrite !lookup_insert_ne, lookup_delete_ne.
Qed.

Lemma store_rows_witness :
  let t := (SetHidden None "10bc" true ∅).1 in
  GetPreference None "10bc" (SetDisplayName None "10bc" "Alpha" t).1 =
    (Some {| prefProjectID := "10bc"; prefDisplayName := "Alpha";
             prefHidden := true |}, None).
Proof.
  intros t.
  destruct (store_rows t "10bc" "77aa" "Alpha" false) as (_ & H & _).
  - intros k row Hk. unfold t in Hk. simpl in Hk.
    apply lookup_insert_Some in Hk as [[<- <-]|[_ Hk]]; [done|].
    by rewrite lookup_empty in Hk.
  - exact H.
Defined.

End StoreRows.

(** ** hub.go: a client that does not drain its queue *)

Section SlowClient.

Import websocket.

Lemma Run_Broadcast_absent message h i :
  clients h !! i = None ->
  clientObjects (Run (Broadcast message) h) !! i = clientObjects h !! i /\
  clients (Run (Broadcast message) h) !! i = None.
Proof.
  intros Hno. simpl.
  assert (i ∉ ranged h) as Hin.
  { rewrite elem_of_ranged, Hno. by intros [? ?]. }
  destruct (unscoped_fold_other message (ranged h) h i Hin) as [-> ->]. done.
Qed.

Lemma broadcastAll_absent messages h i :
  clients h !! i = None ->
  clientObjects (broadcastAll messages h) !! i = clientObjects h !! i /\
  clients (broadcastAll messages h) !! i = None.
Proof.
  revert h. induction messages as [|message rest IH]; intros h Hno; [done|].
  unfold broadcastAll in *. cbn [fold_left].
  destruct (Run_Broadcast_absent message h i Hno) as [E1 E2].
  destruct (IH _ E2) as [-> ->]. done.
Qed.

Lemma enqueued_length message c :
  length (send (enqueued message c)) = S (length (send c)).
Proof. simpl. rewrite length_app. simpl. lia. Qed.

(** X30.  Broadcasts of the event loop to a registered client that drains
    nothing: as long as the messages fit into the 256 places of its channel
    they are queued in order and the client stays registered; the first
    message that does not fit closes the channel and removes the client from
    the hub, and later broadcasts pass it by.  What it received are the
    messages that fitted. *)
Theorem slow_client_dropped (messages : list string) (h : Hub) (i : nat)
    (c : Client) :
  is_Some (clients h !! i) -> clientObjects h !! i = Some c ->
  (length (send c) <= sendCapacity)%nat ->
  let h' := broadcastAll messages h in
  ((length (send c) + length messages <= sendCapacity)%nat ->
     clientObjects h' !! i = Some (enqueuedAll messages c) /\
     clients h' !! i = clients h !! i) /\
  ((sendCapacity < length (send c) + length messages)%nat ->
     clientObjects h' !! i =
       Some (close (enqueuedAll (take (sendCapacity - length (send c)) messages) c)) /\
     clients h' !! i = None).
Proof.
  revert h c. induction messages as [|message rest IH]; intros h c Hreg Hc Hcap.
  { simpl. split; [done | lia]. }
  cbv zeta. unfold broadcastAll, enqueuedAll. cbn [fold_left length].
  pose proof (Run_Broadcast_lookup message h i c Hreg Hc) as H. cbv zeta in H.
  destruct (length (send c) <? sendCapacity)%nat eqn:Room.
  - apply Nat.ltb_lt in Room. destruct H as [Ho Hm].
    assert (is_Some (clients (Run (Broadcast message) h) !! i)) as Hreg'
      by by rewrite Hm.
    pose proof (enqueued_length message c) as Hlen.
    destruct (IH _ (enqueued message c) Hreg' Ho) as [Fit Over]; [lia|].
    unfold broadcastAll, enqueuedAll in Fit, Over. rewrite Hlen in Fit, Over.
    split.
    + intros Hf. destruct Fit as [-> ->]; [lia|]. by rewrite Hm.
    + intros Hf. destruct Over as [-> ->]; [lia|]. split; [|done].
      replace (sendCapacity - length (send c))%nat
        with (S (sendCapacity - S (length (send c)))) by lia.
      done.
  - apply Nat.ltb_ge in Room. destruct H as [Ho Hm].
    destruct (broadcastAll_absent rest _ i Hm) as [E1 E2].
    unfold broadcastAll in E1, E2. rewrite E1, E2, Ho.
    split; [lia|]. intros _.
    by replace (sendCapacity - length (send c))%nat with 0%nat by lia.
Qed.

End SlowClient.

Section SlowClientExamples.

Import websocket data.

(** The client with a full queue is dropped by the first broadcast; the
    new client takes both. *)
Lemma slow_client_dropped_witness :
  clients (broadcastAll ["a"; "b"] hub3) !! 2%nat = None /\
  send <$> clientObjects (broadcastAll ["a"; "b"] hub3) !! 0%nat = Some ["a"; "b"].
Proof.
  destruct (slow_client_dropped ["a"; "b"] hub3 2%nat stuckClient) as [_ H2];
    [by eexists | reflexivity | vm_compute; lia |].
  destruct (slow_client_dropped ["a"; "b"] hub3 0%nat NewClient) as [H0 _];
    [by eexists | reflexivity | vm_compute; lia |].
  split.
  - apply H2. vm_compute. lia.
  - destruct H0 as [-> _]; [vm_compute; lia | reflexivity].
Defined.

End SlowClientExamples.
